(** * fizzy-cli: board migration, attachment parsing and pseudo columns

    A shallow embedding of the parts of [internal/commands] that the
    specification talks about: the pseudo-column table, the attachment
    reference parser ([parseAttachments]), the account access verifier
    ([verifyAccountAccess]) and the board migration ([runMigrateBoard],
    [migrateCard], [migrateInlineAttachments]).

    Conventions.
    - A Go [string] is a [list ascii] (a byte sequence); literals are written
      [lit "..."].
    - A Go [int] is a [Z]; the counters of the migration count list elements
      and never come near 2^63, so no wrap-around is written out for them.
    - A decoded JSON value ([interface{}]) is a [json]; a JSON object is an
      association list looked up by key.
    - Calls to the HTTP client, to the file system and to stderr are the
      requests of a small free monad [Prog]; [run] interprets a program
      against an arbitrary stateful environment and records the calls made
      together with their replies. *)

From Stdlib Require Import ZArith List Ascii String Bool Lia.
From stdpp Require Import base tactics option list gmap strings pretty.

Local Open Scope Z_scope.

(** ** Strings *)

Abbreviation str := (list ascii).

Definition lit (s : string) : str := list_ascii_of_string s.
Global Arguments lit : simpl never.

(** [strconv.Itoa] and the [%d] verb of [fmt]. *)
Definition itoa (n : Z) : str := lit (pretty n).
Global Arguments itoa : simpl never.

(** [s == t] on Go strings. *)
Definition streq (s t : str) : bool := bool_decide (s = t).

(** [strings.HasPrefix]. *)
Fixpoint hasPrefix (s p : str) {struct p} : bool :=
  match p, s with
  | [], _ => true
  | c :: p', d :: s' => bool_decide (c = d) && hasPrefix s' p'
  | _ :: _, [] => false
  end.

(** [strings.TrimPrefix]: [s] without the leading [p], or [s] itself. *)
Definition trimPrefix (s p : str) : str :=
  if hasPrefix s p then drop (length p) s else s.

(** ** Decoded JSON *)

(** A [float64] is kept as the exact fraction [num/den]; NaN, infinities and
    rounding are outside the model. *)
#[warnings="-register-all"]
Inductive json : Type :=
| JNull
| JBool (b : bool)
| JFloat (num : Z) (den : positive)
| JInt (n : Z)
| JString (s : str)
| JArray (l : list json)
| JObject (m : list (str * json)).

Abbreviation object := (list (str * json)).

(** [m[key]] on a [map[string]interface{}]; a missing key gives [nil]. *)
Fixpoint index (m : object) (key : str) : json :=
  match m with
  | [] => JNull
  | (k, v) :: m' => if streq k key then v else index m' key
  end.

Definition getStringField (m : object) (key : str) : str :=
  match index m key with
  | JString v => v
  | _ => []
  end.

(** [int(v)] truncates a [float64] towards zero. *)
Definition getIntField (m : object) (key : str) : Z :=
  match index m key with
  | JFloat num den => Z.quot num (Z.pos den)
  | JInt v => v
  | _ => 0
  end.

Definition getBoolField (m : object) (key : str) : bool :=
  match index m key with
  | JBool v => v
  | _ => false
  end.

(** ** Pseudo columns *)

Record pseudoColumn : Type := { ID : str; Name : str; Kind : str }.

Definition pseudoColumnNotYet : pseudoColumn :=
  {| ID := lit "not-yet"; Name := lit "Not Yet"; Kind := lit "triage" |}.
Definition pseudoColumnMaybe : pseudoColumn :=
  {| ID := lit "maybe"; Name := lit "Maybe?"; Kind := lit "not_now" |}.
Definition pseudoColumnDone : pseudoColumn :=
  {| ID := lit "done"; Name := lit "Done"; Kind := lit "closed" |}.

Definition pseudoColumnsInBoardOrder : list pseudoColumn :=
  [pseudoColumnNotYet; pseudoColumnMaybe; pseudoColumnDone].

Definition pseudoColumnObject (c : pseudoColumn) : json :=
  JObject [ (lit "id", JString (ID c));
            (lit "name", JString (Name c));
            (lit "kind", JString (Kind c));
            (lit "pseudo", JBool true) ].


(** The column array built by [columnListCmd] from the server's [data].
    [column.go] names the first lane [pseudoColumnNotNow]; no file of the
    package under study declares that constant, so the listing takes it as
    an argument. *)
Definition columnListCols (pseudoColumnNotNow : pseudoColumn)
    (data : list json) : list json :=
  let cols := [] in
  let cols := cols ++ [pseudoColumnObject pseudoColumnNotNow;
                       pseudoColumnObject pseudoColumnMaybe] in
  let cols := cols ++ data in
  let cols := cols ++ [pseudoColumnObject pseudoColumnDone] in
  cols.

(** ** Regular expressions

    The four patterns of [parseAttachments] and [extractAttr] use literals,
    character classes, capture groups and repetition of a single character
    class, greedy or lazy. [regexp] returns the leftmost match and, among
    the matches at one position, the one a backtracking matcher finds first;
    [matchK] is that matcher, in continuation-passing style.

    The patterns are read byte by byte. The classes that are repeated
    (white space, not-[>], not-a-quote and, under [(?s)], the dot) hold every
    byte of a multi-byte character or none, and all literals are ASCII, so
    the match boundaries are those of the rune-by-rune reading.

    In the comments below [Q] stands for the double quote character. *)

Definition dquote : ascii := "034"%char.
Definition newline : ascii := "010"%char.

Inductive regex : Type :=
| Eps
| Lit (l : str)
| Class (p : ascii -> bool)
| Seq (r1 r2 : regex)
| Star (p : ascii -> bool) (greedy : bool)
| Group (n : nat) (r : regex).

(** [x+] and [x+?] are [x x*] and [x x*?]. *)
Definition Plus (p : ascii -> bool) (greedy : bool) : regex :=
  Seq (Class p) (Star p greedy).

(** Captured groups, the most recently closed first. *)
Abbreviation captures := (list (nat * str)).

Fixpoint group (c : captures) (n : nat) : str :=
  match c with
  | [] => []
  | (m, v) :: c' => if Nat.eqb m n then v else group c' n
  end.

Fixpoint starK {R : Type} (p : ascii -> bool) (greedy : bool) (s : str)
    (k : str -> option R) : option R :=
  match s with
  | a :: s' =>
      if p a then
        if greedy then
          match starK p greedy s' k with
          | Some r => Some r
          | None => k s
          end
        else
          match k s with
          | Some r => Some r
          | None => starK p greedy s' k
          end
      else k s
  | [] => k []
  end.

Fixpoint matchK {R : Type} (r : regex) (s : str) (c : captures)
    (k : str -> captures -> option R) : option R :=
  match r with
  | Eps => k s c
  | Lit l => if hasPrefix s l then k (drop (length l) s) c else None
  | Class p =>
      match s with
      | a :: s' => if p a then k s' c else None
      | [] => None
      end
  | Seq r1 r2 => matchK r1 s c (fun s1 c1 => matchK r2 s1 c1 k)
  | Star p greedy => starK p greedy s (fun s1 => k s1 c)
  | Group n r1 =>
      matchK r1 s c
        (fun s1 c1 => k s1 ((n, take (length s - length s1) s) :: c1))
  end.

(** A match anchored at the start of [s]: the groups and the unread rest. *)
Definition matchAt (r : regex) (s : str) : option (captures * str) :=
  matchK r s [] (fun s1 c => Some (c, s1)).

(** [FindStringSubmatch]: the leftmost match. *)
Fixpoint findStringSubmatch (r : regex) (s : str) : option captures :=
  match matchAt r s with
  | Some (c, _) => Some c
  | None =>
      match s with
      | [] => None
      | _ :: s' => findStringSubmatch r s'
      end
  end.

(** [MatchString]. *)
Definition matchString (r : regex) (s : str) : bool :=
  match findStringSubmatch r s with Some _ => true | None => false end.

(** [FindAllStringSubmatch(s, -1)]: successive leftmost matches that do not
    overlap. [skip] counts the characters of [s] still covered by the
    previous match. (After an empty match the search moves on by one
    character; the pattern it is used with has no empty match.) *)
Fixpoint findAllStringSubmatch (r : regex) (s : str) (skip : nat)
    : list captures :=
  match s with
  | [] =>
      match skip, matchAt r [] with
      | O, Some (c, _) => [c]
      | _, _ => []
      end
  | _ :: s' =>
      match skip with
      | S n => findAllStringSubmatch r s' n
      | O =>
          match matchAt r s with
          | Some (c, rest) =>
              c :: findAllStringSubmatch r s' (length s - length rest - 1)
          | None => findAllStringSubmatch r s' 0
          end
      end
  end.

(** *** The patterns of the attachment parser *)

Definition isSpace (a : ascii) : bool :=
  bool_decide (a = "009"%char) || bool_decide (a = "010"%char)
  || bool_decide (a = "012"%char) || bool_decide (a = "013"%char)
  || bool_decide (a = " "%char).
Definition notGt (a : ascii) : bool := negb (bool_decide (a = ">"%char)).
Definition notQuote (a : ascii) : bool := negb (bool_decide (a = dquote)).
Definition anyChar (a : ascii) : bool := true.

Definition openTag : str := lit "<action-text-attachment".
Definition closeTag : str := lit "</action-text-attachment>".
Global Arguments openTag : simpl never.
Global Arguments closeTag : simpl never.

(** [(?s)<action-text-attachment\s+([^>]+)>(.*?)</action-text-attachment>] *)
Definition attachmentRegex : regex :=
  Seq (Lit openTag)
   (Seq (Plus isSpace true)
   (Seq (Group 1 (Plus notGt true))
   (Seq (Lit (lit ">"))
   (Seq (Group 2 (Star anyChar false))
        (Lit closeTag))))).

Definition dispositionQuery : str := lit "?disposition=attachment".
Global Arguments dispositionQuery : simpl never.

(** [href=Q], the start of a link. *)
Definition hrefOpen : str := lit "href=" ++ [dquote].

(** [href=Q([^Q]+\?disposition=attachment)Q] *)
Definition downloadURLRegex : regex :=
  Seq (Lit hrefOpen)
   (Seq (Group 1 (Seq (Plus notQuote true) (Lit dispositionQuery)))
        (Lit [dquote])).

Definition blobRedirect : str := lit "/rails/active_storage/blobs/redirect/".
Global Arguments blobRedirect : simpl never.

(** [href=Q(/[^Q]+/rails/active_storage/blobs/redirect/[^Q]+)Q] *)
Definition blobURLRegex : regex :=
  Seq (Lit hrefOpen)
   (Seq (Group 1
          (Seq (Lit (lit "/"))
          (Seq (Plus notQuote true)
          (Seq (Lit blobRedirect)
               (Plus notQuote true)))))
        (Lit [dquote])).

(** [name] followed by [=Q], the group [[^Q]*] and [Q]. Every [name] the
    parser passes is free of pattern metacharacters, so it stands for
    itself. *)
Definition attrRegex (name : str) : regex :=
  Seq (Lit (name ++ lit "=" ++ [dquote]))
   (Seq (Group 1 (Star notQuote true))
        (Lit [dquote])).

(** [\?] *)
Definition questionMarkRegex : regex := Lit (lit "?").

(** ** The attachment parser *)

Record Attachment : Type := {
  Index : Z;
  Filename : str;
  ContentType : str;
  Filesize : Z;
  Width : Z;
  Height : Z;
  DownloadURL : str;
  SGID : str
}.

Definition extractAttr (attrs name : str) : str :=
  match findStringSubmatch (attrRegex name) attrs with
  | Some m => group m 1
  | None => []
  end.

Definition digitVal (a : ascii) : option Z :=
  let n := Z.of_N (N_of_ascii a) in
  if (48 <=? n) && (n <=? 57) then Some (n - 48) else None.

Fixpoint parseDigits (s : str) (acc : Z) : option Z :=
  match s with
  | [] => Some acc
  | a :: s' =>
      match digitVal a with
      | Some d => parseDigits s' (10 * acc + d)
      | None => None
      end
  end.

(** [strconv.ParseInt(s, 10, 64)] and, [int] being 64 bits wide,
    [strconv.Atoi]: [None] stands for a non-nil error. *)
Definition parseInt (s : str) : option Z :=
  let '(neg, ds) :=
    match s with
    | "+"%char :: r => (false, r)
    | "-"%char :: r => (true, r)
    | _ => (false, s)
    end in
  match ds with
  | [] => None
  | _ =>
      match parseDigits ds 0 with
      | Some n =>
          let v := if neg : bool then - n else n in
          if (- 2 ^ 63 <=? v) && (v <? 2 ^ 63) then Some v else None
      | None => None
      end
  end.

(** A numeric attribute: zero when absent or not a number. *)
Definition intAttr (attrs name : str) : Z :=
  let v := extractAttr attrs name in
  if streq v [] then 0
  else match parseInt v with Some n => n | None => 0 end.

(** The download link of one element, from its inner content. *)
Definition resolveDownloadURL (content : str) : str :=
  let url :=
    match findStringSubmatch downloadURLRegex content with
    | Some downloadMatch => group downloadMatch 1
    | None => []
    end in
  if streq url [] then
    match findStringSubmatch blobURLRegex content with
    | Some blobMatch =>
        let url := group blobMatch 1 in
        if negb (matchString questionMarkRegex url)
        then url ++ dispositionQuery
        else url
    | None => []
    end
  else url.

(** The record built from the [i]-th match (counted from zero). *)
Definition attachmentOfMatch (i : nat) (m : captures) : Attachment :=
  let attrs := group m 1 in
  let content := group m 2 in
  {| Index := Z.of_nat i + 1;
     SGID := extractAttr attrs (lit "sgid");
     ContentType := extractAttr attrs (lit "content-type");
     Filename := extractAttr attrs (lit "filename");
     Filesize := intAttr attrs (lit "filesize");
     Width := intAttr attrs (lit "width");
     Height := intAttr attrs (lit "height");
     DownloadURL := resolveDownloadURL content |}.

(** The first loop: one record per match, appended in order. *)
Fixpoint collectAttachments (i : nat) (matches : list captures)
    : list Attachment :=
  match matches with
  | [] => []
  | m :: ms => attachmentOfMatch i m :: collectAttachments (S i) ms
  end.

(** An entry with neither a file name nor a download link is dropped. *)
Definition dropped (a : Attachment) : bool :=
  streq (Filename a) [] && streq (DownloadURL a) [].

(** The filter runs in place: [filtered := attachments[:0]] shares the
    array of [attachments], and [append] writes the kept entry at position
    [n] of the array that the loop is still reading at position [i]. *)
Fixpoint filterInPlace (todo i n : nat) (arr : list Attachment)
    : nat * list Attachment :=
  match todo with
  | O => (n, arr)
  | S todo' =>
      match arr !! i with
      | Some a =>
          if dropped a then filterInPlace todo' (S i) n arr
          else filterInPlace todo' (S i) (S n) (<[n := a]> arr)
      | None => (n, arr)
      end
  end.

Definition setIndex (a : Attachment) (v : Z) : Attachment :=
  {| Index := v; Filename := Filename a; ContentType := ContentType a;
     Filesize := Filesize a; Width := Width a; Height := Height a;
     DownloadURL := DownloadURL a; SGID := SGID a |}.

(** [for i := range filtered { filtered[i].Index = i + 1 }] *)
Fixpoint reindexFrom (i : nat) (l : list Attachment) : list Attachment :=
  match l with
  | [] => []
  | a :: l' => setIndex a (Z.of_nat i + 1) :: reindexFrom (S i) l'
  end.

Definition parseAttachments (html : str) : list Attachment :=
  let matches := findAllStringSubmatch attachmentRegex html 0 in
  let attachments := collectAttachments 0 matches in
  let '(n, arr) := filterInPlace (length attachments) 0 0 attachments in
  let filtered := take n arr in
  reindexFrom 0 filtered.

(** Text written with ['] for the double quote. *)
Definition markup (s : string) : str :=
  map (fun a => if bool_decide (a = "'"%char) then dquote else a) (lit s).

(** ** Programs over the API client

    [client.API], the file system and stderr are outside the code under
    study. A program is a tree of requests; what the outside answers is
    left to the interpreter. *)

Inductive error : Type :=
| NewError (msg : str)
| NewInvalidArgsError (msg : str)
| Errorf (msg : str)
| ExternalError (msg : str).

(** [err.Error()], which is what the [%v] and [%w] verbs print. *)
Definition errorString (e : error) : str :=
  match e with
  | NewError m | NewInvalidArgsError m | Errorf m | ExternalError m => m
  end.

Record APIResponse : Type := { Data : json; Location : str }.

(** The first argument of a client call is the account slug the client was
    created for ([createClientForAccount]); the identity client has none. *)
Inductive request : Type :=
| Get (account path : str)
| GetWithPagination (account path : str) (fetchAll : bool)
| Post (account path : str) (body : json)
| Patch (account path : str) (body : json)
| FollowLocation (account location : str)
| DownloadFile (account url dest : str)
| UploadFile (account path : str)
| Remove (path : str)
| Stderr (text : str).

(** A call answers [(resp, nil)] or [(nil, err)]. A call that returns only
    an error answers [Failed] or anything else; the answer to [Remove] and
    [Stderr] is not looked at. *)
Inductive reply : Type :=
| Ok (resp : APIResponse)
| Failed (err : error).

Inductive Prog (A : Type) : Type :=
| Ret (a : A)
| Call (r : request) (k : reply -> Prog A).
Arguments Ret {A} a.
Arguments Call {A} r k.

Fixpoint bind {A B : Type} (p : Prog A) (f : A -> Prog B) : Prog B :=
  match p with
  | Ret a => f a
  | Call r k => Call r (fun x => bind (k x) f)
  end.

Definition call (r : request) : Prog reply := Call r Ret.

Notation "x <- p ;; q" := (bind p (fun x => q))
  (at level 100, p at next level, right associativity).
Notation "p ;;; q" := (bind p (fun _ => q))
  (at level 100, right associativity).

(** [fmt.Fprintf(os.Stderr, ...)] *)
Definition eprint (text : str) : Prog unit :=
  call (Stderr text) ;;; Ret tt.

(** A [for ... range xs] loop whose body updates the state [s]. *)
Fixpoint forEach {X S : Type} (xs : list X) (body : S -> X -> Prog S) (s : S)
    : Prog S :=
  match xs with
  | [] => Ret s
  | x :: xs' => s' <- body s x ;; forEach xs' body s'
  end.

(** The same loop with the index [i] of the element. *)
Fixpoint forEachIndexed {X S : Type} (i : Z) (xs : list X)
    (body : Z -> S -> X -> Prog S) (s : S) : Prog S :=
  match xs with
  | [] => Ret s
  | x :: xs' => s' <- body i s x ;; forEachIndexed (i + 1) xs' body s'
  end.

Abbreviation trace := (list (request * reply)).

Definition isStderr (r : request) : bool :=
  match r with Stderr _ => true | _ => false end.

(** What a print is answered with; no caller looks at it. *)
Definition ack : reply := Ok {| Data := JNull; Location := [] |}.

(** [run handle w p]: the result of [p], the final state of the outside and
    the calls made with their replies, when a request [r] issued in state
    [w] is answered by [handle w r]. A print to stderr is output only: it
    is recorded and does not reach the outside. *)
Fixpoint run {W A : Type} (handle : W -> request -> W * reply) (w : W)
    (p : Prog A) : A * W * trace :=
  match p with
  | Ret a => (a, w, [])
  | Call (Stderr text) k =>
      let '(a, w2, t) := run handle w (k ack) in
      (a, w2, (Stderr text, ack) :: t)
  | Call r k =>
      let '(w1, x) := handle w r in
      let '(a, w2, t) := run handle w1 (k x) in
      (a, w2, (r, x) :: t)
  end.

(** A call that changes something on a server: [POST], [PATCH] and the
    upload. (The client's [DELETE] is not used by the migration.) *)
Definition mutating (r : request) : bool :=
  match r with
  | Post _ _ _ | Patch _ _ _ | UploadFile _ _ => true
  | _ => false
  end.

(** ** The migration *)

(** The package-level variables the migration reads: the configuration, the
    flags of [migrate board], the outcome of [requireAuth] and the two
    functions of the Go library that name temporary files. *)
Record globals : Type := {
  cfgAPIURL : str;
  requireAuth : option error;
  migrateBoardFrom : str;
  migrateBoardTo : str;
  migrateBoardIncludeComments : bool;
  migrateBoardIncludeSteps : bool;
  migrateBoardIncludeImages : bool;
  migrateBoardDryRun : bool;
  osTempDir : str;
  filepathJoin : str -> str -> str
}.

Record migrationStats : Type := {
  boardCreated : bool;
  targetBoardID : str;
  targetBoardName : str;
  columnsCreated : Z;
  cardsCreated : Z;
  tagsApplied : Z;
  commentsCreated : Z;
  stepsCreated : Z;
  imagesMigrated : Z;
  cardMapping : gmap Z Z
}.

Definition emptyStats : migrationStats :=
  {| boardCreated := false; targetBoardID := []; targetBoardName := [];
     columnsCreated := 0; cardsCreated := 0; tagsApplied := 0;
     commentsCreated := 0; stepsCreated := 0; imagesMigrated := 0;
     cardMapping := ∅ |}.

Definition setBoard (s : migrationStats) (id name : str) : migrationStats :=
  {| boardCreated := true; targetBoardID := id; targetBoardName := name;
     columnsCreated := columnsCreated s; cardsCreated := cardsCreated s;
     tagsApplied := tagsApplied s; commentsCreated := commentsCreated s;
     stepsCreated := stepsCreated s; imagesMigrated := imagesMigrated s;
     cardMapping := cardMapping s |}.

Definition addColumnsCreated (s : migrationStats) (n : Z) : migrationStats :=
  {| boardCreated := boardCreated s; targetBoardID := targetBoardID s;
     targetBoardName := targetBoardName s;
     columnsCreated := columnsCreated s + n; cardsCreated := cardsCreated s;
     tagsApplied := tagsApplied s; commentsCreated := commentsCreated s;
     stepsCreated := stepsCreated s; imagesMigrated := imagesMigrated s;
     cardMapping := cardMapping s |}.

Definition addTagsApplied (s : migrationStats) (n : Z) : migrationStats :=
  {| boardCreated := boardCreated s; targetBoardID := targetBoardID s;
     targetBoardName := targetBoardName s;
     columnsCreated := columnsCreated s; cardsCreated := cardsCreated s;
     tagsApplied := tagsApplied s + n; commentsCreated := commentsCreated s;
     stepsCreated := stepsCreated s; imagesMigrated := imagesMigrated s;
     cardMapping := cardMapping s |}.

Definition addCommentsCreated (s : migrationStats) (n : Z) : migrationStats :=
  {| boardCreated := boardCreated s; targetBoardID := targetBoardID s;
     targetBoardName := targetBoardName s;
     columnsCreated := columnsCreated s; cardsCreated := cardsCreated s;
     tagsApplied := tagsApplied s; commentsCreated := commentsCreated s + n;
     stepsCreated := stepsCreated s; imagesMigrated := imagesMigrated s;
     cardMapping := cardMapping s |}.

Definition addStepsCreated (s : migrationStats) (n : Z) : migrationStats :=
  {| boardCreated := boardCreated s; targetBoardID := targetBoardID s;
     targetBoardName := targetBoardName s;
     columnsCreated := columnsCreated s; cardsCreated := cardsCreated s;
     tagsApplied := tagsApplied s; commentsCreated := commentsCreated s;
     stepsCreated := stepsCreated s + n; imagesMigrated := imagesMigrated s;
     cardMapping := cardMapping s |}.

Definition addImagesMigrated (s : migrationStats) (n : Z) : migrationStats :=
  {| boardCreated := boardCreated s; targetBoardID := targetBoardID s;
     targetBoardName := targetBoardName s;
     columnsCreated := columnsCreated s; cardsCreated := cardsCreated s;
     tagsApplied := tagsApplied s; commentsCreated := commentsCreated s;
     stepsCreated := stepsCreated s; imagesMigrated := imagesMigrated s + n;
     cardMapping := cardMapping s |}.

(** [stats.cardMapping[src] = tgt; stats.cardsCreated++] *)
Definition recordCard (s : migrationStats) (src tgt : Z) : migrationStats :=
  {| boardCreated := boardCreated s; targetBoardID := targetBoardID s;
     targetBoardName := targetBoardName s;
     columnsCreated := columnsCreated s; cardsCreated := cardsCreated s + 1;
     tagsApplied := tagsApplied s; commentsCreated := commentsCreated s;
     stepsCreated := stepsCreated s; imagesMigrated := imagesMigrated s;
     cardMapping := <[src := tgt]> (cardMapping s) |}.

(** *** Access verification *)

(** One turn of the loop over the accounts of the identity response. *)
Definition accessStep (sourceAccount targetAccount : str)
    (found : bool * bool) (acc : json) : bool * bool :=
  let '(foundSource, foundTarget) := found in
  match acc with
  | JObject accMap =>
      let slug := getStringField accMap (lit "slug") in
      let normalizedSlug := trimPrefix slug (lit "/") in
      let foundSource :=
        if streq normalizedSlug sourceAccount || streq slug sourceAccount
        then true else foundSource in
      let foundTarget :=
        if streq normalizedSlug targetAccount || streq slug targetAccount
        then true else foundTarget in
      (foundSource, foundTarget)
  | _ => found
  end.

Definition quoted (s : str) : str := lit "'" ++ s ++ lit "'".

Definition verifyAccountAccess (g : globals)
    (sourceAccount targetAccount : str) : Prog (option error) :=
  r <- call (Get [] (cfgAPIURL g ++ lit "/my/identity.json")) ;;
  match r with
  | Failed err =>
      Ret (Some (NewError (lit "Failed to fetch identity: "
                           ++ errorString err)))
  | Ok resp =>
      match Data resp with
      | JObject data =>
          match index data (lit "accounts") with
          | JArray accounts =>
              let '(foundSource, foundTarget) :=
                fold_left (accessStep sourceAccount targetAccount)
                          accounts (false, false) in
              if negb foundSource then
                Ret (Some (NewError
                  (lit "You don't have access to source account "
                   ++ quoted sourceAccount)))
              else if negb foundTarget then
                Ret (Some (NewError
                  (lit "You don't have access to target account "
                   ++ quoted targetAccount)))
              else Ret None
          | _ =>
              Ret (Some (NewError
                (lit "No accounts found in identity response")))
          end
      | _ => Ret (Some (NewError (lit "Invalid identity response")))
      end
  end.

(** *** Fetching the source board *)

Definition getBoard (c boardID : str) : Prog (object * option error) :=
  r <- call (Get c (lit "/boards/" ++ boardID ++ lit ".json")) ;;
  match r with
  | Failed err => Ret ([], Some err)
  | Ok resp =>
      match Data resp with
      | JObject data => Ret (data, None)
      | _ => Ret ([], Some (NewError (lit "Invalid board response")))
      end
  end.

Definition getColumns (c boardID : str) : Prog (list json * option error) :=
  r <- call (Get c (lit "/boards/" ++ boardID ++ lit "/columns.json")) ;;
  match r with
  | Failed err => Ret ([], Some err)
  | Ok resp =>
      match Data resp with
      | JArray data => Ret (data, None)
      | _ => Ret ([], Some (NewError (lit "Invalid columns response")))
      end
  end.

Definition getAllCards (c boardID : str) : Prog (list json * option error) :=
  r <- call (GetWithPagination c (lit "/cards.json?board_ids[]=" ++ boardID)
              true) ;;
  match r with
  | Failed err => Ret ([], Some err)
  | Ok resp =>
      match Data resp with
      | JArray data => Ret (data, None)
      | _ => Ret ([], Some (NewError (lit "Invalid cards response")))
      end
  end.

(** *** Creating the target board and its columns *)

(** [FollowLocation] on a created resource: the object it returns, if any. *)
Definition followCreated (c : str) (resp : APIResponse)
    : Prog (option object) :=
  if negb (streq (Location resp) []) then
    f <- call (FollowLocation c (Location resp)) ;;
    match f with
    | Ok followResp =>
        match Data followResp with
        | JObject data => Ret (Some data)
        | _ => Ret None
        end
    | Failed _ => Ret None
    end
  else Ret None.

Definition createBoard (c name : str) : Prog (str * option error) :=
  let body :=
    JObject [(lit "board", JObject [(lit "name", JString name)])] in
  r <- call (Post c (lit "/boards.json") body) ;;
  match r with
  | Failed err => Ret ([], Some err)
  | Ok resp =>
      followed <- followCreated c resp ;;
      match followed with
      | Some data => Ret (getStringField data (lit "id"), None)
      | None =>
          match Data resp with
          | JObject data => Ret (getStringField data (lit "id"), None)
          | _ =>
              Ret ([], Some (NewError
                (lit "Failed to get board ID from response")))
          end
      end
  end.

Definition createColumn (c boardID name color : str)
    : Prog (str * option error) :=
  let colParams := [(lit "name", JString name)] in
  let colParams :=
    if negb (streq color [])
    then colParams ++ [(lit "color", JString color)] else colParams in
  let body := JObject [(lit "column", JObject colParams)] in
  r <- call (Post c (lit "/boards/" ++ boardID ++ lit "/columns.json")
              body) ;;
  match r with
  | Failed err => Ret ([], Some err)
  | Ok resp =>
      followed <- followCreated c resp ;;
      match followed with
      | Some data => Ret (getStringField data (lit "id"), None)
      | None =>
          match Data resp with
          | JObject data => Ret (getStringField data (lit "id"), None)
          | _ =>
              Ret ([], Some (NewError
                (lit "Failed to get column ID from response")))
          end
      end
  end.

(** The two tests that skip a pseudo column, as [runMigrateBoard] and
    [countRealColumns] both write them. *)
Definition skippedAsPseudo (colMap : object) : bool :=
  match index colMap (lit "kind") with
  | JString kind => negb (streq kind (lit "real"))
  | _ => false
  end
  || match index colMap (lit "pseudo") with
     | JBool pseudo => pseudo
     | _ => false
     end.

Definition countRealColumns (columns : list json) : Z :=
  fold_left
    (fun count col =>
       match col with
       | JObject colMap =>
           if skippedAsPseudo colMap then count else count + 1
       | _ => count
       end)
    columns 0.

(** One turn of the loop that creates the columns; the state is the column
    mapping and the statistics. *)
Definition createColumnStep (targetClient targetBoardID : str)
    (st : gmap str str * migrationStats) (col : json)
    : Prog (gmap str str * migrationStats) :=
  let '(columnMapping, stats) := st in
  match col with
  | JObject colMap =>
      if skippedAsPseudo colMap then Ret st
      else
        let colName := getStringField colMap (lit "name") in
        let colColor := getStringField colMap (lit "color") in
        let sourceColID := getStringField colMap (lit "id") in
        r <- createColumn targetClient targetBoardID colName colColor ;;
        match r with
        | (_, Some err) =>
            eprint (lit "Warning: Failed to create column "
                    ++ quoted colName ++ lit ": " ++ errorString err
                    ++ [newline]) ;;;
            Ret st
        | (targetColID, None) =>
            Ret (<[sourceColID := targetColID]> columnMapping,
                 addColumnsCreated stats 1)
        end
  | _ => Ret st
  end.

(** *** Inline attachments *)

(** [strings.Replace(s, old, new, 1)] *)
Fixpoint replaceFirst (s old new : str) : str :=
  if hasPrefix s old then new ++ drop (length old) s
  else
    match s with
    | [] => []
    | a :: s' => a :: replaceFirst s' old new
    end.

(** One turn of the loop of [migrateInlineAttachments]; the state is
    [result] and [migratedCount]. *)
Definition inlineAttachmentStep (g : globals) (sourceClient targetClient : str)
    (st : str * Z) (attachment : Attachment) : Prog (str * Z) :=
  let '(result, migratedCount) := st in
  if streq (DownloadURL attachment) [] then Ret st
  else
    let tempDir := osTempDir g in
    let tempFile :=
      filepathJoin g tempDir
        (lit "fizzy-migrate-attachment-" ++ itoa (Index attachment)
         ++ lit "-" ++ Filename attachment) in
    d <- call (DownloadFile sourceClient (DownloadURL attachment)
                tempFile) ;;
    match d with
    | Failed err =>
        call (Remove tempFile) ;;;
        eprint (lit "      Warning: Failed to download attachment "
                ++ quoted (Filename attachment) ++ lit ": "
                ++ errorString err ++ [newline]) ;;;
        Ret st
    | Ok _ =>
        u <- call (UploadFile targetClient tempFile) ;;
        call (Remove tempFile) ;;;
        match u with
        | Failed err =>
            eprint (lit "      Warning: Failed to upload attachment "
                    ++ quoted (Filename attachment) ++ lit ": "
                    ++ errorString err ++ [newline]) ;;;
            Ret st
        | Ok uploadResp =>
            match Data uploadResp with
            | JObject uploadData =>
                let newSGID :=
                  getStringField uploadData (lit "attachable_sgid") in
                let newSGID :=
                  if streq newSGID []
                  then getStringField uploadData (lit "signed_id")
                  else newSGID in
                if streq newSGID [] then
                  eprint (lit "      Warning: No SGID in upload response for "
                          ++ quoted (Filename attachment)
                          ++ [newline]) ;;;
                  Ret st
                else if negb (streq (SGID attachment) []) then
                  Ret (replaceFirst result (SGID attachment) newSGID,
                       migratedCount + 1)
                else Ret st
            | _ =>
                eprint (lit "      Warning: Invalid upload response for "
                        ++ quoted (Filename attachment) ++ [newline]) ;;;
                Ret st
            end
        end
    end.

Definition migrateInlineAttachments (g : globals)
    (sourceClient targetClient html : str)
    : Prog (str * Z * option error) :=
  let attachments := parseAttachments html in
  match attachments with
  | [] => Ret (html, 0, None)
  | _ =>
      st <- forEach attachments
              (inlineAttachmentStep g sourceClient targetClient)
              (html, 0) ;;
      Ret (fst st, snd st, None)
  end.

(** *** One card *)

Definition getCardColumnID (card : object) : str :=
  match index card (lit "column_id") with
  | JString ((_ :: _) as colID) => colID
  | _ =>
      match index card (lit "column") with
      | JObject col =>
          match index col (lit "id") with
          | JString colID => colID
          | _ => []
          end
      | _ => []
      end
  end.

Definition cardPath (cardNum suffix : str) : str :=
  lit "/cards/" ++ cardNum ++ suffix.

(** The four one-call helpers return the error of their [POST]. *)
Definition postError (r : reply) : option error :=
  match r with
  | Failed err => Some err
  | Ok _ => None
  end.

Definition applyTag (c cardNum tagName : str) : Prog (option error) :=
  let body := JObject [(lit "tag_title", JString tagName)] in
  r <- call (Post c (cardPath cardNum (lit "/taggings.json")) body) ;;
  Ret (postError r).

Definition moveToColumn (c cardNum columnID : str) : Prog (option error) :=
  let body := JObject [(lit "column_id", JString columnID)] in
  r <- call (Post c (cardPath cardNum (lit "/triage.json")) body) ;;
  Ret (postError r).

Definition closeCard (c cardNum : str) : Prog (option error) :=
  r <- call (Post c (cardPath cardNum (lit "/closure.json")) JNull) ;;
  Ret (postError r).

Definition markGolden (c cardNum : str) : Prog (option error) :=
  r <- call (Post c (cardPath cardNum (lit "/goldness.json")) JNull) ;;
  Ret (postError r).

(** What a comment carries: [bodyContent] and [bodyHTML]. *)
Definition commentBody (commentMap : object) : str * str :=
  match index commentMap (lit "body") with
  | JObject body =>
      match index body (lit "html") with
      | JString h => (h, h)
      | _ =>
          match index body (lit "plain_text") with
          | JString plain => (plain, [])
          | _ => ([], [])
          end
      end
  | JString body => (body, [])
  | _ => ([], [])
  end.

Definition migrateCommentStep (g : globals)
    (sourceClient targetClient targetCardNum : str)
    (created : Z) (comment : json) : Prog Z :=
  match comment with
  | JObject commentMap =>
      let '(bodyContent, bodyHTML) := commentBody commentMap in
      if streq bodyContent [] then Ret created
      else
        bodyContent <-
          (if migrateBoardIncludeImages g && negb (streq bodyHTML []) then
             m <- migrateInlineAttachments g sourceClient targetClient
                    bodyHTML ;;
             match m with
             | (_, _, Some err) =>
                 eprint (lit "      Warning: Failed to migrate comment attachments: "
                         ++ errorString err ++ [newline]) ;;;
                 Ret bodyContent
             | (migratedBody, _, None) => Ret migratedBody
             end
           else Ret bodyContent) ;;
        let createdAt := getStringField commentMap (lit "created_at") in
        let commentParams := [(lit "body", JString bodyContent)] in
        let commentParams :=
          if negb (streq createdAt [])
          then commentParams ++ [(lit "created_at", JString createdAt)]
          else commentParams in
        let reqBody := JObject [(lit "comment", JObject commentParams)] in
        r <- call (Post targetClient
                    (cardPath targetCardNum (lit "/comments.json"))
                    reqBody) ;;
        match r with
        | Failed err =>
            eprint (lit "      Warning: Failed to create comment: "
                    ++ errorString err ++ [newline]) ;;;
            Ret created
        | Ok _ => Ret (created + 1)
        end
  | _ => Ret created
  end.

Definition migrateComments (g : globals)
    (sourceClient targetClient sourceCardNum targetCardNum : str)
    : Prog (Z * option error) :=
  r <- call (GetWithPagination sourceClient
              (cardPath sourceCardNum (lit "/comments.json")) true) ;;
  match r with
  | Failed err => Ret (0, Some err)
  | Ok resp =>
      match Data resp with
      | JArray comments =>
          created <- forEach comments
                       (migrateCommentStep g sourceClient targetClient
                          targetCardNum) 0 ;;
          Ret (created, None)
      | _ => Ret (0, None)
      end
  end.

Definition migrateStepStep (targetClient targetCardNum : str)
    (created : Z) (step : json) : Prog Z :=
  match step with
  | JObject stepMap =>
      let content := getStringField stepMap (lit "content") in
      if streq content [] then Ret created
      else
        let completed := getBoolField stepMap (lit "completed") in
        let stepParams := [(lit "content", JString content)] in
        let stepParams :=
          if completed
          then stepParams ++ [(lit "completed", JBool true)]
          else stepParams in
        let reqBody := JObject [(lit "step", JObject stepParams)] in
        r <- call (Post targetClient
                    (cardPath targetCardNum (lit "/steps.json")) reqBody) ;;
        match r with
        | Failed err =>
            eprint (lit "      Warning: Failed to create step: "
                    ++ errorString err ++ [newline]) ;;;
            Ret created
        | Ok _ => Ret (created + 1)
        end
  | _ => Ret created
  end.

Definition migrateSteps (targetClient : str) (sourceCard : object)
    (targetCardNum : str) : Prog (Z * option error) :=
  match index sourceCard (lit "steps") with
  | JArray ((_ :: _) as steps) =>
      created <- forEach steps (migrateStepStep targetClient targetCardNum)
                   0 ;;
      Ret (created, None)
  | _ => Ret (0, None)
  end.

Definition migrateCardImage (g : globals)
    (sourceClient targetClient imageURL targetCardNum : str)
    : Prog (option error) :=
  let tempDir := osTempDir g in
  let tempFile :=
    filepathJoin g tempDir
      (lit "fizzy-migrate-image-" ++ targetCardNum ++ lit ".jpg") in
  (* [defer os.Remove(tempFile)] runs on every return below. *)
  d <- call (DownloadFile sourceClient imageURL tempFile) ;;
  match d with
  | Failed err =>
      call (Remove tempFile) ;;;
      Ret (Some (Errorf (lit "failed to download image: "
                         ++ errorString err)))
  | Ok _ =>
      u <- call (UploadFile targetClient tempFile) ;;
      match u with
      | Failed err =>
          call (Remove tempFile) ;;;
          Ret (Some (Errorf (lit "failed to upload image: "
                             ++ errorString err)))
      | Ok uploadResp =>
          match Data uploadResp with
          | JObject uploadData =>
              let signedID := getStringField uploadData (lit "signed_id") in
              if streq signedID [] then
                call (Remove tempFile) ;;;
                Ret (Some (Errorf (lit "no signed_id in upload response")))
              else
                let cardParams := [(lit "image", JString signedID)] in
                let body := JObject [(lit "card", JObject cardParams)] in
                p <- call (Patch targetClient
                            (cardPath targetCardNum (lit ".json")) body) ;;
                call (Remove tempFile) ;;;
                match p with
                | Failed err =>
                    Ret (Some (Errorf (lit "failed to set image on card: "
                                       ++ errorString err)))
                | Ok _ => Ret None
                end
          | _ =>
              call (Remove tempFile) ;;;
              Ret (Some (Errorf (lit "invalid upload response")))
          end
      end
  end.

(** [if err != nil { Fprintf(stderr, prefix + ": %v\n", err) }] *)
Definition warnIfError (prefix : str) (e : option error) : Prog unit :=
  match e with
  | Some err => eprint (prefix ++ errorString err ++ [newline])
  | None => Ret tt
  end.

(** The body of the card-creation request. *)
Definition cardRequestBody (targetBoardID title description createdAt : str)
    : json :=
  let cardParams := [(lit "title", JString title)] in
  let cardParams :=
    if negb (streq description [])
    then cardParams ++ [(lit "description", JString description)]
    else cardParams in
  let cardParams :=
    if negb (streq createdAt [])
    then cardParams ++ [(lit "created_at", JString createdAt)]
    else cardParams in
  JObject [(lit "board_id", JString targetBoardID);
           (lit "card", JObject cardParams)].

(** [resp.Data]'s card number, zero when there is none. *)
Definition numberOfData (d : json) : Z :=
  match d with
  | JObject data => getIntField data (lit "number")
  | _ => 0
  end.

Definition applyTagStep (targetClient newCardNumStr : str)
    (stats : migrationStats) (tag : json) : Prog migrationStats :=
  match tag with
  | JString tagName =>
      e <- applyTag targetClient newCardNumStr tagName ;;
      match e with
      | Some err =>
          eprint (lit "    Warning: Failed to apply tag "
                  ++ quoted tagName ++ lit ": " ++ errorString err
                  ++ [newline]) ;;;
          Ret stats
      | None => Ret (addTagsApplied stats 1)
      end
  | _ => Ret stats
  end.

(** Everything [migrateCard] does once the new card number is known. *)
Definition migrateCardSubSteps (g : globals) (sourceClient targetClient : str)
    (sourceCard : object) (columnMapping : gmap str str)
    (sourceCardNum newCardNum : Z) (stats : migrationStats)
    : Prog migrationStats :=
  let newCardNumStr := itoa newCardNum in
  (* Apply tags *)
  stats <-
    match index sourceCard (lit "tags") with
    | JArray tags =>
        forEach tags (applyTagStep targetClient newCardNumStr) stats
    | _ => Ret stats
    end ;;
  (* Move to correct column *)
  let sourceColumnID := getCardColumnID sourceCard in
  (if negb (streq sourceColumnID []) then
     match columnMapping !! sourceColumnID with
     | Some targetColumnID =>
         e <- moveToColumn targetClient newCardNumStr targetColumnID ;;
         warnIfError (lit "    Warning: Failed to move card to column: ") e
     | None => Ret tt
     end
   else Ret tt) ;;;
  (* Apply card state *)
  let status := getStringField sourceCard (lit "status") in
  let golden := getBoolField sourceCard (lit "golden") in
  (if streq status (lit "closed") then
     e <- closeCard targetClient newCardNumStr ;;
     warnIfError (lit "    Warning: Failed to close card: ") e
   else Ret tt) ;;;
  (if golden then
     e <- markGolden targetClient newCardNumStr ;;
     warnIfError (lit "    Warning: Failed to mark card as golden: ") e
   else Ret tt) ;;;
  (* Migrate comments if requested *)
  stats <-
    (if migrateBoardIncludeComments g then
       r <- migrateComments g sourceClient targetClient
              (itoa sourceCardNum) newCardNumStr ;;
       warnIfError (lit "    Warning: Failed to migrate comments: ")
         (snd r) ;;;
       Ret (addCommentsCreated stats (fst r))
     else Ret stats) ;;
  (* Migrate steps if requested *)
  stats <-
    (if migrateBoardIncludeSteps g then
       r <- migrateSteps targetClient sourceCard newCardNumStr ;;
       warnIfError (lit "    Warning: Failed to migrate steps: ") (snd r) ;;;
       Ret (addStepsCreated stats (fst r))
     else Ret stats) ;;
  (* Migrate card image if requested *)
  if migrateBoardIncludeImages g then
    let imageURL := getStringField sourceCard (lit "image_url") in
    if negb (streq imageURL []) then
      e <- migrateCardImage g sourceClient targetClient imageURL
             newCardNumStr ;;
      match e with
      | Some err =>
          eprint (lit "    Warning: Failed to migrate image: "
                  ++ errorString err ++ [newline]) ;;;
          Ret stats
      | None => Ret (addImagesMigrated stats 1)
      end
    else Ret stats
  else Ret stats.

(** The description [migrateCard] sends, with the statistics updated by
    the attachments migrated on the way. *)
Definition cardDescription (g : globals) (sourceClient targetClient : str)
    (sourceCard : object) (stats : migrationStats)
    : Prog (str * migrationStats) :=
  let description := getStringField sourceCard (lit "description") in
  let descriptionHTML := getStringField sourceCard (lit "description_html") in
  if migrateBoardIncludeImages g && negb (streq descriptionHTML []) then
    m <- migrateInlineAttachments g sourceClient targetClient
           descriptionHTML ;;
    let '(migratedDesc, attachmentCount, err) := m in
    warnIfError (lit "    Warning: Failed to migrate some inline attachments: ")
      err ;;;
    if 0 <? attachmentCount then
      Ret (migratedDesc, addImagesMigrated stats attachmentCount)
    else Ret (description, stats)
  else Ret (description, stats).

(** [migrateCard] returns the new card number and an error; the statistics
    it updates through its pointer are returned beside them. *)
Definition migrateCard (g : globals) (sourceClient targetClient : str)
    (sourceCard : object) (targetBoardID : str)
    (columnMapping : gmap str str) (stats : migrationStats)
    : Prog (migrationStats * (Z * option error)) :=
  let title := getStringField sourceCard (lit "title") in
  let createdAt := getStringField sourceCard (lit "created_at") in
  let sourceCardNum := getIntField sourceCard (lit "number") in
  d <- cardDescription g sourceClient targetClient sourceCard stats ;;
  let '(description, stats) := d in
  let body := cardRequestBody targetBoardID title description createdAt in
  r <- call (Post targetClient (lit "/cards.json") body) ;;
  match r with
  | Failed err => Ret (stats, (0, Some err))
  | Ok resp =>
      followed <- followCreated targetClient resp ;;
      let newCardNum :=
        match followed with
        | Some data => getIntField data (lit "number")
        | None => 0
        end in
      let newCardNum :=
        if newCardNum =? 0 then numberOfData (Data resp) else newCardNum in
      if newCardNum =? 0 then
        Ret (stats, (0, Some (NewError
                                (lit "Failed to get new card number"))))
      else
        stats <- migrateCardSubSteps g sourceClient targetClient sourceCard
                   columnMapping sourceCardNum newCardNum stats ;;
        Ret (stats, (newCardNum, None))
  end.

(** *** The whole run *)

(** How the command ends: [exitWithError], or one of the two payloads it
    hands to [printSuccess]. *)
Inductive outcome : Type :=
| ExitWithError (err : error)
| DryRun (board : str) (columns cards : Z) (from_account to_account : str)
| Migrated (stats : migrationStats).

Definition whenFlag (b : bool) (text : str) : Prog unit :=
  if b then eprint text else Ret tt.

Definition printDryRunSummary (g : globals) (boardName : str)
    (columns cards : list json) : Prog unit :=
  eprint ([newline] ++ lit "=== DRY RUN SUMMARY ===" ++ [newline]) ;;;
  eprint (lit "Would migrate board: " ++ boardName ++ [newline]) ;;;
  eprint (lit "Columns to create: " ++ itoa (countRealColumns columns)
          ++ [newline]) ;;;
  eprint (lit "Cards to migrate: " ++ itoa (Z.of_nat (length cards))
          ++ [newline]) ;;;
  whenFlag (migrateBoardIncludeComments g)
    (lit "Comments: will be included" ++ [newline]) ;;;
  whenFlag (migrateBoardIncludeSteps g)
    (lit "Steps: will be included" ++ [newline]) ;;;
  whenFlag (migrateBoardIncludeImages g)
    (lit "Images: will be included" ++ [newline]) ;;;
  eprint ([newline] ++ lit "No changes were made." ++ [newline]).

Definition printMigrationSummary (g : globals) (stats : migrationStats)
    : Prog unit :=
  eprint ([newline] ++ lit "=== MIGRATION COMPLETE ===" ++ [newline]) ;;;
  eprint (lit "Board created: " ++ targetBoardName stats ++ lit " (ID: "
          ++ targetBoardID stats ++ lit ")" ++ [newline]) ;;;
  eprint (lit "Columns created: " ++ itoa (columnsCreated stats)
          ++ [newline]) ;;;
  eprint (lit "Cards migrated: " ++ itoa (cardsCreated stats)
          ++ [newline]) ;;;
  eprint (lit "Tags applied: " ++ itoa (tagsApplied stats) ++ [newline]) ;;;
  whenFlag (migrateBoardIncludeComments g)
    (lit "Comments created: " ++ itoa (commentsCreated stats)
     ++ [newline]) ;;;
  whenFlag (migrateBoardIncludeSteps g)
    (lit "Steps created: " ++ itoa (stepsCreated stats) ++ [newline]) ;;;
  whenFlag (migrateBoardIncludeImages g)
    (lit "Images migrated: " ++ itoa (imagesMigrated stats)
     ++ [newline]) ;;;
  eprint ([newline]
          ++ lit "Note: Card creators and comment authors are now you (the migrating user)."
          ++ [newline]) ;;;
  eprint (lit "      User assignments were not migrated - reassign as needed."
          ++ [newline]).

(** One turn of the loop over the source cards. *)
Definition migrateCardStep (g : globals) (sourceClient targetClient : str)
    (total : nat) (targetBoardID : str) (columnMapping : gmap str str)
    (i : Z) (stats : migrationStats) (card : json) : Prog migrationStats :=
  match card with
  | JObject cardMap =>
      let sourceCardNum := getIntField cardMap (lit "number") in
      eprint (lit "  [" ++ itoa (i + 1) ++ lit "/"
              ++ itoa (Z.of_nat total) ++ lit "] Card #"
              ++ itoa sourceCardNum ++ lit ": "
              ++ getStringField cardMap (lit "title") ++ [newline]) ;;;
      r <- migrateCard g sourceClient targetClient cardMap targetBoardID
             columnMapping stats ;;
      match r with
      | (stats, (_, Some err)) =>
          eprint (lit "  Warning: Failed to migrate card #"
                  ++ itoa sourceCardNum ++ lit ": " ++ errorString err
                  ++ [newline]) ;;;
          Ret stats
      | (stats, (targetCardNum, None)) =>
          Ret (recordCard stats sourceCardNum targetCardNum)
      end
  | _ => Ret stats
  end.

(** Steps 6 and 7 of [runMigrateBoard]: the columns, then the cards. *)
Definition createColumns (targetClient targetBoardID : str)
    (sourceColumns : list json) (stats : migrationStats)
    : Prog (gmap str str * migrationStats) :=
  forEach sourceColumns (createColumnStep targetClient targetBoardID)
    (∅, stats).

Definition migrateCards (g : globals) (sourceClient targetClient : str)
    (targetBoardID : str) (columnMapping : gmap str str)
    (sourceCards : list json) (stats : migrationStats)
    : Prog migrationStats :=
  forEachIndexed 0 sourceCards
    (migrateCardStep g sourceClient targetClient (length sourceCards)
       targetBoardID columnMapping)
    stats.

Definition runMigrateBoard (g : globals) (sourceBoardID : str)
    : Prog outcome :=
  match requireAuth g with
  | Some err => Ret (ExitWithError err)
  | None =>
  if streq (migrateBoardFrom g) [] then
    Ret (ExitWithError (NewInvalidArgsError (lit "--from flag is required")))
  else if streq (migrateBoardTo g) [] then
    Ret (ExitWithError (NewInvalidArgsError (lit "--to flag is required")))
  else if streq (migrateBoardFrom g) (migrateBoardTo g) then
    Ret (ExitWithError (NewInvalidArgsError
      (lit "--from and --to accounts must be different")))
  else
  let stats := emptyStats in
  let sourceClient := migrateBoardFrom g in
  let targetClient := migrateBoardTo g in
  (* 1. Verify access to both accounts *)
  eprint (lit "Verifying access to accounts..." ++ [newline]) ;;;
  access <- verifyAccountAccess g (migrateBoardFrom g) (migrateBoardTo g) ;;
  match access with
  | Some err => Ret (ExitWithError err)
  | None =>
  (* 2. Get source board *)
  eprint (lit "Fetching source board..." ++ [newline]) ;;;
  board <- getBoard sourceClient sourceBoardID ;;
  match board with
  | (_, Some err) =>
      Ret (ExitWithError (NewError (lit "Failed to fetch source board: "
                                    ++ errorString err)))
  | (sourceBoard, None) =>
  let boardName := getStringField sourceBoard (lit "name") in
  eprint (lit "Source board: " ++ boardName ++ [newline]) ;;;
  (* 3. Get source columns *)
  eprint (lit "Fetching source columns..." ++ [newline]) ;;;
  columns <- getColumns sourceClient sourceBoardID ;;
  match columns with
  | (_, Some err) =>
      Ret (ExitWithError (NewError (lit "Failed to fetch source columns: "
                                    ++ errorString err)))
  | (sourceColumns, None) =>
  (* 4. Get all cards from source board *)
  eprint (lit "Fetching source cards..." ++ [newline]) ;;;
  cards <- getAllCards sourceClient sourceBoardID ;;
  match cards with
  | (_, Some err) =>
      Ret (ExitWithError (NewError (lit "Failed to fetch source cards: "
                                    ++ errorString err)))
  | (sourceCards, None) =>
  eprint (lit "Found " ++ itoa (Z.of_nat (length sourceCards))
          ++ lit " cards to migrate" ++ [newline]) ;;;
  (* Dry run: just show what would be done *)
  if migrateBoardDryRun g then
    printDryRunSummary g boardName sourceColumns sourceCards ;;;
    Ret (DryRun boardName (Z.of_nat (length sourceColumns))
           (Z.of_nat (length sourceCards))
           (migrateBoardFrom g) (migrateBoardTo g))
  else
  (* 5. Create target board *)
  eprint (lit "Creating target board..." ++ [newline]) ;;;
  created <- createBoard targetClient boardName ;;
  match created with
  | (_, Some err) =>
      Ret (ExitWithError (NewError (lit "Failed to create target board: "
                                    ++ errorString err)))
  | (targetBoardID, None) =>
  let stats := setBoard stats targetBoardID boardName in
  (* 6. Create columns in target (preserve order) *)
  eprint (lit "Creating columns..." ++ [newline]) ;;;
  cols <- createColumns targetClient targetBoardID sourceColumns stats ;;
  let '(columnMapping, stats) := cols in
  (* 7. Migrate cards *)
  eprint (lit "Migrating cards..." ++ [newline]) ;;;
  stats <- migrateCards g sourceClient targetClient targetBoardID
             columnMapping sourceCards stats ;;
  printMigrationSummary g stats ;;;
  Ret (Migrated stats)
  end end end end end
  end.

(** ** Pseudo columns by name

    [parsePseudoColumnID] reads its argument through [strings.TrimSpace]
    and [strings.ToLower]. Both are modelled on the bytes of the string:
    the white space of [TrimSpace] is the ASCII white space, and [ToLower]
    changes the letters [A] to [Z]. On a string of ASCII characters this is
    what the library does; the statements about arbitrary arguments are
    made for such strings. *)

Definition isASCII (s : str) : bool :=
  forallb (fun a => (N_of_ascii a <? 128)%N) s.

(** ['\t'], ['\n'], ['\v'], ['\f'], ['\r'] and [' ']. *)
Definition asciiSpace (a : ascii) : bool :=
  let n := N_of_ascii a in
  (((9 <=? n) && (n <=? 13)) || (n =? 32))%N.

Fixpoint trimLeft (s : str) : str :=
  match s with
  | a :: s' => if asciiSpace a then trimLeft s' else s
  | [] => []
  end.

(** [strings.TrimSpace] *)
Definition trimSpace (s : str) : str := rev (trimLeft (rev (trimLeft s))).

Definition lowerChar (a : ascii) : ascii :=
  let n := N_of_ascii a in
  if ((65 <=? n) && (n <=? 90))%N then ascii_of_N (n + 32) else a.

(** [strings.ToLower] *)
Definition toLower (s : str) : str := map lowerChar s.

(** A [case] of a [switch] on a string: the value is one of the listed
    ones. *)
Definition oneOf (s : str) (values : list string) : bool :=
  existsb (fun v => streq s (lit v)) values.

Definition parsePseudoColumnID (id : str) : option pseudoColumn :=
  let key := toLower (trimSpace id) in
  if oneOf key ["not-yet"; "not_yet"; "notyet"; "triage"]%string
  then Some pseudoColumnNotYet
  else if oneOf key ["maybe"; "maybe?"; "not-now"; "not_now";
                     "notnow"]%string
  then Some pseudoColumnMaybe
  else if oneOf key ["done"; "closed"; "close"]%string
  then Some pseudoColumnDone
  else None.

(** ** Output paths of downloads

    [path/filepath] as it behaves where the separator is [/] and paths
    have no volume name. *)

Definition isPathSeparator (a : ascii) : bool := bool_decide (a = "/"%char).

Fixpoint dropSeparators (s : str) : str :=
  match s with
  | a :: s' => if isPathSeparator a then dropSeparators s' else s
  | [] => []
  end.

Fixpoint untilSeparator (s : str) : str :=
  match s with
  | a :: s' => if isPathSeparator a then [] else a :: untilSeparator s'
  | [] => []
  end.

(** [filepath.Base]: the last element of the path, trailing separators
    removed; ["."] for the empty path and ["/"] for a path of separators
    only. The two loops of the library run from the end of the path, here
    from the start of the reversed path. *)
Definition filepathBase (path : str) : str :=
  if streq path [] then lit "."
  else
    let path := rev (untilSeparator (dropSeparators (rev path))) in
    if streq path [] then lit "/" else path.

(** The loop of [filepath.Ext], from the end of the path: [r] is the part
    of the reversed path still to read, [acc] the part read. *)
Fixpoint extFrom (r acc : str) : str :=
  match r with
  | [] => []
  | a :: r' =>
      if isPathSeparator a then []
      else if bool_decide (a = "."%char) then a :: acc
      else extFrom r' (a :: acc)
  end.

(** [filepath.Ext]: the suffix of the last element that starts at its last
    dot, empty when it has none. *)
Definition filepathExt (path : str) : str := extFrom (rev path) [].

(** [strings.TrimSuffix] *)
Definition trimSuffix (s suffix : str) : str :=
  if hasPrefix (rev s) (rev suffix)
  then take (length s - length suffix) s
  else s.

Definition buildOutputPath (outputFlag originalFilename : str)
    (index total : Z) : str :=
  let safeName := filepathBase originalFilename in
  if streq outputFlag [] then safeName
  else if total =? 1 then outputFlag
  else
    (* Use as prefix: prefix_1.ext *)
    let ext := filepathExt safeName in
    let prefix := trimSuffix outputFlag (filepathExt outputFlag) in
    prefix ++ lit "_" ++ itoa index ++ ext.

(** ** Attachments of comments *)

(** [CommentAttachment] embeds [Attachment]. *)
Record CommentAttachment : Type := {
  embedded : Attachment;
  CommentID : str
}.

(** The inner loop of [extractCommentAttachments]; the state is
    [allAttachments] and [globalIndex]. *)
Definition appendCommentAttachment (commentID : str)
    (st : list CommentAttachment * Z) (a : Attachment)
    : list CommentAttachment * Z :=
  let '(allAttachments, globalIndex) := st in
  let a := setIndex a globalIndex in
  (allAttachments ++ [{| embedded := a; CommentID := commentID |}],
   globalIndex + 1).

(** One turn of the outer loop. *)
Definition extractCommentStep (st : list CommentAttachment * Z) (c : json)
    : list CommentAttachment * Z :=
  match c with
  | JObject comment =>
      let commentID :=
        match index comment (lit "id") with JString v => v | _ => [] end in
      (* Comment body is an object with html and plain_text fields *)
      match index comment (lit "body") with
      | JObject bodyObj =>
          let bodyHTML :=
            match index bodyObj (lit "html") with
            | JString v => v
            | _ => []
            end in
          if streq bodyHTML [] then st
          else
            let attachments := parseAttachments bodyHTML in
            fold_left (appendCommentAttachment commentID) attachments st
      | _ => st
      end
  | _ => st
  end.

Definition extractCommentAttachments (comments : list json)
    : list CommentAttachment :=
  fst (fold_left extractCommentStep comments ([], 1)).

(** ** The commands [card attachments show] and [card attachments download]

    [requireAuthAndAccount], [getClient], [exitWithError] and
    [printSuccess] are outside the code under study. The outcome of
    [requireAuthAndAccount] and the account of the client are read like
    the flags; a command ends with the error handed to [exitWithError] or
    with the payload handed to [printSuccess]. *)

Record attachmentsGlobals : Type := {
  requireAuthAndAccount : option error;
  clientAccount : str;
  attachmentsShowIncludeComments : bool;
  attachmentDownloadOutput : str;
  attachmentsDownloadIncludeComments : bool
}.

(** The errors of the commands: those of the migration and
    [errors.NewNotFoundError]. *)
Inductive commandError : Type :=
| PlainError (err : error)
| NewNotFoundError (msg : str).

(** One entry of the [files] of the download payload. *)
Record downloadedFile : Type := {
  fileFilename : str;
  fileSavedTo : str;
  fileFilesize : Z
}.

Inductive attachmentsOutcome : Type :=
| ExitWith (err : commandError)
| ShowSuccess (attachments : list Attachment)
| DownloadSuccess (downloaded : Z) (files : list downloadedFile).

(** [ca.Attachment.Index = len(attachments) + 1;
     attachments = append(attachments, ca.Attachment)] *)
Definition appendReindexed (attachments : list Attachment)
    (ca : CommentAttachment) : list Attachment :=
  attachments
  ++ [setIndex (embedded ca) (Z.of_nat (length attachments) + 1)].

(** What both commands do first, each with its own flag: fetch the card,
    parse its description and, when the flag is set, add the attachments
    of its comments. A failure to list the comments is passed over. *)
Definition collectCardAttachments (g : attachmentsGlobals)
    (includeComments : bool) (cardNumber : str)
    : Prog (commandError + list Attachment) :=
  r <- call (Get (clientAccount g)
               (lit "/cards/" ++ cardNumber ++ lit ".json")) ;;
  match r with
  | Failed err => Ret (inl (PlainError err))
  | Ok resp =>
      match Data resp with
      | JObject cardData =>
          let descriptionHTML :=
            match index cardData (lit "description_html") with
            | JString v => v
            | _ => []
            end in
          let attachments := parseAttachments descriptionHTML in
          if includeComments then
            c <- call (GetWithPagination (clientAccount g)
                         (lit "/cards/" ++ cardNumber
                          ++ lit "/comments.json") true) ;;
            match c with
            | Ok commentsResp =>
                match Data commentsResp with
                | JArray comments =>
                    let commentAttachments :=
                      extractCommentAttachments comments in
                    (* Re-index and append *)
                    Ret (inr (fold_left appendReindexed commentAttachments
                                attachments))
                | _ => Ret (inr attachments)
                end
            | Failed _ => Ret (inr attachments)
            end
          else Ret (inr attachments)
      | _ => Ret (inl (PlainError (NewError (lit "Invalid card response"))))
      end
  end.

(** [attachmentsShowCmd.Run] with [args[0] = cardNumber]. *)
Definition attachmentsShowRun (g : attachmentsGlobals) (cardNumber : str)
    : Prog attachmentsOutcome :=
  match requireAuthAndAccount g with
  | Some err => Ret (ExitWith (PlainError err))
  | None =>
      c <- collectCardAttachments g (attachmentsShowIncludeComments g)
             cardNumber ;;
      match c with
      | inl err => Ret (ExitWith err)
      | inr attachments => Ret (ShowSuccess attachments)
      end
  end.

(** The download loop: the first failure ends the command. [i] is the loop
    index, [total] is [len(toDownload)]. *)
Fixpoint downloadFiles (g : attachmentsGlobals) (total : Z) (i : Z)
    (toDownload : list Attachment) (results : list downloadedFile)
    : Prog (commandError + list downloadedFile) :=
  match toDownload with
  | [] => Ret (inr results)
  | attachment :: rest =>
      let outputPath :=
        buildOutputPath (attachmentDownloadOutput g) (Filename attachment)
          (i + 1) total in
      d <- call (DownloadFile (clientAccount g) (DownloadURL attachment)
                   outputPath) ;;
      match d with
      | Failed err => Ret (inl (PlainError err))
      | Ok _ =>
          downloadFiles g total (i + 1) rest
            (results ++ [{| fileFilename := Filename attachment;
                            fileSavedTo := outputPath;
                            fileFilesize := Filesize attachment |}])
      end
  end.

(** [attachmentsDownloadCmd.Run]; [args] is the card number and, when
    given, the attachment index. *)
Definition attachmentsDownloadRun (g : attachmentsGlobals)
    (cardNumber : str) (indexArg : option str) : Prog attachmentsOutcome :=
  match requireAuthAndAccount g with
  | Some err => Ret (ExitWith (PlainError err))
  | None =>
      c <- collectCardAttachments g (attachmentsDownloadIncludeComments g)
             cardNumber ;;
      match c with
      | inl err => Ret (ExitWith err)
      | inr attachments =>
          if (length attachments =? 0)%nat then
            Ret (ExitWith (NewNotFoundError
                             (lit "No attachments found on this card")))
          else
            (* Determine which attachments to download *)
            let selected : commandError + list Attachment :=
              match indexArg with
              | Some arg =>
                  match parseInt arg with
                  | None =>
                      inl (PlainError (NewInvalidArgsError
                             (lit "attachment index must be a number")))
                  | Some attachmentIndex =>
                      if (attachmentIndex <? 1)
                         || (Z.of_nat (length attachments) <? attachmentIndex)
                      then
                        inl (PlainError (NewInvalidArgsError
                               (lit "attachment index must be between 1 and "
                                ++ itoa (Z.of_nat (length attachments)))))
                      else
                        match attachments
                              !! Z.to_nat (attachmentIndex - 1) with
                        | Some a => inr [a]
                        | None => inr []
                        end
                  end
              | None => inr attachments
              end in
            match selected with
            | inl err => Ret (ExitWith err)
            | inr toDownload =>
                (* Download the files *)
                f <- downloadFiles g (Z.of_nat (length toDownload)) 0
                       toDownload [] ;;
                match f with
                | inl err => Ret (ExitWith err)
                | inr results =>
                    Ret (DownloadSuccess (Z.of_nat (length results)) results)
                end
            end
      end
  end.

(** * Vocabulary of the statements *)

(** [sub] occurs in [s]. *)
Definition occursIn (sub s : str) : Prop :=
  exists pre post, s = pre ++ sub ++ post.

(** [strings.Contains], the decidable form of [occursIn]. *)
Fixpoint contains (s sub : str) : bool :=
  hasPrefix s sub
  || match s with
     | [] => false
     | _ :: s' => contains s' sub
     end.

Definition resultOf {A W : Type} (x : A * W * trace) : A := x.1.1.
Definition worldOf {A W : Type} (x : A * W * trace) : W := x.1.2.
Definition traceOf {A W : Type} (x : A * W * trace) : trace := x.2.

(** The identity response lists account [a]: some entry's slug is [a], bare
    or behind one leading slash. *)
Definition listsAccount (accounts : list json) (a : str) : Prop :=
  exists accMap,
    In (JObject accMap) accounts /\
    (getStringField accMap (lit "slug") = a \/
     getStringField accMap (lit "slug") = "/"%char :: a).

(** What a pattern may match, leaving priorities aside: [Matches r s c s1
    c1] when [r] matches a prefix of [s], leaves [s1] unread and extends the
    captured groups [c] to [c1]. *)
Inductive Matches : regex -> str -> captures -> str -> captures -> Prop :=
| M_Eps s c : Matches Eps s c s c
| M_Lit l s c : Matches (Lit l) (l ++ s) c s c
| M_Class p a s c : p a = true -> Matches (Class p) (a :: s) c s c
| M_Seq r1 r2 s c s1 c1 s2 c2 :
    Matches r1 s c s1 c1 -> Matches r2 s1 c1 s2 c2 ->
    Matches (Seq r1 r2) s c s2 c2
| M_Star p greedy l s c :
    Forall (fun a => p a = true) l -> Matches (Star p greedy) (l ++ s) c s c
| M_Group n r s c s1 c1 :
    Matches r s c s1 c1 ->
    Matches (Group n r) s c s1 ((n, take (length s - length s1) s) :: c1).


(** An entry the parser keeps. *)
Definition kept (a : Attachment) : bool := negb (dropped a).

(** An attachment element as the parser's pattern delimits it: the opening
    tag name, white space, the attribute text, [>], the inner content and
    the closing tag. *)
Record element : Type := {
  elemSpace : str;
  elemAttrs : str;
  elemContent : str
}.

Definition renderElement (e : element) : str :=
  openTag ++ elemSpace e ++ elemAttrs e ++ lit ">" ++ elemContent e
  ++ closeTag.



(** A fragment: elements in document order, each followed by plain text. *)
Fixpoint renderElements (es : list (element * str)) : str :=
  match es with
  | [] => []
  | (e, gap) :: es' => renderElement e ++ gap ++ renderElements es'
  end.



(** [content] holds, right after [pre], a link [href=Q url Q]. *)
Definition anchorAt (content pre url : str) : Prop :=
  exists rest,
    content = pre ++ hrefOpen ++ url ++ dquote :: rest /\ ~ In dquote url.

(** The link ends in [?disposition=attachment], after a path. *)
Definition endsInDisposition (url : str) : Prop :=
  exists path, path <> [] /\ url = path ++ dispositionQuery.

(** The link is a storage-blob redirect path. *)
Definition isBlobPath (url : str) : Prop :=
  exists account blob,
    account <> [] /\ blob <> [] /\
    url = "/"%char :: account ++ blobRedirect ++ blob.

(** [url] is the first link of [content] with property [P]. *)
Definition firstAnchor (P : str -> Prop) (content pre url : str) : Prop :=
  anchorAt content pre url /\ P url /\
  forall pre' url',
    anchorAt content pre' url' -> P url' -> (length pre <= length pre')%nat.

(** [t] is [s] with one occurrence of [old], the first one, replaced by
    [new]; every character outside that occurrence is the same. *)
Definition substitutedOnce (old new s t : str) : Prop :=
  exists pre post,
    s = pre ++ old ++ post /\ t = pre ++ new ++ post /\
    forall pre' post',
      s = pre' ++ old ++ post' -> (length pre <= length pre')%nat.

(** [t] comes from [s] by the substitutions [steps], one after the other. *)
Inductive substitutions : list (str * str) -> str -> str -> Prop :=
| subs_nil s : substitutions [] s s
| subs_cons old new steps s s' t :
    substitutedOnce old new s s' -> substitutions steps s' t ->
    substitutions ((old, new) :: steps) s t.

(** The sgid an upload response offers: [attachable_sgid], or [signed_id]
    when that is absent. *)
Definition uploadedSGID (resp : APIResponse) : str :=
  match Data resp with
  | JObject uploadData =>
      let newSGID := getStringField uploadData (lit "attachable_sgid") in
      if streq newSGID [] then getStringField uploadData (lit "signed_id")
      else newSGID
  | _ => []
  end.

(** The temporary file of an inline attachment. *)
Definition attachmentTempFile (g : globals) (a : Attachment) : str :=
  filepathJoin g (osTempDir g)
    (lit "fizzy-migrate-attachment-" ++ itoa (Index a) ++ lit "-"
     ++ Filename a).

(** The sgid [v] was read from [e]: it holds no quote and, unless it is
    empty, it stands in [e] between two quotes. *)
Definition sgidIn (v e : str) : Prop :=
  ~ In dquote v /\ (v = [] \/ occursIn (dquote :: v ++ [dquote]) e).

(** The sgid of each attachment of the list was read from a part of [s] of
    its own, the parts following each other in the order of the list. *)
Inductive located : list Attachment -> str -> Prop :=
| located_nil s : located [] s
| located_cons a l x e rest :
    sgidIn (SGID a) e -> located l rest ->
    located (a :: l) (x ++ e ++ rest).

(** The matches of [r] lie in [s] one after the other. *)
Inductive matchedIn (r : regex) : list captures -> str -> Prop :=
| matchedIn_nil s : matchedIn r [] s
| matchedIn_cons c ms x e rest :
    matchAt r (e ++ rest) = Some (c, rest) -> matchedIn r ms rest ->
    matchedIn r (c :: ms) (x ++ e ++ rest).

(** The description a card-creation request carries; [JNull] when it
    carries none. *)
Definition sentDescription (body : json) : json :=
  match body with
  | JObject b =>
      match index b (lit "card") with
      | JObject cardParams => index cardParams (lit "description")
      | _ => JNull
      end
  | _ => JNull
  end.

(** The transfer of the reference [a], attempted in state [w], fails: the
    download is refused, or the upload that follows it is. *)
Definition transferFails {W : Type} (h : W -> request -> W * reply) (w : W)
    (g : globals) (src tgt : str) (a : Attachment) : Prop :=
  (exists w1 err,
     h w (DownloadFile src (DownloadURL a) (attachmentTempFile g a))
       = (w1, Failed err))
  \/ (exists w1 w2 dresp err,
        h w (DownloadFile src (DownloadURL a) (attachmentTempFile g a))
          = (w1, Ok dresp)
        /\ h w1 (UploadFile tgt (attachmentTempFile g a))
           = (w2, Failed err)).

(** Every request the program can issue, whatever it is answered, has the
    property [P]. *)
Inductive AllCalls (P : request -> Prop) {A : Type} : Prog A -> Prop :=
| AllCalls_Ret a : AllCalls P (Ret a)
| AllCalls_Call r k :
    P r -> (forall x, AllCalls P (k x)) -> AllCalls P (Call r k).

(** Every result the program can return, whatever its calls are answered,
    has the property [Q]. *)
Inductive Returns {A : Type} (Q : A -> Prop) : Prog A -> Prop :=
| Returns_Ret a : Q a -> Returns Q (Ret a)
| Returns_Call r k : (forall x, Returns Q (k x)) -> Returns Q (Call r k).

(** The state, the outside and the element at the start of each turn of a
    loop. *)
Fixpoint turns {W X S : Type} (h : W -> request -> W * reply) (w : W)
    (xs : list X) (body : S -> X -> Prog S) (s : S) : list (S * W * X) :=
  match xs with
  | [] => []
  | x :: xs' =>
      (s, w, x)
      :: turns h (worldOf (run h w (body s x))) xs' body
           (resultOf (run h w (body s x)))
  end.

Fixpoint turnsIndexed {W X S : Type} (h : W -> request -> W * reply) (w : W)
    (i : Z) (xs : list X) (body : Z -> S -> X -> Prog S) (s : S)
    : list (S * W * X) :=
  match xs with
  | [] => []
  | x :: xs' =>
      (s, w, x)
      :: turnsIndexed h (worldOf (run h w (body i s x))) (i + 1) xs' body
           (resultOf (run h w (body i s x)))
  end.

(** What the creation of a card gives, from the reply to the card-creation
    request and to the request that follows its location: the new card
    number, or an error. *)
Definition creationOutcome {W : Type} (h : W -> request -> W * reply)
    (w : W) (tgt : str) (body : json) : Z * option error :=
  match h w (Post tgt (lit "/cards.json") body) with
  | (_, Failed err) => (0, Some err)
  | (w1, Ok resp) =>
      let n :=
        match resultOf (run h w1 (followCreated tgt resp)) with
        | Some data => getIntField data (lit "number")
        | None => 0
        end in
      let n := if n =? 0 then numberOfData (Data resp) else n in
      if n =? 0
      then (0, Some (NewError (lit "Failed to get new card number")))
      else (n, None)
  end.

(** The source number of the card of a turn and the outcome of its
    creation, which follows the calls made for its description. *)
Definition cardOutcome {W : Type} (h : W -> request -> W * reply)
    (g : globals) (src tgt board : str)
    (turn : migrationStats * W * json) : option (Z * (Z * option error)) :=
  match turn with
  | (stats, w, JObject cardMap) =>
      let rd := run h w (cardDescription g src tgt cardMap stats) in
      Some (getIntField cardMap (lit "number"),
            creationOutcome h (worldOf rd) tgt
              (cardRequestBody board (getStringField cardMap (lit "title"))
                 (resultOf rd).1
                 (getStringField cardMap (lit "created_at"))))
  | _ => None
  end.

(** The pair of identities of a resource that was created: in the source
    and in the target. *)
Definition createdPair {K V : Type} (o : K * (V * option error))
    : option (K * V) :=
  match o with
  | (source, (target, None)) => Some (source, target)
  | _ => None
  end.

(** The cards a run of the card loop creates, in order: source number and
    new number. *)
Definition createdCards {W : Type} (h : W -> request -> W * reply) (w : W)
    (g : globals) (src tgt board : str) (mapping : gmap str str)
    (cards : list json) (stats : migrationStats) : list (Z * Z) :=
  omap createdPair
    (omap (cardOutcome h g src tgt board)
       (turnsIndexed h w 0 cards
          (migrateCardStep g src tgt (length cards) board mapping) stats)).

(** The source numbers of the cards of a list. *)
Definition sourceNumbers (cards : list json) : list Z :=
  omap (fun card =>
          match card with
          | JObject cardMap => Some (getIntField cardMap (lit "number"))
          | _ => None
          end) cards.

(** [m[source] = target] for each pair in turn. *)
Definition recordPairs {K V : Type} `{Countable K} (m : gmap K V)
    (pairs : list (K * V)) : gmap K V :=
  fold_left (fun m p => <[p.1 := p.2]> m) pairs m.

(** The statistics [s'] have the card mapping and the card count of
    [s]. *)
Definition keepsCards (s s' : migrationStats) : Prop :=
  cardMapping s' = cardMapping s /\ cardsCreated s' = cardsCreated s.

(** *** The stages of a run

    Each stage starts in the outside the stage before left behind. *)
Section Stages.
Context {W : Type} (h : W -> request -> W * reply) (w : W) (g : globals)
  (sourceBoardID : str).

Definition accessStage : option error * W * trace :=
  run h w (verifyAccountAccess g (migrateBoardFrom g) (migrateBoardTo g)).

Definition boardStage : object * option error * W * trace :=
  run h (worldOf accessStage) (getBoard (migrateBoardFrom g) sourceBoardID).

Definition columnsStage : list json * option error * W * trace :=
  run h (worldOf boardStage) (getColumns (migrateBoardFrom g) sourceBoardID).

Definition cardsStage : list json * option error * W * trace :=
  run h (worldOf columnsStage)
    (getAllCards (migrateBoardFrom g) sourceBoardID).

Definition sourceBoardName : str :=
  getStringField (resultOf boardStage).1 (lit "name").

Definition createBoardStage : str * option error * W * trace :=
  run h (worldOf cardsStage) (createBoard (migrateBoardTo g) sourceBoardName).

Definition createColumnsStage
    : gmap str str * migrationStats * W * trace :=
  run h (worldOf createBoardStage)
    (createColumns (migrateBoardTo g) (resultOf createBoardStage).1
       (resultOf columnsStage).1
       (setBoard emptyStats (resultOf createBoardStage).1 sourceBoardName)).

Definition migrateCardsStage : migrationStats * W * trace :=
  run h (worldOf createColumnsStage)
    (migrateCards g (migrateBoardFrom g) (migrateBoardTo g)
       (resultOf createBoardStage).1 (resultOf createColumnsStage).1
       (resultOf cardsStage).1 (resultOf createColumnsStage).2).

(** The cards the run creates, in order: source number and new number. *)
Definition createdInRun : list (Z * Z) :=
  createdCards h (worldOf createColumnsStage) g (migrateBoardFrom g)
    (migrateBoardTo g) (resultOf createBoardStage).1
    (resultOf createColumnsStage).1 (resultOf cardsStage).1
    (resultOf createColumnsStage).2.

End Stages.

(** The invocation passes the checks made before the run starts: the user
    is authenticated and both account flags are set and differ. *)
Definition validInvocation (g : globals) : bool :=
  match requireAuth g with Some _ => false | None => true end
  && negb (streq (migrateBoardFrom g) [])
  && negb (streq (migrateBoardTo g) [])
  && negb (streq (migrateBoardFrom g) (migrateBoardTo g)).

(** A request that only reads from a server, or prints. *)
Definition readOnly (r : request) : bool :=
  match r with
  | Get _ _ | GetWithPagination _ _ _ | Stderr _ => true
  | _ => false
  end.

(** A column that is created in the target: an object that neither of the
    two tests on pseudo columns skips. *)
Definition realColumn (col : json) : bool :=
  match col with
  | JObject colMap => negb (skippedAsPseudo colMap)
  | _ => false
  end.

(** The four reads of a run, in order. *)
Definition discoveryCalls (g : globals) (sourceBoardID : str)
    : list request :=
  [ Get [] (cfgAPIURL g ++ lit "/my/identity.json");
    Get (migrateBoardFrom g) (lit "/boards/" ++ sourceBoardID ++ lit ".json");
    Get (migrateBoardFrom g)
      (lit "/boards/" ++ sourceBoardID ++ lit "/columns.json");
    GetWithPagination (migrateBoardFrom g)
      (lit "/cards.json?board_ids[]=" ++ sourceBoardID) true ].

(** [strings.HasSuffix] *)
Definition hasSuffix (s suffix : str) : bool :=
  hasPrefix (rev s) (rev suffix).

(** A request that places a card in a column, or the warning printed when
    that request fails. *)
Definition placement (r : request) : bool :=
  match r with
  | Post _ path _ => hasSuffix path (lit "/triage.json")
  | Stderr text =>
      hasPrefix text (lit "    Warning: Failed to move card to column")
  | _ => false
  end.

(** For a turn of the column loop that creates a column: the source
    identity of the column and what [createColumn] returns. *)
Definition columnOutcome {W : Type} (h : W -> request -> W * reply)
    (tgt board : str) (turn : gmap str str * migrationStats * W * json)
    : option (str * (str * option error)) :=
  match turn with
  | (_, w, JObject colMap) =>
      if skippedAsPseudo colMap then None
      else
        Some (getStringField colMap (lit "id"),
              resultOf (run h w
                          (createColumn tgt board
                             (getStringField colMap (lit "name"))
                             (getStringField colMap (lit "color")))))
  | _ => None
  end.

(** The columns a run of the column loop creates, in order: source
    identity and new identity. *)
Definition createdColumns {W : Type} (h : W -> request -> W * reply) (w : W)
    (tgt board : str) (columns : list json)
    (st : gmap str str * migrationStats) : list (str * str) :=
  omap createdPair
    (omap (columnOutcome h tgt board)
       (turns h w columns (createColumnStep tgt board) st)).

(** The columns the run creates. *)
Definition columnsCreatedInRun {W : Type} (h : W -> request -> W * reply)
    (w : W) (g : globals) (sourceBoardID : str) : list (str * str) :=
  createdColumns h (worldOf (createBoardStage h w g sourceBoardID))
    (migrateBoardTo g) (resultOf (createBoardStage h w g sourceBoardID)).1
    (resultOf (columnsStage h w g sourceBoardID)).1
    (∅, setBoard emptyStats
          (resultOf (createBoardStage h w g sourceBoardID)).1
          (sourceBoardName h w g sourceBoardID)).

(** One of the five stages that end a run when they fail did fail. *)
Definition stageFailed {W : Type} (h : W -> request -> W * reply) (w : W)
    (g : globals) (sourceBoardID : str) : Prop :=
  resultOf (accessStage h w g) <> None
  \/ (resultOf (boardStage h w g sourceBoardID)).2 <> None
  \/ (resultOf (columnsStage h w g sourceBoardID)).2 <> None
  \/ (resultOf (cardsStage h w g sourceBoardID)).2 <> None
  \/ (resultOf (createBoardStage h w g sourceBoardID)).2 <> None.

(** * Vocabulary of the further properties *)

(** The account a client call is addressed to. *)
Definition accountOf (r : request) : option str :=
  match r with
  | Get a _ | GetWithPagination a _ _ | Post a _ _ | Patch a _ _
  | FollowLocation a _ | DownloadFile a _ _ | UploadFile a _ => Some a
  | Remove _ | Stderr _ => None
  end.

(** The local files written and not removed again, after the request [r]
    when they were [left] before it. *)
Definition fileStep (r : request) (left : list str) : list str :=
  match r with
  | DownloadFile _ _ dest => dest :: left
  | Remove path => List.filter (fun f => negb (streq f path)) left
  | _ => left
  end.

Definition tempFilesLeft (t : list request) : list str :=
  fold_left (fun left r => fileStep r left) t [].

(** Whatever its calls are answered, the program started with the files
    [left] ends with the files [left']. *)
Inductive Leaves {A : Type} : list str -> Prog A -> list str -> Prop :=
| Leaves_Ret a left : Leaves left (Ret a) left
| Leaves_Call r k left left' :
    (forall x, Leaves (fileStep r left) (k x) left') ->
    Leaves left (Call r k) left'.

(** The requests of the program that [sel] picks out are, in order and
    whatever the calls are answered, the elements of [l]. *)
Inductive Emits {A B : Type} (sel : request -> option B)
    : Prog A -> list B -> Prop :=
| Emits_Ret a : Emits sel (Ret a) []
| Emits_Call r k l :
    (forall x, Emits sel (k x) l) ->
    Emits sel (Call r k) (option_list (sel r) ++ l).

(** With a count of [n] so far, every way through the program ends with a
    result and a count that [Q] holds of; [f] is what a call and its
    answer add to the count. *)
Inductive Tally {A : Type} (f : request -> reply -> Z)
    (Q : A -> Z -> Prop) : Z -> Prog A -> Prop :=
| Tally_Ret a n : Q a n -> Tally f Q n (Ret a)
| Tally_Call r k n :
    (forall x, Tally f Q (n + f r x) (k x)) -> Tally f Q n (Call r k).

(** The count of a trace. *)
Definition tally (f : request -> reply -> Z) (t : trace) : Z :=
  fold_left (fun n x => n + f x.1 x.2) t 0.

Definition isOk (x : reply) : bool :=
  match x with Ok _ => true | Failed _ => false end.

(** One for a [POST] to a path that ends in [suffix] and succeeds. *)
Definition okPost (suffix : str) (r : request) (x : reply) : Z :=
  match r with
  | Post _ path _ => if hasSuffix path suffix && isOk x then 1 else 0
  | _ => 0
  end.

(** The [POST]s among the requests. *)
Definition posts (r : request) : option request :=
  match r with
  | Post _ _ _ => Some r
  | _ => None
  end.

(** The request that creates the column [col] in the target, if [col] is
    a real column. *)
Definition columnCreation (tgt board : str) (col : json) : option request :=
  match col with
  | JObject colMap =>
      if skippedAsPseudo colMap then None
      else
        let name := getStringField colMap (lit "name") in
        let color := getStringField colMap (lit "color") in
        Some (Post tgt (lit "/boards/" ++ board ++ lit "/columns.json")
                (JObject
                   [(lit "column",
                     JObject ((lit "name", JString name)
                              :: if streq color [] then []
                                 else [(lit "color", JString color)]))]))
  | _ => None
  end.

(** The request that creates the step [step] on the card [cardNum], if
    [step] is an object with a content. *)
Definition stepCreation (tgt cardNum : str) (step : json) : option request :=
  match step with
  | JObject stepMap =>
      let content := getStringField stepMap (lit "content") in
      if streq content [] then None
      else
        Some (Post tgt (lit "/cards/" ++ cardNum ++ lit "/steps.json")
                (JObject
                   [(lit "step",
                     JObject ((lit "content", JString content)
                              :: if getBoolField stepMap (lit "completed")
                                 then [(lit "completed", JBool true)]
                                 else []))]))
  | _ => None
  end.

(** The title a card-creation request carries. *)
Definition createdTitle (r : request) : option str :=
  match r with
  | Post _ path (JObject fields) =>
      if streq path (lit "/cards.json") then
        match index fields (lit "card") with
        | JObject cardParams => Some (getStringField cardParams (lit "title"))
        | _ => None
        end
      else None
  | _ => None
  end.

(** The title of a source card. *)
Definition sourceTitle (card : json) : option str :=
  match card with
  | JObject cardMap => Some (getStringField cardMap (lit "title"))
  | _ => None
  end.

(** The steps a source card carries. *)
Definition stepsOf (card : object) : list json :=
  match index card (lit "steps") with
  | JArray steps => steps
  | _ => []
  end.

(** One for an upload that succeeds. *)
Definition okUpload (r : request) (x : reply) : Z :=
  match r with
  | UploadFile _ _ => if isOk x then 1 else 0
  | _ => 0
  end.

(** One for each download. *)
Definition download (r : request) (x : reply) : Z :=
  match r with
  | DownloadFile _ _ _ => 1
  | _ => 0
  end.

(** The entry has a download link. *)
Definition hasDownloadURL (a : Attachment) : bool :=
  negb (streq (DownloadURL a) []).

(** The statistics [s'] say of the target board and of its columns what
    [s] says. *)
Definition keepsBoard (s s' : migrationStats) : Prop :=
  boardCreated s' = boardCreated s /\ targetBoardID s' = targetBoardID s /\
  targetBoardName s' = targetBoardName s /\
  columnsCreated s' = columnsCreated s.

(** The HTML body of a comment and its identity, empty when the comment
    has none. *)
Definition commentHTML (c : json) : str :=
  match c with
  | JObject comment =>
      match index comment (lit "body") with
      | JObject bodyObj =>
          match index bodyObj (lit "html") with
          | JString v => v
          | _ => []
          end
      | _ => []
      end
  | _ => []
  end.

Definition commentIDOf (c : json) : str :=
  match c with
  | JObject comment =>
      match index comment (lit "id") with
      | JString v => v
      | _ => []
      end
  | _ => []
  end.

(** The entries are numbered from [first] in the order of the list. *)
Definition numberedFrom (first : Z) (l : list Attachment) : Prop :=
  forall i a, l !! i = Some a -> Index a = first + Z.of_nat i.

(** The entry without its number. *)
Definition unnumbered (a : Attachment) : Attachment := setIndex a 0.

(** The download of each attachment of the list and the entry it adds to
    the payload, with [i] as the index of the first one. *)
Fixpoint downloadPlan (g : attachmentsGlobals) (total i : Z)
    (toDownload : list Attachment) : list (request * downloadedFile) :=
  match toDownload with
  | [] => []
  | a :: rest =>
      let path :=
        buildOutputPath (attachmentDownloadOutput g) (Filename a) (i + 1)
          total in
      (DownloadFile (clientAccount g) (DownloadURL a) path,
       {| fileFilename := Filename a; fileSavedTo := path;
          fileFilesize := Filesize a |})
      :: downloadPlan g total (i + 1) rest
  end.

(** The request that fetches a card. *)
Definition cardRequest (g : attachmentsGlobals) (cardNumber : str)
    : request :=
  Get (clientAccount g) (lit "/cards/" ++ cardNumber ++ lit ".json").

(** The requests that replicate a card's tags, column and state: a [POST]
    of a tagging, a placement, a closure or a goldness. *)
Definition replication (r : request) : option request :=
  match r with
  | Post _ path _ =>
      if hasSuffix path (lit "/taggings.json")
         || hasSuffix path (lit "/triage.json")
         || hasSuffix path (lit "/closure.json")
         || hasSuffix path (lit "/goldness.json")
      then Some r else None
  | _ => None
  end.

Definition tagsOf (card : object) : list json :=
  match index card (lit "tags") with
  | JArray tags => tags
  | _ => []
  end.

Definition taggingOf (tgt num : str) (tag : json) : option request :=
  match tag with
  | JString tagName =>
      Some (Post tgt (cardPath num (lit "/taggings.json"))
              (JObject [(lit "tag_title", JString tagName)]))
  | _ => None
  end.

(** What replicates the card [card] as the card with the number [num]:
    its tags in order, its column when the source column has an entry in
    the column mapping, its closure when it is closed and its goldness
    when it is golden. *)
Definition replicationPlan (tgt : str) (card : object)
    (mapping : gmap str str) (num : str) : list request :=
  omap (taggingOf tgt num) (tagsOf card)
  ++ match mapping !! getCardColumnID card with
     | Some targetColumnID =>
         if streq (getCardColumnID card) [] then []
         else [Post tgt (cardPath num (lit "/triage.json"))
                 (JObject [(lit "column_id", JString targetColumnID)])]
     | None => []
     end
  ++ (if streq (getStringField card (lit "status")) (lit "closed")
      then [Post tgt (cardPath num (lit "/closure.json")) JNull] else [])
  ++ (if getBoolField card (lit "golden")
      then [Post tgt (cardPath num (lit "/goldness.json")) JNull] else []).

(** The three counters of the statistics that count requests of one
    kind, with the path suffix of the requests each one counts. *)
Inductive counter : Type := Tags | Comments | Steps.

Definition counterSuffix (c : counter) : str :=
  match c with
  | Tags => lit "/taggings.json"
  | Comments => lit "/comments.json"
  | Steps => lit "/steps.json"
  end.

Definition counterOf (c : counter) (s : migrationStats) : Z :=
  match c with
  | Tags => tagsApplied s
  | Comments => commentsCreated s
  | Steps => stepsCreated s
  end.

(** * Fixtures for the examples *)

(** A configuration: both flags set, nothing optional switched on. *)
Definition plainGlobals : globals :=
  {| cfgAPIURL := lit "https://fizzy.example";
     requireAuth := None;
     migrateBoardFrom := lit "acme";
     migrateBoardTo := lit "beta";
     migrateBoardIncludeComments := false;
     migrateBoardIncludeSteps := false;
     migrateBoardIncludeImages := false;
     migrateBoardDryRun := false;
     osTempDir := lit "/tmp";
     filepathJoin := fun dir name => dir ++ lit "/" ++ name |}.

Definition accountEntry (slug : string) : json :=
  JObject [(lit "name", JString (lit "An account"));
           (lit "slug", JString (lit slug))].

Definition identityResponse (accounts : list json) : APIResponse :=
  {| Data := JObject [(lit "accounts", JArray accounts)]; Location := [] |}.

(** An outside without state that answers every call with the identity of
    a user who can reach [accounts]. *)
Definition identityOnly (accounts : list json) (w : unit) (r : request)
    : unit * reply :=
  (w, Ok (identityResponse accounts)).

(** A fragment with three elements: an image with a download link over
    several lines, a mention (no file name, no link) and a file with a bare
    blob link. *)
Definition imageElement : element :=
  {| elemSpace := lit " ";
     elemAttrs := markup "sgid='sgid1' content-type='image/png' filename='screenshot.png' filesize='5000' width='800' height='600'";
     elemContent :=
       [newline]
       ++ markup "  <a href='/blobs/blob1/screenshot.png?disposition=attachment'>Download</a>"
       ++ [newline] |}.

Definition mentionElement : element :=
  {| elemSpace := lit " ";
     elemAttrs := markup "sgid='m1' content-type='application/vnd.actiontext.mention'";
     elemContent := markup "<span>@kim</span>" |}.

Definition fileElement : element :=
  {| elemSpace := [newline] ++ lit "  ";
     elemAttrs := markup "sgid='sgid3' filename='notes.pdf'";
     elemContent :=
       markup "<a href='/6086023/rails/active_storage/blobs/redirect/abc/notes.pdf'>notes.pdf</a>" |}.

Definition sampleLead : str := markup "<p>See the files:</p>".

Definition sampleElements : list (element * str) :=
  [(imageElement, markup "<p>and</p>");
   (mentionElement, []);
   (fileElement, markup "<p>bye</p>")].

(** A source board: two real columns between two pseudo lanes, and three
    cards. *)
Definition sampleColumns : list json :=
  [ JObject [(lit "id", JString (lit "c-backlog"));
             (lit "name", JString (lit "Backlog"));
             (lit "color", JString (lit "blue"));
             (lit "kind", JString (lit "real"))];
    JObject [(lit "id", JString (lit "c-notnow"));
             (lit "name", JString (lit "Not Now"));
             (lit "kind", JString (lit "pseudo"));
             (lit "pseudo", JBool true)];
    JObject [(lit "id", JString (lit "c-progress"));
             (lit "name", JString (lit "In Progress"));
             (lit "kind", JString (lit "real"))];
    JObject [(lit "id", JString (lit "c-done"));
             (lit "name", JString (lit "Done"));
             (lit "pseudo", JBool true)] ].

Definition sampleCards : list json :=
  [ JObject [(lit "number", JFloat 11 1);
             (lit "title", JString (lit "Write the report"));
             (lit "description", JString (lit "Quarterly"));
             (lit "tags", JArray [JString (lit "ops")]);
             (lit "column_id", JString (lit "c-backlog"));
             (lit "status", JString (lit "closed"))];
    JObject [(lit "number", JFloat 12 1);
             (lit "title", JString (lit "Call the vendor"));
             (lit "golden", JBool true);
             (lit "status", JString (lit "open"))];
    JObject [(lit "number", JFloat 13 1);
             (lit "title", JString (lit "Ship it"));
             (lit "column",
              JObject [(lit "id", JString (lit "c-progress"))]);
             (lit "status", JString (lit "open"))] ].

Definition okData (d : json) : reply := Ok {| Data := d; Location := [] |}.

(** A server for the examples. Its state counts the resources created so
    far, which numbers the new cards (from 101), columns and uploads; a
    request picked out by [fails] is refused. *)
Definition sampleServer (cards : list json) (fails : request -> bool)
    (n : Z) (r : request) : Z * reply :=
  if fails r then (n, Failed (ExternalError (lit "503 Service Unavailable")))
  else
    match r with
    | Get account path =>
        if streq account [] then
          (n, Ok (identityResponse
                    [accountEntry "/acme"; accountEntry "/beta"]))
        else if streq path (lit "/boards/b7.json") then
          (n, okData (JObject [(lit "id", JString (lit "b7"));
                               (lit "name", JString (lit "Sprint 7"))]))
        else if streq path (lit "/boards/b7/columns.json") then
          (n, okData (JArray sampleColumns))
        else (n, okData JNull)
    | GetWithPagination _ path _ =>
        if streq path (lit "/cards.json?board_ids[]=b7") then
          (n, okData (JArray cards))
        else (n, okData (JArray []))
    | Post _ path _ =>
        if streq path (lit "/boards.json") then
          (n, okData (JObject [(lit "id", JString (lit "t-board"))]))
        else if streq path (lit "/boards/t-board/columns.json") then
          (n + 1, okData (JObject [(lit "id",
                                    JString (lit "t-col-" ++ itoa (n + 1)))]))
        else if streq path (lit "/cards.json") then
          (n + 1, okData (JObject [(lit "number", JFloat (100 + (n + 1)) 1)]))
        else (n, okData JNull)
    | UploadFile _ _ =>
        (n + 1,
         okData (JObject
           [(lit "signed_id", JString (lit "signed-" ++ itoa (n + 1)));
            (lit "attachable_sgid",
             JString (lit "attachable-" ++ itoa (n + 1)))]))
    | _ => (n, okData JNull)
    end.

Definition neverFails (r : request) : bool := false.

(** The requests of a trace, without the replies. *)
Definition requestsOf (t : trace) : list request := map fst t.

(** The calls that reach a server, the prints to stderr left out. *)
Definition serverCalls (t : trace) : list request :=
  List.filter (fun r => negb (isStderr r)) (requestsOf t).

(** A description with two inline references. *)
Definition twoImages : str :=
  markup "<p>Before</p><action-text-attachment sgid='old-sgid-1' content-type='image/png' filename='a.png'><a href='/blobs/1/a.png?disposition=attachment'>a.png</a></action-text-attachment><p>between</p><action-text-attachment sgid='old-sgid-2' content-type='image/png' filename='b.png'><a href='/blobs/2/b.png?disposition=attachment'>b.png</a></action-text-attachment><p>After</p>".

Definition imagesGlobals : globals :=
  {| cfgAPIURL := lit "https://fizzy.example";
     requireAuth := None;
     migrateBoardFrom := lit "acme";
     migrateBoardTo := lit "beta";
     migrateBoardIncludeComments := false;
     migrateBoardIncludeSteps := false;
     migrateBoardIncludeImages := true;
     migrateBoardDryRun := false;
     osTempDir := lit "/tmp";
     filepathJoin := fun dir name => dir ++ lit "/" ++ name |}.

(** The download of the second image is refused. *)
Definition secondDownloadFails (r : request) : bool :=
  match r with
  | DownloadFile _ url _ =>
      streq url (lit "/blobs/2/b.png?disposition=attachment")
  | _ => false
  end.

(** A card whose description holds the two images. *)
Definition imageCard : object :=
  [(lit "number", JFloat 21 1);
   (lit "title", JString (lit "Screens"));
   (lit "description", JString (lit "Before a.png between b.png After"));
   (lit "description_html", JString twoImages)].

(** A description with one inline reference, and its card. *)
Definition oneImage : str :=
  markup "<p>Before</p><action-text-attachment sgid='old-sgid-1' content-type='image/png' filename='a.png'><a href='/blobs/1/a.png?disposition=attachment'>a.png</a></action-text-attachment><p>After</p>".

Definition oneImageCard : object :=
  [(lit "number", JFloat 22 1);
   (lit "title", JString (lit "One screen"));
   (lit "description", JString (lit "Before a.png After"));
   (lit "description_html", JString oneImage)].

Definition everyDownloadFails (r : request) : bool :=
  match r with
  | DownloadFile _ _ _ => true
  | _ => false
  end.

(** The first card-creation request of a trace carries the description
    [d]. *)
Fixpoint creationDescription (t : list request) : json :=
  match t with
  | [] => JNull
  | Post _ path body :: t' =>
      if streq path (lit "/cards.json") then sentDescription body
      else creationDescription t'
  | _ :: t' => creationDescription t'
  end.

(** The two references of [twoImages], as the parser returns them. *)
Definition imageA : Attachment :=
  {| Index := 1; Filename := lit "a.png"; ContentType := lit "image/png";
     Filesize := 0; Width := 0; Height := 0;
     DownloadURL := lit "/blobs/1/a.png?disposition=attachment";
     SGID := lit "old-sgid-1" |}.

Definition imageB : Attachment :=
  {| Index := 2; Filename := lit "b.png"; ContentType := lit "image/png";
     Filesize := 0; Width := 0; Height := 0;
     DownloadURL := lit "/blobs/2/b.png?disposition=attachment";
     SGID := lit "old-sgid-2" |}.

(** The creation of the card "Call the vendor" is refused, and so is every
    tagging. *)
Definition vendorCardAndTagsFail (r : request) : bool :=
  match r with
  | Post _ path body =>
      contains path (lit "/taggings.json")
      || (streq path (lit "/cards.json")
          && match body with
             | JObject fields =>
                 match index fields (lit "card") with
                 | JObject cardParams =>
                     streq (getStringField cardParams (lit "title"))
                       (lit "Call the vendor")
                 | _ => false
                 end
             | _ => false
             end)
  | _ => false
  end.

(** The statistics a run ends with, empty ones when it does not end with
    them. *)
Definition statsOf (o : outcome) : migrationStats :=
  match o with
  | Migrated stats => stats
  | _ => emptyStats
  end.

(** The configuration of the examples, as a dry run. *)
Definition dryRunGlobals : globals :=
  {| cfgAPIURL := lit "https://fizzy.example";
     requireAuth := None;
     migrateBoardFrom := lit "acme";
     migrateBoardTo := lit "beta";
     migrateBoardIncludeComments := true;
     migrateBoardIncludeSteps := false;
     migrateBoardIncludeImages := true;
     migrateBoardDryRun := true;
     osTempDir := lit "/tmp";
     filepathJoin := fun dir name => dir ++ lit "/" ++ name |}.

(** The creation of the column "Backlog" is refused. *)
Definition backlogColumnFails (r : request) : bool :=
  match r with
  | Post _ path (JObject [(_, JObject ((_, JString name) :: _))]) =>
      hasSuffix path (lit "/columns.json") && streq name (lit "Backlog")
  | _ => false
  end.


(** The fetch of the columns is refused. *)
Definition columnsFetchFails (r : request) : bool :=
  match r with
  | Get _ path => hasSuffix path (lit "/columns.json")
  | _ => false
  end.

(** A card with an inline image, a header image, two comments and two
    steps. *)
Definition richCard : json :=
  JObject [(lit "number", JFloat 31 1);
           (lit "title", JString (lit "Release notes"));
           (lit "description", JString (lit "Before a.png After"));
           (lit "description_html", JString oneImage);
           (lit "image_url", JString (lit "/blobs/9/header.jpg"));
           (lit "steps",
            JArray [JObject [(lit "content", JString (lit "Draft"));
                             (lit "completed", JBool true)];
                    JObject [(lit "content", JString [])];
                    JString (lit "not a step");
                    JObject [(lit "content", JString (lit "Publish"))]])].

(** Everything optional switched on. *)
Definition fullGlobals : globals :=
  {| cfgAPIURL := lit "https://fizzy.example";
     requireAuth := None;
     migrateBoardFrom := lit "acme";
     migrateBoardTo := lit "beta";
     migrateBoardIncludeComments := true;
     migrateBoardIncludeSteps := true;
     migrateBoardIncludeImages := true;
     migrateBoardDryRun := false;
     osTempDir := lit "/tmp";
     filepathJoin := fun dir name => dir ++ lit "/" ++ name |}.

(** Every upload is refused. *)
Definition everyUploadFails (r : request) : bool :=
  match r with
  | UploadFile _ _ => true
  | _ => false
  end.

(** Every card creation is refused. *)
Definition cardCreationFails (r : request) : bool :=
  match r with
  | Post _ path _ => streq path (lit "/cards.json")
  | _ => false
  end.

(** A server for the attachment commands: card 42 has the two images of
    [twoImages] in its description and one comment with the image of
    [oneImage]. *)
Definition cardServer (fails : request -> bool) (n : Z) (r : request)
    : Z * reply :=
  if fails r then (n, Failed (ExternalError (lit "503 Service Unavailable")))
  else
    match r with
    | Get _ path =>
        if streq path (lit "/cards/42.json") then
          (n, okData (JObject [(lit "number", JFloat 42 1);
                               (lit "description_html", JString twoImages)]))
        else (n, okData JNull)
    | GetWithPagination _ path _ =>
        if streq path (lit "/cards/42/comments.json") then
          (n, okData (JArray
                        [JObject [(lit "id", JString (lit "comment-1"));
                                  (lit "body",
                                   JObject [(lit "html", JString oneImage)])]]))
        else (n, okData (JArray []))
    | DownloadFile _ _ _ => (n + 1, okData JNull)
    | _ => (n, okData JNull)
    end.

Definition withComments : attachmentsGlobals :=
  {| requireAuthAndAccount := None;
     clientAccount := lit "acme";
     attachmentsShowIncludeComments := true;
     attachmentDownloadOutput := [];
     attachmentsDownloadIncludeComments := true |}.

Definition withPrefix : attachmentsGlobals :=
  {| requireAuthAndAccount := None;
     clientAccount := lit "acme";
     attachmentsShowIncludeComments := false;
     attachmentDownloadOutput := lit "shot.png";
     attachmentsDownloadIncludeComments := false |}.

(** The listing of the comments is refused. *)
Definition commentsListingFails (r : request) : bool :=
  match r with
  | GetWithPagination _ _ _ => true
  | _ => false
  end.

(** A closed card with three tags, the second of which is not a string,
    and one step. *)
Definition taggedCard : json :=
  JObject [(lit "number", JFloat 32 1);
           (lit "title", JString (lit "Triage"));
           (lit "status", JString (lit "closed"));
           (lit "tags",
            JArray [JString (lit "bug"); JFloat 7 1; JString (lit "ui")]);
           (lit "steps",
            JArray [JObject [(lit "content", JString (lit "Check"))]])].

(** The tagging with the tag [ui] is refused. *)
Definition uiTagFails (r : request) : bool :=
  match r with
  | Post _ path (JObject [(_, JString tagName)]) =>
      hasSuffix path (lit "/taggings.json") && streq tagName (lit "ui")
  | _ => false
  end.

(** * Properties *)

(** ** Strings *)

Lemma hasPrefix_true (s p : str) :
  hasPrefix s p = true <-> exists r, s = p ++ r.
Proof.
  revert s. induction p as [|c p IH]; intros s; simpl.
  - split; [intros _; by exists s | done].
  - destruct s as [|d s]; simpl.
    + split; [discriminate | intros [r Hr]; discriminate].
    + rewrite andb_true_iff, bool_decide_eq_true, IH. split.
      * intros [-> [r ->]]. by exists r.
      * intros [r Hr]. injection Hr as -> ->. split; [done | by exists r].
Qed.

Lemma hasPrefix_app (p r : str) : hasPrefix (p ++ r) p = true.
Proof. apply hasPrefix_true. eauto. Qed.

Lemma hasPrefix_false (s p : str) :
  hasPrefix s p = false <-> ~ exists r, s = p ++ r.
Proof.
  rewrite <- hasPrefix_true. destruct (hasPrefix s p); split; intros H;
    try done; try (by destruct H).
Qed.

Lemma streq_true (s t : str) : streq s t = true <-> s = t.
Proof. unfold streq. apply bool_decide_eq_true. Qed.

Lemma streq_false (s t : str) : streq s t = false <-> s <> t.
Proof. unfold streq. apply bool_decide_eq_false. Qed.

Lemma streq_refl (s : str) : streq s s = true.
Proof. by apply streq_true. Qed.

Lemma contains_occursIn (s sub : str) :
  contains s sub = true <-> occursIn sub s.
Proof.
  unfold occursIn. induction s as [|a s IH]; simpl.
  - rewrite orb_false_r, hasPrefix_true. split.
    + intros [r Hr]. exists [], r. done.
    + intros (pre & post & H). destruct pre; simpl in H.
      * eauto.
      * discriminate.
  - rewrite orb_true_iff, hasPrefix_true, IH. split.
    + intros [[r Hr] | (pre & post & ->)].
      * exists [], r. done.
      * exists (a :: pre), post. done.
    + intros (pre & post & H). destruct pre as [|b pre]; simpl in H.
      * left. eauto.
      * right. injection H as -> ->. eauto.
Qed.

(** Trimming one leading slash and comparing, or comparing as is, accepts
    exactly the slug itself and the slug behind one slash. *)
Lemma slug_match (slug a : str) :
  streq (trimPrefix slug (lit "/")) a || streq slug a = true
  <-> slug = a \/ slug = "/"%char :: a.
Proof.
  rewrite orb_true_iff, !streq_true. unfold trimPrefix.
  destruct (hasPrefix slug (lit "/")) eqn:E.
  - apply hasPrefix_true in E as [r ->]. simpl. rewrite drop_0.
    split; [intros [-> | H] | intros [H | H]]; auto.
    injection H as ->. auto.
  - split; [intros [H | H] | intros [H | H]]; auto.
    subst slug. apply hasPrefix_false in E. destruct E. by exists a.
Qed.

(** ** The interpreter *)

Lemma run_bind {W A B : Type} (h : W -> request -> W * reply) (w : W)
    (p : Prog A) (f : A -> Prog B) :
  run h w (bind p f) =
  let '(a, w1, t1) := run h w p in
  let '(b, w2, t2) := run h w1 (f a) in
  (b, w2, t1 ++ t2).
Proof.
  revert w. induction p as [a | r k IH]; intros w.
  - simpl. by destruct (run h w (f a)) as [[b w2] t2].
  - assert (forall x w1,
              (let '(a, w2, t) := run h w1 (bind (k x) f) in
               (a, w2, (r, x) :: t))
              = (let '(a, w2, t1) :=
                   (let '(a, w2, t) := run h w1 (k x) in
                    (a, w2, (r, x) :: t)) in
                 let '(b, w3, t2) := run h w2 (f a) in (b, w3, t1 ++ t2)))
      as Hstep.
    { intros x w1. rewrite IH.
      destruct (run h w1 (k x)) as [[a w2] t1].
      by destruct (run h w2 (f a)) as [[b w3] t2]. }
    destruct r; simpl; try (destruct (h w _) as [w1 x]); apply Hstep.
Qed.

Lemma run_ret {W A : Type} (h : W -> request -> W * reply) (w : W) (a : A) :
  run h w (Ret a) = (a, w, []).
Proof. done. Qed.

Lemma run_call {W : Type} (h : W -> request -> W * reply) (w : W)
    (r : request) :
  isStderr r = false ->
  run h w (call r) = ((h w r).2, (h w r).1, [(r, (h w r).2)]).
Proof.
  intros Hr. unfold call. destruct r; try discriminate; simpl;
    by destruct (h w _).
Qed.

Lemma run_eprint {W : Type} (h : W -> request -> W * reply) (w : W)
    (text : str) :
  run h w (eprint text) = (tt, w, [(Stderr text, ack)]).
Proof. done. Qed.

(** Unfolds [run] along the binds, calls and prints of a program. *)
Ltac run_norm :=
  repeat (first [rewrite run_bind | rewrite run_call by reflexivity
                | rewrite run_eprint | rewrite run_ret];
          cbn [fst snd]).

(** Splits on the reply to the next call. *)
Ltac next_reply h :=
  match goal with
  | |- context [h ?w ?r] =>
      let E := fresh "Hreply" in
      destruct (h w r) as [? [?|?]] eqn:E; cbn [fst snd]
  end.

(** ** Pseudo columns in the column listing *)



(** ** Access verification *)

(** The test the loop applies to one entry of the accounts array. *)
Definition entryMatches (a : str) (acc : json) : bool :=
  match acc with
  | JObject accMap =>
      streq (trimPrefix (getStringField accMap (lit "slug")) (lit "/")) a
      || streq (getStringField accMap (lit "slug")) a
  | _ => false
  end.

Lemma accessStep_fold (src tgt : str) (accounts : list json)
    (fs ft : bool) :
  fold_left (accessStep src tgt) accounts (fs, ft)
  = (fs || existsb (entryMatches src) accounts,
     ft || existsb (entryMatches tgt) accounts).
Proof.
  revert fs ft. induction accounts as [|acc accounts IH]; intros fs ft.
  - simpl. by rewrite !orb_false_r.
  - simpl. destruct acc as [| | | | | |accMap]; simpl;
      try (rewrite IH; done).
    rewrite IH. f_equal.
    + destruct (streq _ src || streq _ src), fs; done.
    + destruct (streq _ tgt || streq _ tgt), ft; done.
Qed.

Lemma existsb_entryMatches (a : str) (accounts : list json) :
  existsb (entryMatches a) accounts = true <-> listsAccount accounts a.
Proof.
  unfold listsAccount. rewrite existsb_exists. split.
  - intros (acc & Hin & Hm). destruct acc as [| | | | | |accMap];
      try discriminate.
    exists accMap. split; [done|]. by apply slug_match.
  - intros (accMap & Hin & Hm). exists (JObject accMap). split; [done|].
    by apply slug_match.
Qed.

Definition sourceAccessError (src : str) : error :=
  NewError (lit "You don't have access to source account " ++ quoted src).
Definition targetAccessError (tgt : str) : error :=
  NewError (lit "You don't have access to target account " ++ quoted tgt).

Lemma access_errors_differ (src tgt : str) :
  sourceAccessError src <> targetAccessError tgt.
Proof. unfold sourceAccessError, targetAccessError. cbv. discriminate. Qed.

(** C7, amended. Once the identity endpoint has answered with a list of
    accounts, an account counts as accessible exactly when some entry's slug
    equals it as it stands or after one leading slash is stripped. The
    verifier succeeds when both accounts are accessible; it returns the error
    that names the source account whenever the source is not accessible (also
    when the target is not accessible either), and the error that names the
    target account when only the target is not accessible. *)
Theorem verifyAccountAccess_names_first_missing {W : Type}
    (h : W -> request -> W * reply) (w w' : W) (g : globals)
    (src tgt : str) (resp : APIResponse) (data : object)
    (accounts : list json) :
  h w (Get [] (cfgAPIURL g ++ lit "/my/identity.json")) = (w', Ok resp) ->
  Data resp = JObject data ->
  index data (lit "accounts") = JArray accounts ->
  let res := resultOf (run h w (verifyAccountAccess g src tgt)) in
  (res = None <-> listsAccount accounts src /\ listsAccount accounts tgt)
  /\ (res = Some (sourceAccessError src) <-> ~ listsAccount accounts src)
  /\ (res = Some (targetAccessError tgt)
      <-> listsAccount accounts src /\ ~ listsAccount accounts tgt).
Proof.
  intros Hget Hdata Hacc res. subst res.
  unfold verifyAccountAccess. rewrite run_bind, run_call, Hget by done.
  simpl.
  rewrite Hdata, Hacc, accessStep_fold. simpl.
  rewrite <- !existsb_entryMatches.
  pose proof (access_errors_differ src tgt) as Hne.
  destruct (existsb (entryMatches src) accounts),
           (existsb (entryMatches tgt) accounts); simpl;
    unfold resultOf; simpl; fold (sourceAccessError src);
    fold (targetAccessError tgt);
    repeat split; try done; try (intros [? ?]; done);
    try (intros ?; exfalso; congruence); try (intros H; by destruct H).
Qed.

Lemma verifyAccountAccess_names_first_missing_witness :
  let accounts := [accountEntry "/acme"; accountEntry "beta"] in
  let res :=
    resultOf (run (identityOnly accounts) tt
                (verifyAccountAccess plainGlobals (lit "acme") (lit "beta")))
  in
  (res = None
   <-> listsAccount accounts (lit "acme") /\ listsAccount accounts (lit "beta"))
  /\ (res = Some (sourceAccessError (lit "acme"))
      <-> ~ listsAccount accounts (lit "acme"))
  /\ (res = Some (targetAccessError (lit "beta"))
      <-> listsAccount accounts (lit "acme")
          /\ ~ listsAccount accounts (lit "beta")).
Proof.
  exact (verifyAccountAccess_names_first_missing
           (identityOnly [accountEntry "/acme"; accountEntry "beta"])
           tt tt plainGlobals (lit "acme") (lit "beta")
           (identityResponse [accountEntry "/acme"; accountEntry "beta"])
           [(lit "accounts",
             JArray [accountEntry "/acme"; accountEntry "beta"])]
           [accountEntry "/acme"; accountEntry "beta"]
           eq_refl eq_refl eq_refl).
Defined.

(** C7 as stated fails: a caller who can reach neither account is told
    about the source account only; the error does not name the target. *)
Lemma verifyAccountAccess_both_missing_names_source_only :
  let accounts := [accountEntry "/other"] in
  let res :=
    resultOf (run (identityOnly accounts) tt
                (verifyAccountAccess plainGlobals (lit "acme") (lit "beta")))
  in
  existsb (entryMatches (lit "acme")) accounts = false
  /\ existsb (entryMatches (lit "beta")) accounts = false
  /\ res = Some (NewError
             (lit "You don't have access to source account 'acme'"))
  /\ contains (lit "You don't have access to source account 'acme'")
       (lit "beta") = false.
Proof. vm_compute. repeat split. Qed.

(** ** The matcher *)

Lemma starK_sound {R : Type} (p : ascii -> bool) (greedy : bool) (s : str)
    (k : str -> option R) (x : R) :
  starK p greedy s k = Some x ->
  exists l s1, s = l ++ s1 /\ Forall (fun a => p a = true) l /\ k s1 = Some x.
Proof.
  induction s as [|a s IH]; simpl.
  - intros H. by exists [], [].
  - destruct (p a) eqn:Hp; [|intros H; by exists [], (a :: s)].
    intros H.
    assert (starK p greedy s k = Some x \/ k (a :: s) = Some x) as [H1|H1].
    { destruct greedy.
      - destruct (starK p true s k); [by left | by right].
      - destruct (k (a :: s)); [by right | by left]. }
    + destruct (IH H1) as (l & s1 & -> & Hl & Hk).
      exists (a :: l), s1. repeat split; [by constructor | done].
    + by exists [], (a :: s).
Qed.

Lemma starK_complete {R : Type} (p : ascii -> bool) (greedy : bool)
    (l s : str) (k : str -> option R) (x : R) :
  Forall (fun a => p a = true) l -> k s = Some x ->
  exists y, starK p greedy (l ++ s) k = Some y.
Proof.
  intros Hl Hk. induction Hl as [|a l Ha Hl IH]; simpl.
  - destruct s as [|a s]; simpl; [eauto|].
    destruct (p a); [|eauto].
    destruct greedy.
    + destruct (starK p true s k); eauto.
    + rewrite Hk. eauto.
  - rewrite Ha. destruct IH as [y Hy]. destruct greedy.
    + rewrite Hy. eauto.
    + destruct (k (a :: l ++ s)); eauto.
Qed.



Lemma Matches_suffix (r : regex) (s s1 : str) (c c1 : captures) :
  Matches r s c s1 c1 -> exists l, s = l ++ s1.
Proof.
  induction 1 as [s c | l s c | p a s c Hp
                  | r1 r2 s c s1 c1 s2 c2 _ [l1 ->] _ [l2 ->]
                  | p g l s c Hl | n r s c s1 c1 _ IH].
  - by exists [].
  - by exists l.
  - by exists [a].
  - exists (l1 ++ l2). by rewrite <- app_assoc.
  - by exists l.
  - done.
Qed.

Lemma matchK_sound {R : Type} (r : regex) (s : str) (c : captures)
    (k : str -> captures -> option R) (x : R) :
  matchK r s c k = Some x ->
  exists s1 c1, Matches r s c s1 c1 /\ k s1 c1 = Some x.
Proof.
  revert s c k. induction r as [|l|p|r1 IH1 r2 IH2|p g|n r IH];
    intros s c k; simpl.
  - intros H. exists s, c. split; [constructor | done].
  - destruct (hasPrefix s l) eqn:E; [|done].
    apply hasPrefix_true in E as [t ->]. rewrite drop_app_length.
    intros H. exists t, c. split; [constructor | done].
  - destruct s as [|a s]; [done|]. destruct (p a) eqn:Hp; [|done].
    intros H. exists s, c. split; [by constructor | done].
  - intros H. apply IH1 in H as (s1 & c1 & M1 & H).
    apply IH2 in H as (s2 & c2 & M2 & H).
    exists s2, c2. split; [by econstructor | done].
  - intros H. apply starK_sound in H as (l & s1 & -> & Hl & H).
    exists s1, c. split; [by constructor | done].
  - intros H. apply IH in H as (s1 & c1 & M1 & H).
    eexists s1, _. split; [by constructor | done].
Qed.

Lemma matchK_complete {R : Type} (r : regex) (s s1 : str) (c c1 : captures)
    (k : str -> captures -> option R) (x : R) :
  Matches r s c s1 c1 -> k s1 c1 = Some x ->
  exists y, matchK r s c k = Some y.
Proof.
  intros M. revert k x.
  induction M as [s c | l s c | p a s c Hp
                  | r1 r2 s c s1 c1 s2 c2 _ IH1 _ IH2
                  | p g l s c Hl | n r s c s1 c1 _ IH];
    intros k x Hk; simpl.
  - eauto.
  - rewrite hasPrefix_app, drop_app_length. eauto.
  - rewrite Hp. eauto.
  - destruct (IH2 k x Hk) as [y Hy]. by apply (IH1 _ y).
  - by apply (starK_complete p g l s (fun s1 => k s1 c) x).
  - by apply (IH _ x).
Qed.

(** *** Searching *)

Lemma matchAt_sound (r : regex) (s s1 : str) (c : captures) :
  matchAt r s = Some (c, s1) -> Matches r s [] s1 c.
Proof.
  unfold matchAt. intros H.
  apply matchK_sound in H as (s1' & c1 & M & [= -> ->]). done.
Qed.

Lemma matchAt_complete (r : regex) (s s1 : str) (c : captures) :
  Matches r s [] s1 c -> exists c' s1', matchAt r s = Some (c', s1').
Proof.
  intros M. unfold matchAt.
  destruct (matchK_complete r s s1 [] c (fun s1 c => Some (c, s1)) (c, s1) M
              eq_refl) as [[c' s1'] H].
  eauto.
Qed.

(** The leftmost match: none starts in [pre], one starts right after. *)
Lemma findStringSubmatch_at (r : regex) (pre s s1 : str) (c : captures) :
  (forall i, (i < length pre)%nat -> matchAt r (drop i (pre ++ s)) = None) ->
  matchAt r s = Some (c, s1) ->
  findStringSubmatch r (pre ++ s) = Some c.
Proof.
  intros Hpre Hs. induction pre as [|a pre IH]; simpl.
  - destruct s; simpl; by rewrite Hs.
  - pose proof (Hpre 0%nat ltac:(simpl; lia)) as H0. simpl in H0.
    rewrite H0.
    apply IH. intros i Hi. apply (Hpre (S i)). simpl. lia.
Qed.

Lemma findStringSubmatch_none (r : regex) (s : str) :
  (forall i, (i <= length s)%nat -> matchAt r (drop i s) = None) ->
  findStringSubmatch r s = None.
Proof.
  induction s as [|a s IH]; intros H; simpl.
  - pose proof (H 0%nat ltac:(simpl; lia)) as H0. simpl in H0.
    by rewrite H0.
  - pose proof (H 0%nat ltac:(simpl; lia)) as H0. simpl in H0. rewrite H0.
    apply IH. intros i Hi. apply (H (S i)). simpl. lia.
Qed.

(** Whatever the search returns was matched somewhere, and nothing matches
    before that place. *)
Lemma findStringSubmatch_sound (r : regex) (s : str) (c : captures) :
  findStringSubmatch r s = Some c ->
  exists pre s0 s1,
    s = pre ++ s0 /\ matchAt r s0 = Some (c, s1) /\
    forall i, (i < length pre)%nat -> matchAt r (drop i s) = None.
Proof.
  induction s as [|a s IH]; simpl.
  - destruct (matchAt r []) as [[c' s1]|] eqn:E; [|done].
    intros [= ->]. exists [], [], s1. repeat split; [done|].
    simpl. intros i Hi. lia.
  - destruct (matchAt r (a :: s)) as [[c' s1]|] eqn:E.
    + intros [= ->]. exists [], (a :: s), s1. repeat split; [done|].
      simpl. intros i Hi. lia.
    + intros H. destruct (IH H) as (pre & s0 & s1 & -> & Hm & Hnone).
      exists (a :: pre), s0, s1. repeat split; [done|].
      intros [|i] Hi; simpl; [done|]. apply Hnone. simpl in Hi. lia.
Qed.

(** *** All matches *)




Lemma findAll_sound (r : regex) (s : str) (skip : nat) (c : captures) :
  In c (findAllStringSubmatch r s skip) ->
  exists pre s0 s1, s = pre ++ s0 /\ matchAt r s0 = Some (c, s1).
Proof.
  revert skip. induction s as [|a s IH]; intros skip; simpl.
  - destruct skip; [|done].
    destruct (matchAt r []) as [[c' s1]|] eqn:E; [|done].
    intros [<-|[]]. by exists [], [], s1.
  - destruct skip as [|n].
    + destruct (matchAt r (a :: s)) as [[c' s1]|] eqn:E.
      * intros [<-|H]; [by exists [], (a :: s), s1|].
        destruct (IH _ H) as (pre & s0 & s2 & -> & Hm).
        by exists (a :: pre), s0, s2.
      * intros H. destruct (IH _ H) as (pre & s0 & s2 & -> & Hm).
        by exists (a :: pre), s0, s2.
    + intros H. destruct (IH _ H) as (pre & s0 & s2 & -> & Hm).
      by exists (a :: pre), s0, s2.
Qed.

(** ** The attachment parser: filtering and numbering *)

(** The in-place filter computes the filter of the array it started from:
    the write position never overtakes the read position. *)
Lemma filterInPlace_spec (todo : nat) :
  forall (i n : nat) (arr orig : list Attachment),
    (n <= i)%nat -> (i + todo)%nat = length orig ->
    length arr = length orig ->
    take n arr = List.filter kept (take i orig) ->
    drop i arr = drop i orig ->
    take (filterInPlace todo i n arr).1 (filterInPlace todo i n arr).2
    = List.filter kept orig.
Proof.
  induction todo as [|todo IH]; intros i n arr orig Hni Hlen Harr Htake Hdrop;
    simpl.
  - rewrite Htake. f_equal. apply take_ge. lia.
  - assert (exists a, orig !! i = Some a) as [a Ha].
    { apply lookup_lt_is_Some. lia. }
    assert (arr !! i = Some a) as Harri.
    { pose proof (lookup_drop arr i 0) as E1.
      pose proof (lookup_drop orig i 0) as E2.
      rewrite Nat.add_0_r in E1, E2. by rewrite <- E1, Hdrop, E2. }
    assert (drop (S i) arr = drop (S i) orig) as HdropS.
    { replace (S i) with (i + 1)%nat by lia.
      by rewrite <- !drop_drop, Hdrop. }
    assert (take (S i) orig = take i orig ++ [a]) as HtakeS.
    { by apply take_S_r. }
    rewrite Harri. destruct (dropped a) eqn:Hd.
    + apply IH; try done; try lia.
      rewrite HtakeS, List.filter_app, <- Htake. simpl. unfold kept.
      rewrite Hd. simpl. by rewrite app_nil_r.
    + apply IH; try lia.
      * rewrite length_insert. done.
      * rewrite (take_S_r _ _ a).
        -- rewrite take_insert_ge by lia.
           rewrite HtakeS, List.filter_app, <- Htake. simpl. unfold kept.
           by rewrite Hd.
        -- apply list_lookup_insert_eq. lia.
      * rewrite drop_insert_lt by lia. done.
Qed.

Lemma parseAttachments_eq (html : str) :
  parseAttachments html
  = reindexFrom 0
      (List.filter kept
         (collectAttachments 0
            (findAllStringSubmatch attachmentRegex html 0))).
Proof.
  unfold parseAttachments.
  set (attachments := collectAttachments 0 _).
  pose proof (filterInPlace_spec (length attachments) 0 0 attachments
                attachments) as H.
  destruct (filterInPlace (length attachments) 0 0 attachments) as [n arr].
  simpl in H. rewrite H; done.
Qed.

Lemma reindexFrom_length (i : nat) (l : list Attachment) :
  length (reindexFrom i l) = length l.
Proof. revert i. induction l as [|a l IH]; intros i; simpl; auto. Qed.

Lemma reindexFrom_lookup (i j : nat) (l : list Attachment) :
  reindexFrom i l !! j
  = (fun a => setIndex a (Z.of_nat (i + j) + 1)) <$> l !! j.
Proof.
  revert i j. induction l as [|a l IH]; intros i j; simpl; [done|].
  destruct j as [|j]; simpl.
  - by rewrite Nat.add_0_r.
  - rewrite IH. by replace (S i + j)%nat with (i + S j)%nat by lia.
Qed.



(** ** Committed matches *)

Lemma take_length_diff (l s : str) :
  take (length (l ++ s) - length s) (l ++ s) = l.
Proof.
  rewrite length_app. replace (length l + length s - length s)%nat
    with (length l) by lia. apply take_app_length.
Qed.






(** *** Occurrences of a literal *)

(** A literal whose first character does not come back in it cannot start
    in [g] and end in what follows, when that starts with the same
    character or is empty. *)
Lemma no_straddle (a : ascii) (l' g rest : str) (i : nat) :
  ~ In a l' -> contains g (a :: l') = false ->
  match rest with [] => True | b :: _ => b = a end ->
  (i < length g)%nat ->
  hasPrefix (drop i (g ++ rest)) (a :: l') = false.
Proof.
  intros Hnotin Hg Hrest Hi. apply hasPrefix_false. intros [r Hr].
  rewrite drop_app_le in Hr by lia.
  apply app_eq_inv in Hr as [(k & Hk1 & Hk2) | (k & Hk1 & Hk2)].
  - (* the literal lies inside [g] *)
    assert (occursIn (a :: l') g) as Hocc.
    { exists (take i g), k. rewrite <- Hk1. symmetry. apply take_drop. }
    apply contains_occursIn in Hocc. congruence.
  - (* the literal reaches into [rest] *)
    destruct k as [|b k].
    + rewrite app_nil_r in Hk1.
      assert (occursIn (a :: l') g) as Hocc.
      { exists (take i g), []. rewrite app_nil_r, Hk1. symmetry.
        apply take_drop. }
      apply contains_occursIn in Hocc. congruence.
    + destruct rest as [|b' rest]; [done|]. injection Hk2 as -> _.
      simpl in Hrest. subst b. destruct (drop i g) as [|d x] eqn:Hx.
      * apply (f_equal length) in Hx. rewrite length_drop in Hx.
        simpl in Hx. lia.
      * simpl in Hk1. injection Hk1 as _ ->. apply Hnotin.
        apply in_app_iff. right. by left.
Qed.

(** ** The element pattern on well-formed fragments *)






Local Opaque openTag closeTag.






(** ** The records of a fragment *)





(** The sample fragment: three elements, the mention is left out, and the
    two files are numbered 1 and 2. *)
Example parseAttachments_sample :
  map (fun a => (Index a, Filename a, DownloadURL a, SGID a))
    (parseAttachments (sampleLead ++ renderElements sampleElements))
  = [ (1, lit "screenshot.png",
       lit "/blobs/blob1/screenshot.png?disposition=attachment",
       lit "sgid1");
      (2, lit "notes.pdf",
       lit "/6086023/rails/active_storage/blobs/redirect/abc/notes.pdf?disposition=attachment",
       lit "sgid3") ].
Proof. vm_compute. reflexivity. Qed.

(** ** Download links *)

Lemma split_at_first {A : Type} (q : A) (l1 r1 l2 r2 : list A) :
  l1 ++ q :: r1 = l2 ++ q :: r2 -> ~ In q l1 -> ~ In q l2 ->
  l1 = l2 /\ r1 = r2.
Proof.
  revert l2. induction l1 as [|a l1 IH]; intros [|b l2]; simpl;
    intros H H1 H2.
  - by injection H as ->.
  - injection H as -> _. destruct H2. by left.
  - injection H as -> _. destruct H1. by left.
  - injection H as -> H. destruct (IH l2 H) as [-> ->]; auto.
Qed.

Lemma notQuote_true (a : ascii) : notQuote a = true <-> a <> dquote.
Proof. unfold notQuote. by rewrite negb_true_iff, bool_decide_eq_false. Qed.

Lemma Forall_notQuote (l : str) :
  Forall (fun a => notQuote a = true) l <-> ~ In dquote l.
Proof.
  rewrite Forall_forall. split.
  - intros H Hin. apply list_elem_of_In in Hin. apply H in Hin.
    by apply notQuote_true in Hin.
  - intros H a Ha. apply notQuote_true. intros ->.
    by apply list_elem_of_In in Ha.
Qed.

Lemma dispositionQuery_no_quote : ~ In dquote dispositionQuery.
Proof. vm_compute. intuition discriminate. Qed.

Lemma blobRedirect_no_quote : ~ In dquote blobRedirect.
Proof. vm_compute. intuition discriminate. Qed.

Local Opaque dispositionQuery blobRedirect hrefOpen.

Ltac invert_Matches :=
  repeat match goal with
  | H : Matches (Seq _ _) _ _ _ _ |- _ => inversion H; clear H; subst
  | H : Matches (Lit _) _ _ _ _ |- _ => inversion H; clear H; subst
  | H : Matches (Class _) _ _ _ _ |- _ => inversion H; clear H; subst
  | H : Matches (Star _ _) _ _ _ _ |- _ => inversion H; clear H; subst
  | H : Matches (Group _ _) _ _ _ _ |- _ => inversion H; clear H; subst
  end.

(** What the first pattern matches is a link that ends in
    [?disposition=attachment], and its group is that link. *)
Lemma downloadURLRegex_sound (s s1 : str) (c : captures) :
  matchAt downloadURLRegex s = Some (c, s1) ->
  exists url,
    group c 1 = url /\ s = hrefOpen ++ url ++ dquote :: s1 /\
    ~ In dquote url /\ endsInDisposition url.
Proof.
  intros H. apply matchAt_sound in H.
  unfold downloadURLRegex, Plus in H. invert_Matches.
  match goal with
  | |- context [take ?n ?s] =>
      replace (take n s) with (a :: l ++ dispositionQuery)
  end.
  2:{ symmetry.
      rewrite <- (take_length_diff (a :: l ++ dispositionQuery)
                    ([dquote] ++ s1)).
      simpl. by rewrite <- !app_assoc. }
  exists (a :: l ++ dispositionQuery). simpl. repeat split.
  - by rewrite <- !app_assoc.
  - intros [Ha|Hin].
    + subst a. done.
    + apply in_app_iff in Hin as [Hin|Hin].
      * by apply Forall_notQuote in Hin.
      * by apply dispositionQuery_no_quote.
  - by exists (a :: l).
Qed.

Lemma downloadURLRegex_complete (url rest : str) :
  ~ In dquote url -> endsInDisposition url ->
  exists c s1,
    matchAt downloadURLRegex (hrefOpen ++ url ++ dquote :: rest)
    = Some (c, s1).
Proof.
  intros Hq (path & Hpath & ->).
  destruct path as [|a l]; [done|].
  assert (Forall (fun a => notQuote a = true) (a :: l)) as Hl.
  { apply Forall_notQuote. intros Hin. apply Hq. apply in_app_iff.
    by left. }
  inversion Hl as [|? ? Ha Hl']; subst.
  replace (hrefOpen ++ ((a :: l) ++ dispositionQuery) ++ dquote :: rest)
    with (hrefOpen ++ a :: l ++ dispositionQuery ++ [dquote] ++ rest)
    by (simpl; by rewrite <- !app_assoc).
  eapply matchAt_complete. unfold downloadURLRegex, Plus.
  eapply M_Seq; [apply M_Lit|].
  eapply M_Seq.
  - apply M_Group. eapply M_Seq.
    + eapply M_Seq; [by apply M_Class|]. by apply M_Star.
    + apply M_Lit.
  - apply (M_Lit [dquote]).
Qed.

Lemma blobURLRegex_sound (s s1 : str) (c : captures) :
  matchAt blobURLRegex s = Some (c, s1) ->
  exists url,
    group c 1 = url /\ s = hrefOpen ++ url ++ dquote :: s1 /\
    ~ In dquote url /\ isBlobPath url.
Proof.
  intros H. apply matchAt_sound in H.
  unfold blobURLRegex, Plus in H. invert_Matches.
  match goal with
  | |- context [take ?n ?s] =>
      replace (take n s)
        with ("/"%char :: (a :: l) ++ blobRedirect ++ (a0 :: l0))
  end.
  2:{ symmetry.
      rewrite <- (take_length_diff
                    ("/"%char :: (a :: l) ++ blobRedirect ++ (a0 :: l0))
                    ([dquote] ++ s1)).
      simpl. by rewrite <- !app_assoc. }
  exists ("/"%char :: (a :: l) ++ blobRedirect ++ (a0 :: l0)).
  simpl. repeat split.
  - change (lit "/") with ["/"%char]. simpl. by rewrite <- !app_assoc.
  - intros [Ha|[Ha|Hin]]; try (subst; done).
    apply in_app_iff in Hin as [Hin|Hin];
      [by apply Forall_notQuote in Hin|].
    apply in_app_iff in Hin as [Hin|[Hin|Hin]].
    + by apply blobRedirect_no_quote.
    + subst. done.
    + by apply Forall_notQuote in Hin.
  - by exists (a :: l), (a0 :: l0).
Qed.

Lemma blobURLRegex_complete (url rest : str) :
  ~ In dquote url -> isBlobPath url ->
  exists c s1,
    matchAt blobURLRegex (hrefOpen ++ url ++ dquote :: rest) = Some (c, s1).
Proof.
  intros Hq (account & blob & Haccount & Hblob & ->).
  destruct account as [|a l]; [done|]. destruct blob as [|b m]; [done|].
  assert (Forall (fun a => notQuote a = true) (a :: l)) as Hl.
  { apply Forall_notQuote. intros Hin. apply Hq. right.
    apply in_app_iff. by left. }
  assert (Forall (fun a => notQuote a = true) (b :: m)) as Hm.
  { apply Forall_notQuote. intros Hin. apply Hq. right.
    apply in_app_iff. right. apply in_app_iff. by right. }
  inversion Hl as [|? ? Ha Hl']; subst.
  inversion Hm as [|? ? Hb Hm']; subst.
  replace (hrefOpen ++ ("/"%char :: (a :: l) ++ blobRedirect ++ b :: m)
           ++ dquote :: rest)
    with (hrefOpen ++ lit "/" ++ a :: l ++ blobRedirect ++ b :: m
          ++ [dquote] ++ rest).
  2:{ change (lit "/") with ["/"%char]. simpl. by rewrite <- !app_assoc. }
  eapply matchAt_complete. unfold blobURLRegex, Plus.
  eapply M_Seq; [apply M_Lit|].
  eapply M_Seq.
  - apply M_Group.
    eapply M_Seq; [apply M_Lit|].
    eapply M_Seq.
    + eapply M_Seq; [by apply M_Class|]. by apply M_Star.
    + eapply M_Seq; [apply M_Lit|].
      eapply M_Seq; [by apply M_Class|].
      by apply M_Star.
  - apply (M_Lit [dquote]).
Qed.

(** *** Searching for a link *)

Section AnchorSearch.

Variable r : regex.
Variable P : str -> Prop.

Hypothesis r_sound : forall (s s1 : str) (c : captures),
  matchAt r s = Some (c, s1) ->
  exists url,
    group c 1 = url /\ s = hrefOpen ++ url ++ dquote :: s1 /\
    ~ In dquote url /\ P url.

Hypothesis r_complete : forall url rest : str,
  ~ In dquote url -> P url ->
  exists c s1, matchAt r (hrefOpen ++ url ++ dquote :: rest) = Some (c, s1).

Lemma anchor_of_match (content : str) (i : nat) (c : captures) (s1 : str) :
  matchAt r (drop i content) = Some (c, s1) ->
  anchorAt content (take i content) (group c 1) /\ P (group c 1).
Proof.
  intros H. apply r_sound in H as (url & -> & Hs & Hq & HP).
  split; [|done]. exists s1. split; [|done].
  by rewrite <- Hs, take_drop.
Qed.

Lemma search_first (content pre url : str) :
  firstAnchor P content pre url ->
  exists c, findStringSubmatch r content = Some c /\ group c 1 = url.
Proof.
  intros [[rest [-> Hq]] [HP Hfirst]].
  destruct (r_complete url rest Hq HP) as (c & s1 & Hm).
  exists c. split.
  - apply (findStringSubmatch_at r pre _ s1); [|done].
    intros i Hi.
    destruct (matchAt r (drop i (pre ++ hrefOpen ++ url ++ dquote :: rest)))
      as [[c' s1']|] eqn:E; [|done].
    apply anchor_of_match in E as [Ha HP'].
    apply Hfirst in Ha; [|done].
    rewrite length_take, length_app in Ha. lia.
  - apply r_sound in Hm as (url' & -> & Hs & Hq' & _).
    apply app_inv_head in Hs.
    by destruct (split_at_first dquote _ _ _ _ Hs Hq Hq') as [-> _].
Qed.

Lemma search_none (content : str) :
  (forall pre url, anchorAt content pre url -> ~ P url) ->
  findStringSubmatch r content = None.
Proof.
  intros Hnone. apply findStringSubmatch_none. intros i Hi.
  destruct (matchAt r (drop i content)) as [[c s1]|] eqn:E; [|done].
  apply anchor_of_match in E as [Ha HP]. by apply Hnone in Ha.
Qed.

End AnchorSearch.

Lemma matchString_Lit (l s : str) : matchString (Lit l) s = contains s l.
Proof.
  unfold matchString. induction s as [|a s IH]; simpl.
  - unfold matchAt. simpl. by destruct (hasPrefix [] l).
  - unfold matchAt in *. simpl in *. destruct (hasPrefix (a :: s) l); [done|].
    simpl. apply IH.
Qed.

Lemma contains_char (a : ascii) (s : str) :
  contains s [a] = true <-> In a s.
Proof.
  induction s as [|b s IH]; simpl.
  - split; [discriminate | done].
  - rewrite orb_true_iff, andb_true_r, bool_decide_eq_true, IH.
    split; intros [H|H]; auto.
Qed.

Lemma endsInDisposition_nonempty (url : str) :
  endsInDisposition url -> url <> [].
Proof.
  intros (path & Hpath & ->). destruct path; [done|]. discriminate.
Qed.

(** C8, amended. The download link of an element is the first link of its
    content that ends in [?disposition=attachment] after a non-empty path,
    returned as it stands, wherever blob links may stand around it. When no
    link ends so, it is the first storage-blob redirect path, with
    [?disposition=attachment] appended when the path holds no [?] and as it
    stands when it holds one. When there is neither, no link is resolved. *)
Theorem resolveDownloadURL_links (content : str) :
  (forall pre url,
     firstAnchor endsInDisposition content pre url ->
     resolveDownloadURL content = url)
  /\ (forall pre url,
        (forall pre' url',
           anchorAt content pre' url' -> ~ endsInDisposition url') ->
        firstAnchor isBlobPath content pre url ->
        (~ In "?"%char url ->
         resolveDownloadURL content = url ++ dispositionQuery)
        /\ (In "?"%char url -> resolveDownloadURL content = url))
  /\ ((forall pre' url',
         anchorAt content pre' url' ->
         ~ endsInDisposition url' /\ ~ isBlobPath url') ->
      resolveDownloadURL content = []).
Proof.
  unfold resolveDownloadURL. repeat split.
  - intros pre url Hfirst.
    destruct (search_first downloadURLRegex endsInDisposition
                downloadURLRegex_sound downloadURLRegex_complete
                content pre url Hfirst) as (c & -> & ->).
    destruct Hfirst as (_ & Hd & _).
    apply endsInDisposition_nonempty in Hd.
    apply streq_false in Hd. by rewrite Hd.
  - intros Hq.
    rewrite (search_none downloadURLRegex endsInDisposition
               downloadURLRegex_sound content) by done.
    rewrite streq_refl.
    destruct (search_first blobURLRegex isBlobPath blobURLRegex_sound
                blobURLRegex_complete content pre url)
      as (c & -> & ->); [done|].
    unfold questionMarkRegex. rewrite matchString_Lit.
    destruct (contains url (lit "?")) eqn:E; [|done].
    change (lit "?") with ["?"%char] in E. apply contains_char in E. done.
  - intros Hq.
    rewrite (search_none downloadURLRegex endsInDisposition
               downloadURLRegex_sound content) by done.
    rewrite streq_refl.
    destruct (search_first blobURLRegex isBlobPath blobURLRegex_sound
                blobURLRegex_complete content pre url)
      as (c & -> & ->); [done|].
    unfold questionMarkRegex. rewrite matchString_Lit.
    apply contains_char in Hq. change ["?"%char] with (lit "?") in Hq.
    by rewrite Hq.
  - intros Hnone.
    rewrite (search_none downloadURLRegex endsInDisposition
               downloadURLRegex_sound content).
    2:{ intros pre url Ha. by apply Hnone in Ha as [? ?]. }
    rewrite streq_refl.
    rewrite (search_none blobURLRegex isBlobPath blobURLRegex_sound
               content).
    2:{ intros pre url Ha. by apply Hnone in Ha as [? ?]. }
    done.
Qed.

(** A link is the first one when no link starts in the text before it. *)
Lemma firstAnchor_intro (P : str -> Prop) (pre url rest : str) :
  contains pre hrefOpen = false -> ~ In dquote url -> P url ->
  firstAnchor P (pre ++ hrefOpen ++ url ++ dquote :: rest) pre url.
Proof.
  intros Hpre Hq HP. repeat split; [by exists rest | done |].
  intros pre' url' [rest' [Heq _]] _.
  destruct (decide (length pre <= length pre')%nat) as [|Hlt]; [done|].
  exfalso.
  pose proof (no_straddle "h"%char (lit "ref=" ++ [dquote]) pre
                (hrefOpen ++ url ++ dquote :: rest) (length pre')) as H.
  rewrite Heq, drop_app_length in H.
  change ("h"%char :: lit "ref=" ++ [dquote]) with hrefOpen in H.
  rewrite hasPrefix_app in H. discriminate H; try done; try lia.
  vm_compute. intuition discriminate.
Qed.

(** The link of the first anchor is returned unchanged when it ends in
    [?disposition=attachment]. *)
Lemma resolveDownloadURL_unchanged (pre url rest : str) :
  contains pre hrefOpen = false -> ~ In dquote url ->
  endsInDisposition url ->
  resolveDownloadURL (pre ++ hrefOpen ++ url ++ dquote :: rest) = url.
Proof.
  intros Hpre Hq Hd.
  apply (proj1 (resolveDownloadURL_links _) pre url).
  by apply firstAnchor_intro.
Qed.

(** A link that ends in [?disposition=attachment] wins over a blob link that
    stands before it. *)
Example resolveDownloadURL_prefers_disposition :
  resolveDownloadURL
    (markup "<a href='/6086023/rails/active_storage/blobs/redirect/abc/a.png'>a.png</a><a href='/blobs/abc/a.png?disposition=attachment'>Download</a>")
  = lit "/blobs/abc/a.png?disposition=attachment".
Proof. vm_compute. reflexivity. Qed.

Example resolveDownloadURL_blob_without_query :
  resolveDownloadURL
    (markup "<a href='/6086023/rails/active_storage/blobs/redirect/abc/a.png'>a.png</a>")
  = lit "/6086023/rails/active_storage/blobs/redirect/abc/a.png?disposition=attachment".
Proof. vm_compute. reflexivity. Qed.

Example resolveDownloadURL_blob_with_query :
  resolveDownloadURL
    (markup "<a href='/6086023/rails/active_storage/blobs/redirect/abc/a.png?locale=en'>a.png</a>")
  = lit "/6086023/rails/active_storage/blobs/redirect/abc/a.png?locale=en".
Proof. vm_compute. reflexivity. Qed.

(** C8 as stated fails: a link whose query string holds
    [disposition=attachment] after another parameter is not taken. Alone it
    resolves to nothing, and beside a blob link the blob link is used. *)
Lemma resolveDownloadURL_query_not_recognised :
  let url := lit "/files/7?v=2&disposition=attachment" in
  let content :=
    markup "<a href='/files/7?v=2&disposition=attachment'>Download</a>" in
  content = lit "<a " ++ hrefOpen ++ url ++ dquote :: lit ">Download</a>"
  /\ contains url (lit "?") = true
  /\ contains url (lit "disposition=attachment") = true
  /\ resolveDownloadURL content = []
  /\ resolveDownloadURL
       (markup "<a href='/6/rails/active_storage/blobs/redirect/k/a.png'>a</a>"
        ++ content)
     = lit "/6/rails/active_storage/blobs/redirect/k/a.png?disposition=attachment".
Proof. vm_compute. repeat split. Qed.

(** ** Replacing the first occurrence *)

Lemma replaceFirst_occurs (s old new : str) :
  occursIn old s ->
  substitutedOnce old new s (replaceFirst s old new).
Proof.
  intros Hocc. induction s as [|a s IH].
  - destruct Hocc as (pre & post & H).
    destruct pre; [|discriminate]. destruct old; [|discriminate].
    simpl in H. subst post. exists [], []. simpl. repeat split.
    intros pre' post' H'. lia.
  - simpl. destruct (hasPrefix (a :: s) old) eqn:E.
    + apply hasPrefix_true in E as [post E].
      exists [], post. rewrite E, drop_app_length. repeat split.
      intros pre' post' _. simpl. lia.
    + assert (occursIn old s) as Hs.
      { destruct Hocc as (pre & post & H). destruct pre as [|b pre].
        - apply hasPrefix_false in E. destruct E. by exists post.
        - injection H as -> ->. by exists pre, post. }
      destruct (IH Hs) as (pre & post & -> & -> & Hfirst).
      exists (a :: pre), post. repeat split.
      intros [|b pre'] post' H'; simpl in H'.
      * apply hasPrefix_false in E. destruct E. exists post'.
        by rewrite H'.
      * injection H' as -> H'. apply Hfirst in H'. simpl. lia.
Qed.

Lemma replaceFirst_absent (s old new : str) :
  contains s old = false -> replaceFirst s old new = s.
Proof.
  induction s as [|a s IH]; simpl; rewrite orb_false_iff; intros [-> H].
  - done.
  - by rewrite IH.
Qed.

(** A substitution whose occurrence ends inside [front] leaves what follows
    [front] in place. *)
Lemma substitutedOnce_keeps_rest (old new front rest t : str) :
  occursIn old front ->
  substitutedOnce old new (front ++ rest) t ->
  exists front', t = front' ++ rest.
Proof.
  intros (u & v & ->) (pre & post & Hs & -> & Hfirst).
  assert (length pre <= length u)%nat as Hle.
  { apply (Hfirst u (v ++ rest)). by rewrite <- !app_assoc. }
  assert (post = drop (length pre + length old) ((u ++ old ++ v) ++ rest))
    as Hpost.
  { rewrite Hs, app_assoc, drop_app_length'; [done|].
    by rewrite length_app. }
  rewrite drop_app_le in Hpost.
  2:{ rewrite !length_app. lia. }
  exists (pre ++ new ++ drop (length pre + length old) (u ++ old ++ v)).
  by rewrite Hpost, <- !app_assoc.
Qed.
(** ** Where the parser reads the sgid *)

(** Brings both sides of an equation between concatenations to the same
    bracketing. *)
Ltac same_bracketing :=
  repeat (rewrite <- app_assoc || rewrite <- app_comm_cons); try done.

Lemma occursIn_app_l (sub s t : str) : occursIn sub s -> occursIn sub (s ++ t).
Proof.
  intros (pre & post & ->). exists pre, (post ++ t).
  by rewrite <- !app_assoc.
Qed.

Lemma occursIn_app_r (sub s t : str) : occursIn sub t -> occursIn sub (s ++ t).
Proof.
  intros (pre & post & ->). exists (s ++ pre), post.
  by rewrite <- !app_assoc.
Qed.

Lemma sgidIn_inner (v pre e post : str) :
  sgidIn v e -> sgidIn v (pre ++ e ++ post).
Proof.
  intros [Hq [->|H]]; split; auto.
  right. by apply occursIn_app_r, occursIn_app_l.
Qed.

Lemma attrRegex_sound (name s s1 : str) (c : captures) :
  matchAt (attrRegex name) s = Some (c, s1) ->
  exists v,
    group c 1 = v /\ ~ In dquote v /\
    s = (name ++ lit "=") ++ dquote :: v ++ dquote :: s1.
Proof.
  intros H. apply matchAt_sound in H.
  unfold attrRegex in H. invert_Matches.
  match goal with
  | |- context [take ?n ?s] => replace (take n s) with l
  end.
  2:{ symmetry. apply (take_length_diff l ([dquote] ++ s1)). }
  exists l. simpl. repeat split.
  - by apply Forall_notQuote.
  - by rewrite <- !app_assoc.
Qed.

Lemma extractAttr_sgidIn (attrs name : str) :
  sgidIn (extractAttr attrs name) attrs.
Proof.
  unfold extractAttr.
  destruct (findStringSubmatch (attrRegex name) attrs) as [c|] eqn:E.
  - apply findStringSubmatch_sound in E as (pre & s0 & s1 & -> & Hm & _).
    apply attrRegex_sound in Hm as (v & -> & Hq & ->).
    split; [done|]. right.
    exists (pre ++ name ++ lit "="), s1. same_bracketing.
  - split; [|by left]. simpl. tauto.
Qed.

Lemma attachmentRegex_sound (e rest : str) (c : captures) :
  matchAt attachmentRegex (e ++ rest) = Some (c, rest) ->
  occursIn (group c 1) e.
Proof.
  intros H. apply matchAt_sound in H.
  unfold attachmentRegex, Plus in H.
  remember (e ++ rest) as s eqn:Hs. invert_Matches.
  match goal with
  | He : openTag ++ ?w :: ?ws ++ ?b :: ?attrs ++ lit ">" ++ ?content
         ++ closeTag ++ rest = e ++ rest |- _ =>
      assert (e = (openTag ++ w :: ws) ++ (b :: attrs)
                  ++ (lit ">" ++ content ++ closeTag)) as ->
        by (apply (app_inv_tail rest); rewrite <- He; same_bracketing);
      exists (openTag ++ w :: ws), (lit ">" ++ content ++ closeTag);
      cbn [group Nat.eqb];
      match goal with
      | |- context [take ?n ?s] =>
          replace (take n s) with (b :: attrs)
            by (symmetry;
                apply (take_length_diff (b :: attrs)
                         (lit ">" ++ content ++ closeTag ++ rest)))
      end;
      done
  end.
Qed.

(** *** The matches lie one after the other *)

Lemma matchedIn_prefix (r : regex) (ms : list captures) (y s : str) :
  matchedIn r ms s -> matchedIn r ms (y ++ s).
Proof.
  intros [s'|c ms' x e rest Hm Hms]; [constructor|].
  rewrite app_assoc. by constructor.
Qed.

Lemma findAll_matchedIn (r : regex) (s : str) (skip : nat) :
  matchedIn r (findAllStringSubmatch r s skip) (drop skip s).
Proof.
  revert skip. induction s as [|a s IH]; intros skip.
  - simpl. destruct skip; [|constructor].
    destruct (matchAt r []) as [[c rest]|] eqn:E; [|constructor].
    pose proof (matchAt_sound _ _ _ _ E) as M.
    apply Matches_suffix in M as [l Hl].
    symmetry in Hl. apply app_eq_nil in Hl as [-> ->].
    apply (matchedIn_cons r c [] [] [] []); [done | constructor].
  - destruct skip as [|n]; simpl; [|apply IH].
    destruct (matchAt r (a :: s)) as [[c rest]|] eqn:E.
    + pose proof (matchAt_sound _ _ _ _ E) as M.
      apply Matches_suffix in M as [l Hl].
      destruct l as [|b l]; simpl in Hl.
      * subst rest.
        match goal with
        | |- context [findAllStringSubmatch r s ?n] =>
            replace n with 0%nat by (simpl; lia)
        end.
        apply (matchedIn_cons r c _ [] [] (a :: s)); [done|].
        apply (matchedIn_prefix r _ [a]). apply (IH 0%nat).
      * injection Hl as <- ->.
        match goal with
        | |- context [findAllStringSubmatch r _ ?n] =>
            replace n with (length l) by (simpl; rewrite length_app; lia)
        end.
        apply (matchedIn_cons r c _ [] (a :: l) rest); [done|].
        pose proof (IH (length l)) as H.
        by rewrite drop_app_length in H.
    + apply (matchedIn_prefix r _ [a]). apply (IH 0%nat).
Qed.

Lemma located_prefix (l : list Attachment) (y s : str) :
  located l s -> located l (y ++ s).
Proof.
  intros [s'|a l' x e rest Ha Hl]; [constructor|].
  rewrite app_assoc. by constructor.
Qed.

Lemma collect_located (i : nat) (ms : list captures) (s : str) :
  matchedIn attachmentRegex ms s -> located (collectAttachments i ms) s.
Proof.
  intros H. revert i. induction H as [s|c ms x e rest Hm Hms IH]; intros i;
    simpl; constructor; [|apply IH].
  apply attachmentRegex_sound in Hm as (pre & post & ->).
  apply sgidIn_inner. apply extractAttr_sgidIn.
Qed.

Lemma filter_located (l : list Attachment) (s : str) :
  located l s -> located (List.filter kept l) s.
Proof.
  induction 1 as [s|a l x e rest Ha Hl IH]; simpl; [constructor|].
  destruct (kept a); [by constructor|].
  rewrite app_assoc. by apply located_prefix.
Qed.

Lemma reindex_located (i : nat) (l : list Attachment) (s : str) :
  located l s -> located (reindexFrom i l) s.
Proof.
  intros H. revert i. induction H as [s|a l x e rest Ha Hl IH]; intros i;
    simpl; constructor; auto.
Qed.

Lemma parseAttachments_located (html : str) :
  located (parseAttachments html) html.
Proof.
  rewrite parseAttachments_eq.
  apply reindex_located, filter_located, collect_located.
  apply (findAll_matchedIn attachmentRegex html 0).
Qed.

Lemma located_sgidIn (l : list Attachment) (s : str) (a : Attachment) :
  located l s -> In a l -> sgidIn (SGID a) s.
Proof.
  induction 1 as [s|b l x e rest Hb Hl IH]; simpl; [done|].
  intros [->|Hin].
  - by apply sgidIn_inner.
  - rewrite app_assoc. destruct (IH Hin) as [Hq [->|H]]; split; auto.
    right. by apply occursIn_app_r.
Qed.

(** ** Inline attachments *)

Lemma run_forEach_cons {W X S : Type} (h : W -> request -> W * reply)
    (w : W) (x : X) (xs : list X) (body : S -> X -> Prog S) (s : S) :
  run h w (forEach (x :: xs) body s) =
  let '(s1, w1, t1) := run h w (body s x) in
  let '(s2, w2, t2) := run h w1 (forEach xs body s1) in
  (s2, w2, t1 ++ t2).
Proof. simpl. apply run_bind. Qed.

(** One turn of the loop either leaves the text and the counter alone, or
    it has downloaded the file, uploaded it, got a new sgid, and replaces
    the first occurrence of the old sgid and counts one more. *)
Lemma inlineAttachmentStep_cases {W : Type} (h : W -> request -> W * reply)
    (w : W) (g : globals) (src tgt : str) (result : str) (count : Z)
    (a : Attachment) :
  let r := run h w (inlineAttachmentStep g src tgt (result, count) a) in
  resultOf r = (result, count)
  \/ exists resp,
       SGID a <> [] /\ uploadedSGID resp <> [] /\
       In (UploadFile tgt (attachmentTempFile g a), Ok resp) (traceOf r) /\
       resultOf r
       = (replaceFirst result (SGID a) (uploadedSGID resp), count + 1).
Proof.
  unfold inlineAttachmentStep, uploadedSGID, resultOf, traceOf.
  fold (attachmentTempFile g a).
  destruct (streq (DownloadURL a) []); [by left|].
  run_norm.
  destruct (h w (DownloadFile _ _ _)) as [w1 [dresp|derr]]; cbn [fst snd].
  2:{ left. run_norm. repeat next_reply h; done. }
  run_norm.
  destruct (h w1 (UploadFile _ _)) as [w2 [resp|uerr]] eqn:Hu;
    cbn [fst snd].
  2:{ left. run_norm. repeat next_reply h; done. }
  run_norm.
  destruct (h w2 (Remove _)) as [w3 ?]; cbn [fst snd].
  destruct (Data resp) as [| | | | | |uploadData] eqn:Hdata;
    try (left; run_norm; repeat next_reply h; done).
  set (newSGID := if streq (getStringField uploadData (lit "attachable_sgid")) []
                  then getStringField uploadData (lit "signed_id")
                  else getStringField uploadData (lit "attachable_sgid")).
  destruct (streq newSGID []) eqn:Hnew.
  { left. run_norm. repeat next_reply h; done. }
  destruct (streq (SGID a) []) eqn:Hsgid; cbn [negb]; run_norm; [by left|].
  right. exists resp. rewrite Hdata. fold newSGID.
  apply streq_false in Hnew, Hsgid. repeat split; try done.
  right. by left.
Qed.


(** A failed download, or a failed upload, leaves the text and the counter
    alone. *)
Lemma inlineAttachmentStep_fails {W : Type}
    (h : W -> request -> W * reply) (w : W) (g : globals)
    (src tgt : str) (st : str * Z) (a : Attachment) :
  (exists w1 err,
     h w (DownloadFile src (DownloadURL a) (attachmentTempFile g a))
       = (w1, Failed err))
  \/ (exists w1 w2 dresp err,
        h w (DownloadFile src (DownloadURL a) (attachmentTempFile g a))
          = (w1, Ok dresp)
        /\ h w1 (UploadFile tgt (attachmentTempFile g a))
           = (w2, Failed err)) ->
  resultOf (run h w (inlineAttachmentStep g src tgt st a)) = st.
Proof.
  intros Hfail. destruct st as [result count].
  unfold inlineAttachmentStep, resultOf.
  destruct (streq (DownloadURL a) []); [done|].
  fold (attachmentTempFile g a).
  run_norm.
  destruct Hfail as [(w1 & err & ->)|(w1 & w2 & dresp & err & -> & Hu)];
    cbn [fst snd]; run_norm.
  - done.
  - rewrite Hu. cbn [fst snd]. by run_norm.
Qed.

Lemma occursIn_quoted (v e : str) :
  occursIn (dquote :: v ++ [dquote]) e -> occursIn v e.
Proof.
  intros (pre & post & ->). exists (pre ++ [dquote]), (dquote :: post).
  same_bracketing.
Qed.

(** What the statement says of one substitution of the loop. *)
Definition migratedStep {W : Type} (g : globals) (tgt : str)
    (atts : list Attachment) (r : (str * Z) * W * trace)
    (ar : Attachment * APIResponse) : Prop :=
  In ar.1 atts /\ SGID ar.1 <> [] /\ uploadedSGID ar.2 <> [] /\
  In (UploadFile tgt (attachmentTempFile g ar.1), Ok ar.2) (traceOf r).

Lemma inline_loop {W : Type} (h : W -> request -> W * reply) (g : globals)
    (src tgt : str) (atts : list Attachment) (s : str) :
  located atts s ->
  forall (X : str) (count : Z) (w : W),
    let r := run h w (forEach atts (inlineAttachmentStep g src tgt)
                        (X ++ s, count)) in
    exists steps : list (Attachment * APIResponse),
      substitutions (map (fun ar => (SGID ar.1, uploadedSGID ar.2)) steps)
        (X ++ s) (resultOf r).1
      /\ (resultOf r).2 = count + Z.of_nat (length steps)
      /\ Forall (migratedStep g tgt atts r) steps.
Proof.
  induction 1 as [s|a l x e rest Ha Hl IH]; intros X count w.
  - exists []. simpl. repeat split; [constructor | lia | constructor].
  - cbv zeta. rewrite run_forEach_cons.
    pose proof (inlineAttachmentStep_cases h w g src tgt
                  (X ++ x ++ e ++ rest) count a) as Hstep.
    cbv zeta in Hstep.
    destruct (run h w (inlineAttachmentStep g src tgt
                         (X ++ x ++ e ++ rest, count) a))
      as [[st1 w1] t1].
    unfold resultOf, traceOf in Hstep. cbn [fst snd] in Hstep.
    destruct Hstep as [-> | (resp & Hsgid & Hnew & Hin & ->)].
    + (* nothing replaced *)
      replace (X ++ x ++ e ++ rest) with ((X ++ x ++ e) ++ rest)
        by same_bracketing.
      destruct (IH (X ++ x ++ e) count w1) as (steps & Hsubs & Hcount & Hall).
      destruct (run h w1 (forEach l (inlineAttachmentStep g src tgt)
                            ((X ++ x ++ e) ++ rest, count)))
        as [[st2 w2] t2].
      exists steps. unfold resultOf, traceOf in *. cbn [fst snd] in *.
      repeat split; [done | done |].
      eapply Forall_impl; [exact Hall|].
      intros ar (H1 & H2 & H3 & H4). unfold migratedStep, traceOf.
      cbn [fst snd] in *. repeat split; auto.
      * by right.
      * apply in_app_iff. by right.
    + (* the first occurrence of the sgid replaced *)
      assert (occursIn (SGID a) (X ++ x ++ e)) as Hfront.
      { destruct Ha as [_ [?|Hocc]]; [done|].
        apply occursIn_quoted in Hocc.
        rewrite app_assoc. by apply occursIn_app_r. }
      assert (substitutedOnce (SGID a) (uploadedSGID resp)
                (X ++ x ++ e ++ rest)
                (replaceFirst (X ++ x ++ e ++ rest) (SGID a)
                   (uploadedSGID resp))) as Hone.
      { apply replaceFirst_occurs.
        replace (X ++ x ++ e ++ rest) with ((X ++ x ++ e) ++ rest)
          by same_bracketing.
        by apply occursIn_app_l. }
      destruct (substitutedOnce_keeps_rest (SGID a) (uploadedSGID resp)
                  (X ++ x ++ e) rest
                  (replaceFirst (X ++ x ++ e ++ rest) (SGID a)
                     (uploadedSGID resp)) Hfront) as [front' Hfront'].
      { by replace ((X ++ x ++ e) ++ rest) with (X ++ x ++ e ++ rest)
          by same_bracketing. }
      rewrite Hfront' in *.
      destruct (IH front' (count + 1) w1) as (steps & Hsubs & Hcount & Hall).
      destruct (run h w1 (forEach l (inlineAttachmentStep g src tgt)
                            (front' ++ rest, count + 1)))
        as [[st2 w2] t2].
      exists ((a, resp) :: steps).
      unfold resultOf, traceOf in *. cbn [fst snd] in *.
      repeat split.
      * simpl. by econstructor.
      * rewrite Hcount. simpl length. lia.
      * constructor.
        -- unfold migratedStep, traceOf. cbn [fst snd].
           repeat split; auto; [by left | apply in_app_iff; by left].
        -- eapply Forall_impl; [exact Hall|].
           intros ar (H1 & H2 & H3 & H4). unfold migratedStep, traceOf.
           cbn [fst snd] in *. repeat split; auto.
           ++ by right.
           ++ apply in_app_iff. by right.
Qed.

Lemma migrateInlineAttachments_steps {W : Type}
    (h : W -> request -> W * reply) (w : W) (g : globals)
    (src tgt html : str) :
  let r := run h w (migrateInlineAttachments g src tgt html) in
  exists steps : list (Attachment * APIResponse),
    substitutions (map (fun ar => (SGID ar.1, uploadedSGID ar.2)) steps)
      html (resultOf r).1.1
    /\ (resultOf r).1.2 = Z.of_nat (length steps)
    /\ (resultOf r).2 = None
    /\ Forall (fun ar =>
                 In ar.1 (parseAttachments html) /\ SGID ar.1 <> [] /\
                 uploadedSGID ar.2 <> [] /\
                 In (UploadFile tgt (attachmentTempFile g ar.1), Ok ar.2)
                    (traceOf r)) steps.
Proof.
  cbv zeta. unfold migrateInlineAttachments.
  pose proof (parseAttachments_located html) as Hloc.
  destruct (parseAttachments html) as [|a atts] eqn:Hparse.
  - exists []. unfold resultOf. simpl. repeat split; constructor.
  - pose proof (inline_loop h g src tgt (a :: atts) html Hloc [] 0 w)
      as (steps & Hsubs & Hcount & Hall).
    cbv zeta in *. rewrite run_bind. simpl app in *.
    destruct (run h w (forEach (a :: atts)
                         (inlineAttachmentStep g src tgt) (html, 0)))
      as [[st w1] t1].
    exists steps. unfold resultOf, traceOf in *. cbn [fst snd] in *.
    rewrite run_ret. cbn [fst snd]. repeat split; [done | lia |].
    eapply Forall_impl; [exact Hall|].
    intros ar (H1 & H2 & H3 & H4). unfold traceOf in *.
    cbn [fst snd] in *. rewrite app_nil_r. auto.
Qed.


(** ** What a failed reference leaves behind *)

(** A substitution of a quote-free [old] that does not occur in [v] leaves
    an occurrence of [v] between quotes in place. *)
Lemma replaceFirst_keeps_quoted (s old new v : str) :
  ~ In dquote old -> ~ occursIn old v ->
  occursIn (dquote :: v ++ [dquote]) s ->
  occursIn (dquote :: v ++ [dquote]) (replaceFirst s old new).
Proof.
  intros Hq Hv Hs.
  assert (old <> []) as Hold.
  { intros ->. apply Hv. by exists [], v. }
  destruct (contains s old) eqn:Hc.
  2:{ by rewrite replaceFirst_absent. }
  apply contains_occursIn in Hc.
  destruct (replaceFirst_occurs s old new Hc) as (pre & post & Hs' & -> & _).
  destruct Hs as (a & b & ->).
  assert (forall k x, dquote :: x = k ++ old ++ post -> k <> []) as Hhead.
  { intros k x Hk ->. destruct old as [|c old]; [done|].
    injection Hk as <- _. apply Hq. by left. }
  replace (a ++ (dquote :: v ++ [dquote]) ++ b)
    with (a ++ dquote :: v ++ dquote :: b) in Hs' by same_bracketing.
  apply app_eq_inv in Hs' as [(k & Hk1 & Hk2) | (k & Hk1 & Hk2)].
  - (* the occurrence starts before the quoted part *)
    apply app_eq_inv in Hk2 as [(k2 & Hk3 & Hk4) | (k2 & Hk3 & Hk4)].
    + destruct k2 as [|c k2].
      * (* and ends right before it *)
        rewrite app_nil_r in Hk3. simpl in Hk4. subst.
        exists (pre ++ new), b. same_bracketing.
      * exfalso. injection Hk4 as <- _. apply Hq. rewrite Hk3.
        apply in_app_iff. right. by left.
    + (* and ends before it *)
      subst. exists (pre ++ new ++ k2), b. same_bracketing.
  - (* the occurrence starts after the quoted part begins *)
    destruct k as [|c k]; [by apply Hhead in Hk2|].
    injection Hk2 as <- Hk2.
    apply app_eq_inv in Hk2 as [(k2 & Hv1 & Hk2) | (k2 & Hk1' & Hk2)].
    + (* it starts inside [v] *)
      exfalso.
      apply app_eq_inv in Hk2 as [(k3 & Hk3 & Hk4) | (k3 & Hk3 & Hk4)].
      * destruct k3 as [|c k3].
        -- rewrite app_nil_r in Hk3. apply Hv. exists k, [].
           by rewrite Hv1, Hk3, app_nil_r.
        -- injection Hk4 as <- _. apply Hq. rewrite Hk3.
           apply in_app_iff. right. by left.
      * apply Hv. exists k, k3. by rewrite Hv1, Hk3.
    + (* it starts after the closing quote *)
      destruct k2 as [|c k2]; [by apply Hhead in Hk2|].
      injection Hk2 as <- ->. subst pre k.
      exists a, (k2 ++ new ++ post). same_bracketing.
Qed.

Lemma run_forEach_app {W X S : Type} (h : W -> request -> W * reply)
    (w : W) (l1 l2 : list X) (body : S -> X -> Prog S) (s : S) :
  run h w (forEach (l1 ++ l2) body s) =
  let '(s1, w1, t1) := run h w (forEach l1 body s) in
  let '(s2, w2, t2) := run h w1 (forEach l2 body s1) in
  (s2, w2, t1 ++ t2).
Proof.
  revert w s. induction l1 as [|x l1 IH]; intros w s.
  - simpl. by destruct (run h w (forEach l2 body s)) as [[s2 w2] t2].
  - simpl app. rewrite !run_forEach_cons.
    destruct (run h w (body s x)) as [[s0 w0] t0]. rewrite IH.
    destruct (run h w0 (forEach l1 body s0)) as [[s1 w1] t1].
    destruct (run h w1 (forEach l2 body s1)) as [[s2 w2] t2].
    by rewrite app_assoc.
Qed.

(** The counter grows by at most one a turn. *)
Lemma inline_loop_count {W : Type} (h : W -> request -> W * reply)
    (g : globals) (src tgt : str) (l : list Attachment) (w : W)
    (st : str * Z) :
  st.2 <= (resultOf (run h w (forEach l (inlineAttachmentStep g src tgt)
                                st))).2
       <= st.2 + Z.of_nat (length l).
Proof.
  revert w st. induction l as [|a l IH]; intros w [result count].
  - unfold resultOf. simpl. lia.
  - rewrite run_forEach_cons.
    pose proof (inlineAttachmentStep_cases h w g src tgt result count a)
      as Hstep. cbv zeta in Hstep.
    destruct (run h w (inlineAttachmentStep g src tgt (result, count) a))
      as [[st1 w1] t1].
    specialize (IH w1 st1).
    destruct (run h w1 (forEach l (inlineAttachmentStep g src tgt) st1))
      as [[st2 w2] t2].
    unfold resultOf in *. cbn [fst snd] in *. simpl length.
    destruct Hstep as [-> | (resp & _ & _ & _ & ->)]; cbn [fst snd] in *;
      lia.
Qed.

(** The turns of references whose sgid does not occur in [v] leave [v]
    between its quotes. *)
Lemma inline_loop_keeps_quoted {W : Type} (h : W -> request -> W * reply)
    (g : globals) (src tgt : str) (v : str) (l : list Attachment) (w : W)
    (st : str * Z) :
  Forall (fun b => ~ In dquote (SGID b) /\ ~ occursIn (SGID b) v) l ->
  occursIn (dquote :: v ++ [dquote]) st.1 ->
  occursIn (dquote :: v ++ [dquote])
    (resultOf (run h w (forEach l (inlineAttachmentStep g src tgt) st))).1.
Proof.
  intros Hl. revert w st.
  induction Hl as [|a l [Hq Hv] Hl IH]; intros w [result count] Hst.
  - done.
  - rewrite run_forEach_cons.
    pose proof (inlineAttachmentStep_cases h w g src tgt result count a)
      as Hstep. cbv zeta in Hstep.
    destruct (run h w (inlineAttachmentStep g src tgt (result, count) a))
      as [[st1 w1] t1].
    specialize (IH w1 st1).
    destruct (run h w1 (forEach l (inlineAttachmentStep g src tgt) st1))
      as [[st2 w2] t2].
    unfold resultOf in *. cbn [fst snd] in *. apply IH.
    destruct Hstep as [-> | (resp & _ & _ & _ & ->)]; cbn [fst snd] in *;
      [done|].
    by apply replaceFirst_keeps_quoted.
Qed.

(** *** The description of the new card *)

Lemma substitutions_nonempty (steps : list (str * str)) (s t : str) :
  substitutions steps s t -> steps <> [] ->
  Forall (fun on => on.2 <> []) steps -> t <> [].
Proof.
  induction 1 as [s|old new steps s s' t Hone Hsubs IH]; [done|].
  intros _ Hall. inversion Hall as [|? ? Hnew Hall']; subst.
  destruct steps as [|step steps].
  - inversion Hsubs; subst. destruct Hone as (pre & post & _ & -> & _).
    simpl in Hnew. destruct pre; [|done]. destruct new; done.
  - by apply IH.
Qed.

(** With at least one reference migrated the migrated text is not empty. *)
Lemma migrateInlineAttachments_nonempty {W : Type}
    (h : W -> request -> W * reply) (w : W) (g : globals)
    (src tgt html : str) :
  let r := run h w (migrateInlineAttachments g src tgt html) in
  0 <= (resultOf r).1.2 /\ (0 < (resultOf r).1.2 -> (resultOf r).1.1 <> []).
Proof.
  cbv zeta.
  destruct (migrateInlineAttachments_steps h w g src tgt html)
    as (steps & Hsubs & Hcount & _ & Hall).
  split; [lia|]. intros Hpos.
  apply (substitutions_nonempty _ _ _ Hsubs).
  - destruct steps; [simpl in Hcount; lia | done].
  - apply Forall_map. eapply Forall_impl; [exact Hall|].
    by intros ar (_ & _ & H & _).
Qed.

Lemma run_cardDescription {W : Type} (h : W -> request -> W * reply)
    (w : W) (g : globals) (src tgt : str) (card : object)
    (stats : migrationStats) :
  migrateBoardIncludeImages g = true ->
  getStringField card (lit "description_html") <> [] ->
  let ri := run h w (migrateInlineAttachments g src tgt
                       (getStringField card (lit "description_html"))) in
  run h w (cardDescription g src tgt card stats)
  = (if 0 <? (resultOf ri).1.2
     then ((resultOf ri).1.1, addImagesMigrated stats (resultOf ri).1.2)
     else (getStringField card (lit "description"), stats),
     worldOf ri, traceOf ri).
Proof.
  intros Himg Hhtml. cbv zeta. unfold cardDescription.
  apply streq_false in Hhtml. rewrite Himg, Hhtml. cbn [andb negb].
  rewrite run_bind.
  pose proof (migrateInlineAttachments_steps h w g src tgt
                (getStringField card (lit "description_html")))
    as (_ & _ & _ & Herr & _).
  destruct (run h w (migrateInlineAttachments g src tgt
                       (getStringField card (lit "description_html"))))
    as [[[[migrated count] err] w1] t1].
  unfold resultOf, worldOf, traceOf in *. cbn [fst snd] in *. subst err.
  unfold warnIfError. run_norm.
  destruct (0 <? count); run_norm; by rewrite app_nil_r.
Qed.

(** The card-creation request follows the calls made for the description,
    whatever these were answered. *)
Lemma migrateCard_post {W : Type} (h : W -> request -> W * reply) (w : W)
    (g : globals) (src tgt : str) (card : object) (board : str)
    (mapping : gmap str str) (stats : migrationStats) :
  let rd := run h w (cardDescription g src tgt card stats) in
  let body :=
    cardRequestBody board (getStringField card (lit "title"))
      (resultOf rd).1 (getStringField card (lit "created_at")) in
  exists rest,
    traceOf (run h w (migrateCard g src tgt card board mapping stats))
    = traceOf rd
      ++ (Post tgt (lit "/cards.json") body,
          (h (worldOf rd) (Post tgt (lit "/cards.json") body)).2) :: rest.
Proof.
  cbv zeta. unfold migrateCard. rewrite run_bind.
  destruct (run h w (cardDescription g src tgt card stats))
    as [[[description stats'] wd] td].
  unfold resultOf, worldOf, traceOf. cbn [fst snd].
  rewrite run_bind, run_call by done. cbn [fst snd].
  match goal with
  | |- context [run h ?w1 ?p] =>
      destruct (run h w1 p) as [[b w2] t2]
  end.
  exists t2. done.
Qed.

Lemma sentDescription_body (board title description createdAt : str) :
  sentDescription (cardRequestBody board title description createdAt)
  = if streq description [] then JNull else JString description.
Proof.
  unfold sentDescription, cardRequestBody.
  destruct (streq description []), (streq createdAt []); reflexivity.
Qed.

(** C10. For a card migrated with images switched on and a non-empty
    [description_html]: the card-creation request follows the calls of the
    inline-attachment migration; when that migration reports at least one
    migrated attachment the request carries the migrated HTML as its
    description, and when it reports none (also when every reference
    failed) it carries the source's plain [description], which is left out
    of the request when it is empty. *)
Theorem migrateCard_description_choice {W : Type}
    (h : W -> request -> W * reply) (w : W) (g : globals) (src tgt : str)
    (card : object) (board : str) (mapping : gmap str str)
    (stats : migrationStats) :
  migrateBoardIncludeImages g = true ->
  getStringField card (lit "description_html") <> [] ->
  let html := getStringField card (lit "description_html") in
  let plain := getStringField card (lit "description") in
  let ri := run h w (migrateInlineAttachments g src tgt html) in
  let migrated := (resultOf ri).1.1 in
  let count := (resultOf ri).1.2 in
  let r := run h w (migrateCard g src tgt card board mapping stats) in
  exists body reply rest,
    traceOf r
    = traceOf ri ++ (Post tgt (lit "/cards.json") body, reply) :: rest
    /\ 0 <= count
    /\ (0 < count -> sentDescription body = JString migrated)
    /\ (count = 0 ->
        sentDescription body
        = if streq plain [] then JNull else JString plain).
Proof.
  intros Himg Hhtml. cbv zeta.
  destruct (migrateCard_post h w g src tgt card board mapping stats)
    as [rest Htrace]. cbv zeta in Htrace.
  rewrite (run_cardDescription h w g src tgt card stats Himg Hhtml)
    in Htrace.
  pose proof (migrateInlineAttachments_nonempty h w g src tgt
                (getStringField card (lit "description_html")))
    as [Hcount Hnonempty]. cbv zeta in Hnonempty, Hcount.
  destruct (run h w (migrateInlineAttachments g src tgt
                       (getStringField card (lit "description_html"))))
    as [[[[migrated count] err] wi] ti].
  unfold resultOf, worldOf, traceOf in *. cbn [fst snd] in *.
  eexists _, _, rest. split; [exact Htrace|].
  split; [done|]. rewrite sentDescription_body.
  split.
  - intros Hpos. apply Hnonempty in Hpos as Hne.
    apply Z.ltb_lt in Hpos. rewrite Hpos. cbn [fst].
    apply streq_false in Hne. by rewrite Hne.
  - intros Hzero. by rewrite Hzero.
Qed.

Lemma migrateCard_description_choice_witness :
  let h := sampleServer [] secondDownloadFails in
  let html := getStringField imageCard (lit "description_html") in
  let plain := getStringField imageCard (lit "description") in
  let ri := run h 0 (migrateInlineAttachments imagesGlobals (lit "acme")
                       (lit "beta") html) in
  let migrated := (resultOf ri).1.1 in
  let count := (resultOf ri).1.2 in
  let r := run h 0 (migrateCard imagesGlobals (lit "acme") (lit "beta")
                      imageCard (lit "t-board") ∅ emptyStats) in
  exists body reply rest,
    traceOf r
    = traceOf ri ++ (Post (lit "beta") (lit "/cards.json") body, reply)
                    :: rest
    /\ 0 <= count
    /\ (0 < count -> sentDescription body = JString migrated)
    /\ (count = 0 ->
        sentDescription body
        = if streq plain [] then JNull else JString plain).
Proof.
  apply (migrateCard_description_choice
           (sampleServer [] secondDownloadFails) 0 imagesGlobals
           (lit "acme") (lit "beta") imageCard (lit "t-board") ∅
           emptyStats).
  - reflexivity.
  - vm_compute. discriminate.
Defined.

(** One reference migrated out of two: the request carries the migrated
    HTML. None migrated: it carries the plain description. *)
Example migrateCard_description_examples :
  creationDescription
    (requestsOf (traceOf
       (run (sampleServer [] secondDownloadFails) 0
          (migrateCard imagesGlobals (lit "acme") (lit "beta") imageCard
             (lit "t-board") ∅ emptyStats))))
  = JString
      (markup "<p>Before</p><action-text-attachment sgid='attachable-1' content-type='image/png' filename='a.png'><a href='/blobs/1/a.png?disposition=attachment'>a.png</a></action-text-attachment><p>between</p><action-text-attachment sgid='old-sgid-2' content-type='image/png' filename='b.png'><a href='/blobs/2/b.png?disposition=attachment'>b.png</a></action-text-attachment><p>After</p>")
  /\ creationDescription
       (requestsOf (traceOf
          (run (sampleServer [] everyDownloadFails) 0
             (migrateCard imagesGlobals (lit "acme") (lit "beta") imageCard
                (lit "t-board") ∅ emptyStats))))
     = JString (lit "Before a.png between b.png After").
Proof. vm_compute. split; reflexivity. Qed.

(** *** A reference that fails *)

Lemma parseAttachments_nil : parseAttachments [] = [].
Proof. reflexivity. Qed.

(** With the transfer of [a] failing at its turn, the loop ends where the
    turns of the references before and after it lead. *)
Lemma inline_loop_skips_failed {W : Type} (h : W -> request -> W * reply)
    (w : W) (g : globals) (src tgt : str) (st : str * Z)
    (pre post : list Attachment) (a : Attachment) :
  let step := inlineAttachmentStep g src tgt in
  let r1 := run h w (forEach pre step st) in
  transferFails h (worldOf r1) g src tgt a ->
  exists w2,
    resultOf (run h w (forEach (pre ++ a :: post) step st))
    = resultOf (run h w2 (forEach post step (resultOf r1))).
Proof.
  cbv zeta. intros Hfail. rewrite run_forEach_app.
  pose proof (inlineAttachmentStep_fails h
                (worldOf (run h w (forEach pre
                                     (inlineAttachmentStep g src tgt) st)))
                g src tgt
                (resultOf (run h w (forEach pre
                                      (inlineAttachmentStep g src tgt) st)))
                a Hfail) as Hsame.
  destruct (run h w (forEach pre (inlineAttachmentStep g src tgt) st))
    as [[st1 w1] t1].
  unfold resultOf, worldOf in *. cbn [fst snd] in *.
  rewrite run_forEach_cons.
  destruct (run h w1 (inlineAttachmentStep g src tgt st1 a))
    as [[st2 w2] t2].
  cbn [fst snd] in Hsame. subst st2. exists w2.
  by destruct (run h w2 (forEach post (inlineAttachmentStep g src tgt) st1))
    as [[st3 w3] t3].
Qed.

(** C6, amended. Let the transfer of one inline reference of a card's
    description fail at its turn, the download or the upload. The failed
    reference is not counted: the counter is at most the number of the
    other references, and the statistics grow by the counter. The card is
    still created: the card-creation request follows. When at least one
    other reference was migrated the request carries the migrated HTML, and
    the sgid of the failed reference is still in it as long as no other
    reference's sgid is a part of it; when none was migrated the request
    carries the plain description instead. *)
Theorem failed_reference_stays {W : Type} (h : W -> request -> W * reply)
    (w : W) (g : globals) (src tgt : str) (card : object) (board : str)
    (mapping : gmap str str) (stats : migrationStats)
    (pre post : list Attachment) (a : Attachment) :
  migrateBoardIncludeImages g = true ->
  let html := getStringField card (lit "description_html") in
  let plain := getStringField card (lit "description") in
  parseAttachments html = pre ++ a :: post ->
  transferFails h
    (worldOf (run h w (forEach pre (inlineAttachmentStep g src tgt)
                         (html, 0))))
    g src tgt a ->
  let ri := run h w (migrateInlineAttachments g src tgt html) in
  let migrated := (resultOf ri).1.1 in
  let count := (resultOf ri).1.2 in
  let rd := run h w (cardDescription g src tgt card stats) in
  let r := run h w (migrateCard g src tgt card board mapping stats) in
  0 <= count <= Z.of_nat (length pre + length post)
  /\ imagesMigrated (resultOf rd).2 = imagesMigrated stats + count
  /\ exists body reply rest,
       traceOf r
       = traceOf ri ++ (Post tgt (lit "/cards.json") body, reply) :: rest
       /\ (0 < count ->
           sentDescription body = JString migrated
           /\ ((forall b, In b (pre ++ post) ->
                  ~ occursIn (SGID b) (SGID a)) ->
               occursIn (SGID a) migrated))
       /\ (count = 0 ->
           sentDescription body
           = if streq plain [] then JNull else JString plain).
Proof.
  intros Himg html plain Hparse Hfail. cbv zeta.
  assert (html <> []) as Hhtml.
  { intros E. rewrite E, parseAttachments_nil in Hparse.
    by destruct pre. }
  (* the loop, with the failed turn left out *)
  assert (exists w2,
            resultOf (run h w (migrateInlineAttachments g src tgt html))
            = (let r3 := run h w2 (forEach post
                           (inlineAttachmentStep g src tgt)
                           (resultOf (run h w (forEach pre
                              (inlineAttachmentStep g src tgt) (html, 0)))))
               in ((resultOf r3).1, (resultOf r3).2, None))) as [w2 Hri].
  { destruct (inline_loop_skips_failed h w g src tgt (html, 0) pre post a
                Hfail) as [w2 Hskip].
    exists w2. unfold migrateInlineAttachments. rewrite Hparse.
    destruct (pre ++ a :: post) eqn:E; [by destruct pre|].
    rewrite run_bind.
    destruct (run h w (forEach (a0 :: l) (inlineAttachmentStep g src tgt)
                         (html, 0))) as [[st wl] tl].
    unfold resultOf in *. cbn [fst snd] in *. subst st. by run_norm. }
  (* what the other turns do *)
  pose proof (inline_loop_count h g src tgt pre w (html, 0)) as Hpre.
  pose proof (located_sgidIn _ _ a (parseAttachments_located html))
    as Ha.
  rewrite Hparse in Ha. specialize (Ha ltac:(apply in_app_iff; right; by left)).
  assert (forall b, In b (pre ++ post) -> ~ In dquote (SGID b)) as Hquotes.
  { intros b Hb.
    apply (located_sgidIn _ _ b (parseAttachments_located html)).
    rewrite Hparse. apply in_app_iff. apply in_app_iff in Hb as [?|?]; auto.
    right. by right. }
  assert ((forall b, In b (pre ++ post) -> ~ occursIn (SGID b) (SGID a)) ->
          forall l, (forall b, In b l -> In b (pre ++ post)) ->
          forall w0 st,
            (SGID a = [] \/ occursIn (dquote :: SGID a ++ [dquote]) st.1) ->
            SGID a = [] \/
            occursIn (dquote :: SGID a ++ [dquote])
              (resultOf (run h w0 (forEach l
                           (inlineAttachmentStep g src tgt) st))).1)
    as Hkeep.
  { intros Hparts l Hl w0 st [He|Hocc]; [by left|]. right.
    apply inline_loop_keeps_quoted; [|done].
    apply Forall_forall. intros b Hb. apply list_elem_of_In in Hb.
    split; [apply Hquotes | apply Hparts]; auto. }
  assert ((forall b, In b (pre ++ post) -> ~ occursIn (SGID b) (SGID a)) ->
          SGID a = [] \/
          occursIn (dquote :: SGID a ++ [dquote])
            (resultOf (run h w (forEach pre
                         (inlineAttachmentStep g src tgt) (html, 0)))).1)
    as Hmid.
  { intros Hparts. apply (Hkeep Hparts pre).
    - intros b Hb. apply in_app_iff. by left.
    - by destruct Ha. }
  pose proof (run_cardDescription h w g src tgt card stats Himg Hhtml)
    as Hrd. cbv zeta in Hrd. fold html in Hrd.
  destruct (migrateCard_post h w g src tgt card board mapping stats)
    as [rest Htrace]. cbv zeta in Htrace. rewrite Hrd in Htrace.
  pose proof (migrateInlineAttachments_nonempty h w g src tgt html)
    as [Hcount Hnonempty]. cbv zeta in Hnonempty, Hcount.
  rewrite Hrd. clear Hrd.
  destruct (run h w (forEach pre (inlineAttachmentStep g src tgt) (html, 0)))
    as [[st1 w1] t1].
  pose proof (inline_loop_count h g src tgt post w2 st1) as Hpost.
  destruct (run h w (migrateInlineAttachments g src tgt html))
    as [[[[migrated count] err] wi] ti].
  unfold resultOf, worldOf, traceOf in *. cbn [fst snd] in *.
  injection Hri as -> -> ->.
  repeat split.
  - lia.
  - rewrite Nat2Z.inj_add. lia.
  - destruct (0 <? _) eqn:E; cbn [fst snd imagesMigrated addImagesMigrated];
      [done|]. apply Z.ltb_ge in E. lia.
  - eexists _, _, rest. split; [exact Htrace|].
    rewrite sentDescription_body. split.
    + intros Hpos. apply Hnonempty in Hpos as Hne.
      apply Z.ltb_lt in Hpos. rewrite Hpos. cbn [fst].
      apply streq_false in Hne. rewrite Hne. split; [done|].
      intros Hparts.
      destruct (Hkeep Hparts post
                  ltac:(intros b Hb; apply in_app_iff; by right)
                  w2 st1 (Hmid Hparts))
        as [->|H2]; [by eexists [], _|].
      by apply occursIn_quoted.
    + intros Hzero. by rewrite Hzero.
Qed.

Lemma failed_reference_stays_witness :
  let h := sampleServer [] secondDownloadFails in
  let ri := run h 0 (migrateInlineAttachments imagesGlobals (lit "acme")
                       (lit "beta") twoImages) in
  let migrated := (resultOf ri).1.1 in
  let count := (resultOf ri).1.2 in
  let rd := run h 0 (cardDescription imagesGlobals (lit "acme") (lit "beta")
                       imageCard emptyStats) in
  let r := run h 0 (migrateCard imagesGlobals (lit "acme") (lit "beta")
                      imageCard (lit "t-board") ∅ emptyStats) in
  0 <= count <= Z.of_nat (length [imageA] + length (@nil Attachment))
  /\ imagesMigrated (resultOf rd).2 = imagesMigrated emptyStats + count
  /\ exists body reply rest,
       traceOf r
       = traceOf ri
         ++ (Post (lit "beta") (lit "/cards.json") body, reply) :: rest
       /\ (0 < count ->
           sentDescription body = JString migrated
           /\ ((forall b, In b ([imageA] ++ []) ->
                  ~ occursIn (SGID b) (SGID imageB)) ->
               occursIn (SGID imageB) migrated))
       /\ (count = 0 ->
           sentDescription body
           = if streq (getStringField imageCard (lit "description")) []
             then JNull
             else JString (getStringField imageCard (lit "description"))).
Proof.
  apply (failed_reference_stays (sampleServer [] secondDownloadFails) 0
           imagesGlobals (lit "acme") (lit "beta") imageCard (lit "t-board")
           ∅ emptyStats [imageA] [] imageB).
  - reflexivity.
  - vm_compute. reflexivity.
  - left. eexists _, _. vm_compute. reflexivity.
Defined.

(** With one failure out of two references the counter is 1, and the
    description sent holds the new sgid of the first reference and the old
    sgid of the second. *)
Example failed_reference_one_of_two :
  let h := sampleServer [] secondDownloadFails in
  let r := run h 0 (migrateCard imagesGlobals (lit "acme") (lit "beta")
                      imageCard (lit "t-board") ∅ emptyStats) in
  imagesMigrated (resultOf r).1 = 1
  /\ (resultOf r).2 = (102, None)
  /\ exists desc,
       creationDescription (requestsOf (traceOf r)) = JString desc
       /\ contains desc (dquote :: lit "old-sgid-2" ++ [dquote]) = true
       /\ contains desc (dquote :: lit "attachable-1" ++ [dquote]) = true
       /\ contains desc (lit "old-sgid-1") = false.
Proof. vm_compute. repeat split. eexists. repeat split. Qed.

(** C6 as stated fails: when the only reference of a description fails,
    the card is created with the plain description, and the sgid of the
    failed reference is not in the text that is stored. *)
Lemma failed_only_reference_sgid_not_stored :
  let h := sampleServer [] everyDownloadFails in
  let r := run h 0 (migrateCard imagesGlobals (lit "acme") (lit "beta")
                      oneImageCard (lit "t-board") ∅ emptyStats) in
  map SGID (parseAttachments oneImage) = [lit "old-sgid-1"]
  /\ List.filter
       (fun x => match x with
                 | (DownloadFile _ _ _, Failed _) => true
                 | _ => false
                 end) (traceOf r)
     = [(DownloadFile (lit "acme")
           (lit "/blobs/1/a.png?disposition=attachment")
           (lit "/tmp/fizzy-migrate-attachment-1-a.png"),
         Failed (ExternalError (lit "503 Service Unavailable")))]
  /\ (resultOf r).2 = (101, None)
  /\ creationDescription (requestsOf (traceOf r))
     = JString (lit "Before a.png After")
  /\ contains (lit "Before a.png After") (lit "old-sgid-1") = false.
Proof. vm_compute. repeat split. Qed.

(** ** What a program can call *)

Lemma AllCalls_impl {A : Type} (P Q : request -> Prop) (p : Prog A) :
  (forall r, P r -> Q r) -> AllCalls P p -> AllCalls Q p.
Proof. intros HPQ. induction 1; constructor; auto. Qed.

Lemma AllCalls_bind {A B : Type} (P : request -> Prop) (p : Prog A)
    (f : A -> Prog B) :
  AllCalls P p -> (forall a, AllCalls P (f a)) -> AllCalls P (bind p f).
Proof.
  intros Hp Hf. induction Hp as [a | r k Hr Hk IH]; simpl; [apply Hf|].
  constructor; auto.
Qed.

Lemma AllCalls_call (P : request -> Prop) (r : request) :
  P r -> AllCalls P (call r).
Proof. intros Hr. constructor; [done|]. intros x. constructor. Qed.

Lemma AllCalls_eprint (P : request -> Prop) (text : str) :
  P (Stderr text) -> AllCalls P (eprint text).
Proof.
  intros Hr. unfold eprint. apply AllCalls_bind.
  - by apply AllCalls_call.
  - intros _. constructor.
Qed.

Lemma AllCalls_forEach {X S : Type} (P : request -> Prop) (xs : list X)
    (body : S -> X -> Prog S) (s : S) :
  (forall s x, AllCalls P (body s x)) -> AllCalls P (forEach xs body s).
Proof.
  intros Hbody. revert s. induction xs as [|x xs IH]; intros s; simpl.
  - constructor.
  - apply AllCalls_bind; auto.
Qed.

Lemma AllCalls_forEachIndexed {X S : Type} (P : request -> Prop) (i : Z)
    (xs : list X) (body : Z -> S -> X -> Prog S) (s : S) :
  (forall i s x, AllCalls P (body i s x)) ->
  AllCalls P (forEachIndexed i xs body s).
Proof.
  intros Hbody. revert i s. induction xs as [|x xs IH]; intros i s; simpl.
  - constructor.
  - apply AllCalls_bind; auto.
Qed.

Lemma AllCalls_run {W A : Type} (P : request -> Prop) (p : Prog A)
    (h : W -> request -> W * reply) (w : W) :
  AllCalls P p -> Forall (fun x => P x.1) (traceOf (run h w p)).
Proof.
  intros Hp. revert w. induction Hp as [a | r k Hr Hk IH]; intros w.
  - constructor.
  - assert (forall x w1,
              Forall (fun x => P x.1)
                (traceOf (let '(a, w2, t) := run h w1 (k x) in
                          (a, w2, (r, x) :: t)))) as Hstep.
    { intros x w1. specialize (IH x w1).
      destruct (run h w1 (k x)) as [[a w2] t].
      unfold traceOf in *. cbn [fst snd] in *. by constructor. }
    destruct r; simpl; try (destruct (h w _) as [w1 x]); apply Hstep.
Qed.

(** *** Loops *)

Lemma run_forEachIndexed_cons {W X S : Type}
    (h : W -> request -> W * reply) (w : W) (i : Z) (x : X) (xs : list X)
    (body : Z -> S -> X -> Prog S) (s : S) :
  run h w (forEachIndexed i (x :: xs) body s) =
  let '(s1, w1, t1) := run h w (body i s x) in
  let '(s2, w2, t2) := run h w1 (forEachIndexed (i + 1) xs body s1) in
  (s2, w2, t1 ++ t2).
Proof. simpl. apply run_bind. Qed.

Lemma forEach_invariant {W X S : Type} (h : W -> request -> W * reply)
    (P : S -> Prop) (xs : list X) (body : S -> X -> Prog S) :
  (forall s x w, P s -> P (resultOf (run h w (body s x)))) ->
  forall s w, P s -> P (resultOf (run h w (forEach xs body s))).
Proof.
  intros Hbody. induction xs as [|x xs IH]; intros s w Hs; [done|].
  rewrite run_forEach_cons. specialize (Hbody s x w Hs).
  destruct (run h w (body s x)) as [[s1 w1] t1].
  specialize (IH s1 w1 Hbody).
  by destruct (run h w1 (forEach xs body s1)) as [[s2 w2] t2].
Qed.

(** *** What a program can return *)

Lemma Returns_any {A : Type} (Q : A -> Prop) (p : Prog A) :
  (forall a, Q a) -> Returns Q p.
Proof. intros HQ. induction p; constructor; auto. Qed.

Lemma Returns_bind {A B : Type} (R : A -> Prop) (Q : B -> Prop)
    (p : Prog A) (f : A -> Prog B) :
  Returns R p -> (forall a, R a -> Returns Q (f a)) -> Returns Q (bind p f).
Proof.
  intros Hp Hf. induction Hp as [a Ha | r k Hk IH]; simpl; [by apply Hf|].
  constructor; auto.
Qed.

Lemma Returns_then {A B : Type} (Q : B -> Prop) (p : Prog A)
    (f : A -> Prog B) :
  (forall a, Returns Q (f a)) -> Returns Q (bind p f).
Proof.
  intros Hf. apply Returns_bind with (R := fun _ => True); [|auto].
  by apply Returns_any.
Qed.

Lemma Returns_forEach {X S : Type} (Q : S -> Prop) (xs : list X)
    (body : S -> X -> Prog S) (s : S) :
  (forall s x, Q s -> Returns Q (body s x)) -> Q s ->
  Returns Q (forEach xs body s).
Proof.
  intros Hbody. revert s. induction xs as [|x xs IH]; intros s Hs; simpl.
  - by constructor.
  - apply Returns_bind with (R := Q); auto.
Qed.

Lemma Returns_run {W A : Type} (Q : A -> Prop) (p : Prog A)
    (h : W -> request -> W * reply) (w : W) :
  Returns Q p -> Q (resultOf (run h w p)).
Proof.
  intros Hp. revert w. induction Hp as [a Ha | r k Hk IH]; intros w.
  - done.
  - assert (forall (x : reply) w1 (e : request * reply),
              Q (resultOf (let '(a, w2, t) := run h w1 (k x) in
                           (a, w2, e :: t)))) as Hstep.
    { intros x w1 e. specialize (IH x w1).
      by destruct (run h w1 (k x)) as [[a w2] t]. }
    destruct r; simpl; try (destruct (h w _) as [w1 x]); apply Hstep.
Qed.

(** *** The card mapping is written by the card loop only *)

Lemma keepsCards_refl (s : migrationStats) : keepsCards s s.
Proof. done. Qed.

Lemma keepsCards_trans (s1 s2 s3 : migrationStats) :
  keepsCards s1 s2 -> keepsCards s2 s3 -> keepsCards s1 s3.
Proof. intros [? ?] [? ?]. split; congruence. Qed.

Lemma migrateCardSubSteps_keeps (g : globals) (src tgt : str)
    (card : object) (mapping : gmap str str) (sourceNum newNum : Z)
    (stats : migrationStats) :
  Returns (keepsCards stats)
    (migrateCardSubSteps g src tgt card mapping sourceNum newNum stats).
Proof.
  unfold migrateCardSubSteps.
  apply Returns_bind with (R := keepsCards stats).
  { destruct (index card (lit "tags")); try by constructor.
    apply Returns_forEach; [|done]. intros s tag Hs.
    destruct tag; try by constructor. unfold applyTagStep.
    apply Returns_then. intros [err|].
    - apply Returns_then. intros _. by constructor.
    - constructor. by destruct Hs. }
  intros s1 H1. do 3 (apply Returns_then; intros _).
  apply Returns_bind with (R := keepsCards stats).
  { destruct (migrateBoardIncludeComments g); [|by constructor].
    do 2 (apply Returns_then; intros ?). constructor. by destruct H1. }
  intros s2 H2.
  apply Returns_bind with (R := keepsCards stats).
  { destruct (migrateBoardIncludeSteps g); [|by constructor].
    do 2 (apply Returns_then; intros ?). constructor. by destruct H2. }
  intros s3 H3.
  destruct (migrateBoardIncludeImages g); [|by constructor].
  destruct (negb _); [|by constructor].
  apply Returns_then. intros [err|].
  - apply Returns_then. intros _. by constructor.
  - constructor. by destruct H3.
Qed.

Lemma cardDescription_keeps (g : globals) (src tgt : str) (card : object)
    (stats : migrationStats) :
  Returns (fun d => keepsCards stats d.2)
    (cardDescription g src tgt card stats).
Proof.
  unfold cardDescription. destruct (_ && _); [|by constructor].
  apply Returns_then. intros [[migrated count] err].
  apply Returns_then. intros _. destruct (0 <? count); by constructor.
Qed.

Lemma migrateCard_keeps (g : globals) (src tgt : str) (card : object)
    (board : str) (mapping : gmap str str) (stats : migrationStats) :
  Returns (fun r => keepsCards stats r.1)
    (migrateCard g src tgt card board mapping stats).
Proof.
  unfold migrateCard.
  eapply Returns_bind; [apply cardDescription_keeps|].
  intros [description stats1] H1. cbn [snd] in H1.
  apply Returns_then. intros [resp|err]; [|by constructor].
  apply Returns_then. intros followed.
  destruct (_ =? 0); [by constructor|].
  eapply Returns_bind; [apply migrateCardSubSteps_keeps|].
  intros stats2 H2. constructor. cbn [fst]. by eapply keepsCards_trans.
Qed.

(** What [migrateCard] returns is the outcome of the creation: the
    replies to the calls of the later steps do not enter it. *)
Lemma migrateCard_result {W : Type} (h : W -> request -> W * reply) (w : W)
    (g : globals) (src tgt : str) (card : object) (board : str)
    (mapping : gmap str str) (stats : migrationStats) :
  let rd := run h w (cardDescription g src tgt card stats) in
  (resultOf (run h w (migrateCard g src tgt card board mapping stats))).2
  = creationOutcome h (worldOf rd) tgt
      (cardRequestBody board (getStringField card (lit "title"))
         (resultOf rd).1 (getStringField card (lit "created_at"))).
Proof.
  cbv zeta. unfold migrateCard, creationOutcome. rewrite run_bind.
  destruct (run h w (cardDescription g src tgt card stats))
    as [[[description stats1] wd] td].
  unfold resultOf, worldOf. cbn [fst snd].
  rewrite run_bind, run_call by done. cbn [fst snd].
  destruct (h wd _) as [w1 [resp|err]]; cbn [fst snd]; [|done].
  rewrite run_bind.
  destruct (run h w1 (followCreated tgt resp)) as [[followed w2] t2].
  cbn [fst snd].
  match goal with |- context [if ?b then _ else _] => destruct b end;
    [done|].
  rewrite run_bind.
  by destruct (run h w2 (migrateCardSubSteps _ _ _ _ _ _ _ _))
    as [[stats2 w3] t3].
Qed.

(** ** The card mapping *)

(** *** The loop over the cards *)

(** One turn: the card mapping gains the pair of a created card, and
    nothing else. *)
Lemma migrateCardStep_records {W : Type} (h : W -> request -> W * reply)
    (w : W) (g : globals) (src tgt : str) (total : nat) (board : str)
    (mapping : gmap str str) (i : Z) (stats : migrationStats)
    (card : json) :
  let s' := resultOf (run h w (migrateCardStep g src tgt total board
                                 mapping i stats card)) in
  let pairs :=
    omap createdPair (omap (cardOutcome h g src tgt board)
                        [(stats, w, card)]) in
  cardMapping s' = recordPairs (cardMapping stats) pairs /\
  cardsCreated s' = cardsCreated stats + Z.of_nat (length pairs).
Proof.
  cbv zeta.
  destruct card as [| | | | | |cardMap];
    try (cbn [omap list_omap cardOutcome]; unfold migrateCardStep;
         cbv beta iota; rewrite run_ret; unfold resultOf; cbn;
         split; [done | lia]).
  cbn [omap list_omap cardOutcome]. cbv zeta.
  rewrite <- (migrateCard_result h w g src tgt cardMap board mapping stats).
  unfold migrateCardStep. run_norm.
  pose proof (Returns_run _ _ h w
                (migrateCard_keeps g src tgt cardMap board mapping stats))
    as [Hmap Hcount].
  destruct (run h w (migrateCard g src tgt cardMap board mapping stats))
    as [[[stats1 [n [err|]]] w1] t1];
    unfold resultOf in *; cbn [fst snd] in *; run_norm;
    cbn [createdPair omap list_omap recordPairs fold_left length fst snd
         recordCard cardMapping cardsCreated].
  - split; [done|lia].
  - split; [by rewrite Hmap | lia].
Qed.

Lemma recordPairs_app {K V : Type} `{Countable K} (m : gmap K V)
    (l1 l2 : list (K * V)) :
  recordPairs m (l1 ++ l2) = recordPairs (recordPairs m l1) l2.
Proof. apply fold_left_app. Qed.

Lemma migrateCards_loop {W : Type} (h : W -> request -> W * reply)
    (g : globals) (src tgt : str) (total : nat) (board : str)
    (mapping : gmap str str) (cards : list json) :
  forall (i : Z) (w : W) (stats : migrationStats),
  let body := migrateCardStep g src tgt total board mapping in
  let s' := resultOf (run h w (forEachIndexed i cards body stats)) in
  let pairs :=
    omap createdPair (omap (cardOutcome h g src tgt board)
                        (turnsIndexed h w i cards body stats)) in
  cardMapping s' = recordPairs (cardMapping stats) pairs /\
  cardsCreated s' = cardsCreated stats + Z.of_nat (length pairs).
Proof.
  cbv zeta. induction cards as [|card cards IH]; intros i w stats.
  - cbn. split; [done|lia].
  - rewrite run_forEachIndexed_cons. cbn [turnsIndexed].
    pose proof (migrateCardStep_records h w g src tgt total board mapping
                  i stats card) as Hstep.
    cbv zeta in Hstep.
    destruct (run h w (migrateCardStep g src tgt total board mapping i
                         stats card)) as [[s1 w1] t1].
    unfold resultOf, worldOf in *. cbn [fst snd] in *.
    specialize (IH (i + 1) w1 s1).
    destruct (run h w1 (forEachIndexed (i + 1) cards _ s1))
      as [[s2 w2] t2].
    cbn [fst snd] in *. destruct IH as [IHmap IHcount].
    destruct Hstep as [Hmap Hcount].
    change (?x :: ?l) with ([x] ++ l) at 1 2.
    rewrite !omap_app, recordPairs_app, length_app.
    rewrite IHmap, IHcount, Hmap, Hcount. split; [done|lia].
Qed.

(** *** A map written pair by pair *)




Lemma createdPairs_sublist {W : Type} (h : W -> request -> W * reply)
    (g : globals) (src tgt : str) (total : nat) (board : str)
    (mapping : gmap str str) (cards : list json) :
  forall (i : Z) (w : W) (stats : migrationStats),
  (omap createdPair
     (omap (cardOutcome h g src tgt board)
        (turnsIndexed h w i cards
           (migrateCardStep g src tgt total board mapping) stats))).*1
  `sublist_of` sourceNumbers cards.
Proof.
  induction cards as [|card cards IH]; intros i w stats; [done|].
  cbn [turnsIndexed omap list_omap sourceNumbers].
  specialize (IH (i + 1)
    (worldOf (run h w (migrateCardStep g src tgt total board mapping i
                         stats card)))
    (resultOf (run h w (migrateCardStep g src tgt total board mapping i
                          stats card)))).
  destruct card as [| | | | | |cardMap]; cbn [cardOutcome]; try exact IH.
  cbv zeta.
  match goal with
  | |- context [creationOutcome ?a ?b ?c ?d] =>
      destruct (creationOutcome a b c d) as [n [err|]]
  end; cbn [createdPair].
  - by apply sublist_cons.
  - cbn [fmap list_fmap fst]. by apply sublist_skip.
Qed.

(** *** The run, stage by stage *)

Lemma validInvocation_true (g : globals) :
  validInvocation g = true ->
  requireAuth g = None /\ streq (migrateBoardFrom g) [] = false /\
  streq (migrateBoardTo g) [] = false /\
  streq (migrateBoardFrom g) (migrateBoardTo g) = false.
Proof.
  unfold validInvocation. intros Hv.
  repeat (apply andb_prop in Hv as [Hv ?]).
  destruct (requireAuth g); [done|].
  repeat split; by apply negb_true_iff.
Qed.

Lemma runMigrateBoard_invalid {W : Type} (h : W -> request -> W * reply)
    (w : W) (g : globals) (sourceBoardID : str) :
  validInvocation g = false ->
  exists err,
    run h w (runMigrateBoard g sourceBoardID) = (ExitWithError err, w, []).
Proof.
  unfold validInvocation, runMigrateBoard. intros Hv.
  destruct (requireAuth g) as [err|]; [by eexists|].
  destruct (streq (migrateBoardFrom g) []); [by eexists|].
  destruct (streq (migrateBoardTo g) []); [by eexists|].
  destruct (streq (migrateBoardFrom g) (migrateBoardTo g)); [by eexists|].
  done.
Qed.

(** The outcome of a run, from what its stages return. *)
Lemma runMigrateBoard_result {W : Type} (h : W -> request -> W * reply)
    (w : W) (g : globals) (sourceBoardID : str) :
  validInvocation g = true ->
  resultOf (run h w (runMigrateBoard g sourceBoardID))
  = match resultOf (accessStage h w g) with
    | Some err => ExitWithError err
    | None =>
    match (resultOf (boardStage h w g sourceBoardID)).2 with
    | Some err =>
        ExitWithError (NewError (lit "Failed to fetch source board: "
                                 ++ errorString err))
    | None =>
    match (resultOf (columnsStage h w g sourceBoardID)).2 with
    | Some err =>
        ExitWithError (NewError (lit "Failed to fetch source columns: "
                                 ++ errorString err))
    | None =>
    match (resultOf (cardsStage h w g sourceBoardID)).2 with
    | Some err =>
        ExitWithError (NewError (lit "Failed to fetch source cards: "
                                 ++ errorString err))
    | None =>
    if migrateBoardDryRun g then
      DryRun (sourceBoardName h w g sourceBoardID)
        (Z.of_nat (length (resultOf (columnsStage h w g sourceBoardID)).1))
        (Z.of_nat (length (resultOf (cardsStage h w g sourceBoardID)).1))
        (migrateBoardFrom g) (migrateBoardTo g)
    else
    match (resultOf (createBoardStage h w g sourceBoardID)).2 with
    | Some err =>
        ExitWithError (NewError (lit "Failed to create target board: "
                                 ++ errorString err))
    | None => Migrated (resultOf (migrateCardsStage h w g sourceBoardID))
    end end end end end.
Proof.
  intros Hv. apply validInvocation_true in Hv as (Hauth & Hfrom & Hto & Hne).
  unfold migrateCardsStage, createColumnsStage, createBoardStage,
    sourceBoardName, cardsStage, columnsStage, boardStage, accessStage.
  unfold runMigrateBoard. rewrite Hauth, Hfrom, Hto, Hne.
  run_norm.
  destruct (run h w (verifyAccountAccess _ _ _)) as [[[err|] w1] t1];
    unfold resultOf, worldOf; cbn [fst snd]; [by run_norm|].
  run_norm.
  destruct (run h w1 (getBoard _ _)) as [[[sourceBoard [err|]] w2] t2];
    cbn [fst snd]; [by run_norm|].
  run_norm.
  destruct (run h w2 (getColumns _ _)) as [[[sourceColumns [err|]] w3] t3];
    cbn [fst snd]; [by run_norm|].
  run_norm.
  destruct (run h w3 (getAllCards _ _)) as [[[sourceCards [err|]] w4] t4];
    cbn [fst snd]; [by run_norm|].
  run_norm.
  destruct (migrateBoardDryRun g).
  { run_norm. by destruct (run h w4 (printDryRunSummary _ _ _ _))
      as [[[] w5] t5]. }
  run_norm.
  destruct (run h w4 (createBoard _ _)) as [[[targetBoard [err|]] w5] t5];
    cbn [fst snd]; [by run_norm|].
  run_norm.
  destruct (run h w5 (createColumns _ _ _ _))
    as [[[columnMapping stats1] w6] t6]; cbn [fst snd].
  run_norm.
  destruct (run h w6 (migrateCards _ _ _ _ _ _ _)) as [[stats2 w7] t7];
    cbn [fst snd].
  run_norm.
  by destruct (run h w7 (printMigrationSummary _ _)) as [[[] w8] t8].
Qed.

Lemma createColumns_keeps (tgt board : str) (columns : list json)
    (stats : migrationStats) :
  Returns (fun r => keepsCards stats r.2)
    (createColumns tgt board columns stats).
Proof.
  unfold createColumns. apply Returns_forEach; [|done].
  intros [mapping s] col Hs. unfold createColumnStep.
  destruct col; try by constructor.
  destruct (skippedAsPseudo _); [by constructor|].
  apply Returns_then. intros [id [err|]].
  - apply Returns_then. intros _. by constructor.
  - constructor. by destruct Hs.
Qed.

(** A run that ends with the migration result passed every stage. *)
Lemma runMigrateBoard_migrated {W : Type} (h : W -> request -> W * reply)
    (w : W) (g : globals) (sourceBoardID : str) (stats : migrationStats) :
  resultOf (run h w (runMigrateBoard g sourceBoardID)) = Migrated stats ->
  stats = resultOf (migrateCardsStage h w g sourceBoardID).
Proof.
  intros Hres. destruct (validInvocation g) eqn:Hv.
  - rewrite runMigrateBoard_result in Hres by done.
    repeat match type of Hres with
           | match ?x with _ => _ end = _ => destruct x; try discriminate
           | (if ?x then _ else _) = _ => destruct x; try discriminate
           end.
    congruence.
  - destruct (runMigrateBoard_invalid h w g sourceBoardID Hv) as [err Herr].
    by rewrite Herr in Hres.
Qed.



(** The run of the witness: the first card is created although its tag is
    refused, the second is not created, the third is. *)
Example card_mapping_sprint7 :
  let h := sampleServer sampleCards vendorCardAndTagsFail in
  let stats := statsOf (resultOf (run h 0 (runMigrateBoard plainGlobals
                                             (lit "b7")))) in
  createdInRun h 0 plainGlobals (lit "b7") = [(11, 103); (13, 104)]
  /\ cardMapping stats !! 11 = Some 103
  /\ cardMapping stats !! 12 = None
  /\ cardMapping stats !! 13 = Some 104
  /\ cardsCreated stats = 2 /\ tagsApplied stats = 0.
Proof. cbv zeta. by vm_compute. Qed.

(** ** The dry run *)

Lemma countRealColumns_filter (columns : list json) :
  countRealColumns columns
  = Z.of_nat (length (List.filter realColumn columns)).
Proof.
  unfold countRealColumns.
  enough (forall n,
            fold_left
              (fun count col =>
                 match col with
                 | JObject colMap =>
                     if skippedAsPseudo colMap then count else count + 1
                 | _ => count
                 end) columns n
            = n + Z.of_nat (length (List.filter realColumn columns)))
    as Hgen by apply Hgen.
  induction columns as [|col columns IH]; intros n; cbn [fold_left].
  - cbn. lia.
  - rewrite IH. cbn [List.filter].
    destruct col as [| | | | | |colMap]; cbn [realColumn negb]; try done.
    destruct (skippedAsPseudo colMap); cbn [negb length]; lia.
Qed.

(** Unfolds the program step by step. *)
Ltac all_calls :=
  repeat first
    [ apply AllCalls_Ret
    | apply AllCalls_eprint
    | apply AllCalls_call
    | apply AllCalls_bind
    | intros ?
    | reflexivity
    | match goal with
      | |- AllCalls _ (match ?x with _ => _ end) => destruct x
      end ].

Lemma runMigrateBoard_dry_calls (g : globals) (sourceBoardID : str) :
  migrateBoardDryRun g = true ->
  AllCalls (fun r => readOnly r = true) (runMigrateBoard g sourceBoardID).
Proof.
  intros Hdry.
  unfold runMigrateBoard, verifyAccountAccess, getBoard, getColumns,
    getAllCards, printDryRunSummary, whenFlag.
  rewrite Hdry. all_calls.
Qed.

Lemma readOnly_not_mutating (r : request) :
  readOnly r = true -> mutating r = false.
Proof. by destruct r. Qed.

Lemma serverCalls_app (t1 t2 : trace) :
  serverCalls (t1 ++ t2) = serverCalls t1 ++ serverCalls t2.
Proof. unfold serverCalls, requestsOf. by rewrite map_app, List.filter_app. Qed.

Lemma serverCalls_print (text : str) (x : reply) (t : trace) :
  serverCalls ((Stderr text, x) :: t) = serverCalls t.
Proof. done. Qed.

(** The prints of [p] leave the server calls of a trace as they are. *)
Lemma serverCalls_prints {W A : Type} (h : W -> request -> W * reply)
    (w : W) (p : Prog A) :
  AllCalls (fun r => isStderr r = true) p ->
  serverCalls (traceOf (run h w p)) = [].
Proof.
  intros Hp. apply (AllCalls_run _ _ h w) in Hp.
  induction Hp as [|[r x] t Hr _ IH]; [done|].
  destruct r; try discriminate. by rewrite serverCalls_print.
Qed.

(** Each of the four reads is one call. *)
Ltac one_call h :=
  run_norm; next_reply h; run_norm;
  repeat match goal with
         | |- context [run h _ (match ?x with _ => _ end)] => destruct x
         end; by run_norm.

Lemma verifyAccountAccess_calls {W : Type} (h : W -> request -> W * reply)
    (w : W) (g : globals) (src tgt : str) :
  requestsOf (traceOf (run h w (verifyAccountAccess g src tgt)))
  = [Get [] (cfgAPIURL g ++ lit "/my/identity.json")].
Proof. unfold verifyAccountAccess. one_call h. Qed.

Lemma getBoard_calls {W : Type} (h : W -> request -> W * reply) (w : W)
    (c id : str) :
  requestsOf (traceOf (run h w (getBoard c id)))
  = [Get c (lit "/boards/" ++ id ++ lit ".json")].
Proof. unfold getBoard. one_call h. Qed.

Lemma getColumns_calls {W : Type} (h : W -> request -> W * reply) (w : W)
    (c id : str) :
  requestsOf (traceOf (run h w (getColumns c id)))
  = [Get c (lit "/boards/" ++ id ++ lit "/columns.json")].
Proof. unfold getColumns. one_call h. Qed.

Lemma getAllCards_calls {W : Type} (h : W -> request -> W * reply) (w : W)
    (c id : str) :
  requestsOf (traceOf (run h w (getAllCards c id)))
  = [GetWithPagination c (lit "/cards.json?board_ids[]=" ++ id) true].
Proof. unfold getAllCards. one_call h. Qed.

Lemma printDryRunSummary_trace {W : Type} (h : W -> request -> W * reply)
    (w : W) (g : globals) (name : str) (columns cards : list json) :
  exists rest,
    requestsOf (traceOf (run h w (printDryRunSummary g name columns cards)))
    = [ Stderr ([newline] ++ lit "=== DRY RUN SUMMARY ===" ++ [newline]);
        Stderr (lit "Would migrate board: " ++ name ++ [newline]);
        Stderr (lit "Columns to create: " ++ itoa (countRealColumns columns)
                ++ [newline]);
        Stderr (lit "Cards to migrate: " ++ itoa (Z.of_nat (length cards))
                ++ [newline]) ] ++ rest.
Proof.
  unfold printDryRunSummary, whenFlag.
  destruct (migrateBoardIncludeComments g), (migrateBoardIncludeSteps g),
    (migrateBoardIncludeImages g); run_norm; unfold traceOf, requestsOf;
    cbn [snd map fst app]; by eexists.
Qed.

Lemma printDryRunSummary_prints (g : globals) (name : str)
    (columns cards : list json) :
  AllCalls (fun r => isStderr r = true)
    (printDryRunSummary g name columns cards).
Proof. unfold printDryRunSummary, whenFlag. all_calls. Qed.

(** The trace of a dry run whose four reads succeed. *)
Lemma runMigrateBoard_dry_trace {W : Type} (h : W -> request -> W * reply)
    (w : W) (g : globals) (sourceBoardID : str) :
  validInvocation g = true ->
  migrateBoardDryRun g = true ->
  resultOf (accessStage h w g) = None ->
  (resultOf (boardStage h w g sourceBoardID)).2 = None ->
  (resultOf (columnsStage h w g sourceBoardID)).2 = None ->
  (resultOf (cardsStage h w g sourceBoardID)).2 = None ->
  exists prints1 prints2 prints3 prints4 prints5,
    traceOf (run h w (runMigrateBoard g sourceBoardID))
    = prints1 ++ traceOf (accessStage h w g)
      ++ prints2 ++ traceOf (boardStage h w g sourceBoardID)
      ++ prints3 ++ traceOf (columnsStage h w g sourceBoardID)
      ++ prints4 ++ traceOf (cardsStage h w g sourceBoardID)
      ++ prints5
         ++ traceOf (run h (worldOf (cardsStage h w g sourceBoardID))
                       (printDryRunSummary g
                          (sourceBoardName h w g sourceBoardID)
                          (resultOf (columnsStage h w g sourceBoardID)).1
                          (resultOf (cardsStage h w g sourceBoardID)).1))
    /\ Forall (fun ps => serverCalls ps = [])
         [prints1; prints2; prints3; prints4; prints5].
Proof.
  intros Hv Hdry.
  apply validInvocation_true in Hv as (Hauth & Hfrom & Hto & Hne).
  unfold sourceBoardName, cardsStage, columnsStage, boardStage, accessStage.
  unfold runMigrateBoard. rewrite Hauth, Hfrom, Hto, Hne, Hdry.
  run_norm.
  destruct (run h w (verifyAccountAccess _ _ _)) as [[access w1] t1];
    unfold resultOf, worldOf, traceOf; cbn [fst snd].
  intros ->. run_norm.
  destruct (run h w1 (getBoard _ _)) as [[[sourceBoard err] w2] t2];
    cbn [fst snd].
  intros ->. run_norm.
  destruct (run h w2 (getColumns _ _)) as [[[sourceColumns err] w3] t3];
    cbn [fst snd].
  intros ->. run_norm.
  destruct (run h w3 (getAllCards _ _)) as [[[sourceCards err] w4] t4];
    cbn [fst snd].
  intros ->. run_norm.
  destruct (run h w4 (printDryRunSummary _ _ _ _)) as [[[] w5] t5].
  cbn [fst snd]. run_norm. rewrite app_nil_r.
  eexists [_], [_], [_; _], [_], [_]. split.
  - cbn [app]. by repeat (rewrite <- app_assoc; cbn [app]).
  - by repeat constructor.
Qed.

(** C4. In a dry run every request is a read or a print, so none is a
    mutating call. When the access check and the three fetches succeed,
    the calls that reach a server are exactly these four reads; the
    summary reports as columns to create the number of real columns among
    the fetched ones and as cards to migrate the number of fetched cards;
    and the run ends with the dry-run payload, which carries the number of
    all fetched columns and of the fetched cards. *)
Theorem dry_run_only_reads {W : Type} (h : W -> request -> W * reply)
    (w : W) (g : globals) (sourceBoardID : str) :
  validInvocation g = true ->
  migrateBoardDryRun g = true ->
  let r := run h w (runMigrateBoard g sourceBoardID) in
  let columns := (resultOf (columnsStage h w g sourceBoardID)).1 in
  let cards := (resultOf (cardsStage h w g sourceBoardID)).1 in
  Forall (fun x => readOnly x.1 = true /\ mutating x.1 = false) (traceOf r)
  /\ (resultOf (accessStage h w g) = None ->
      (resultOf (boardStage h w g sourceBoardID)).2 = None ->
      (resultOf (columnsStage h w g sourceBoardID)).2 = None ->
      (resultOf (cardsStage h w g sourceBoardID)).2 = None ->
      serverCalls (traceOf r) = discoveryCalls g sourceBoardID
      /\ In (Stderr (lit "Columns to create: "
                     ++ itoa (Z.of_nat
                                (length (List.filter realColumn columns)))
                     ++ [newline]))
           (requestsOf (traceOf r))
      /\ In (Stderr (lit "Cards to migrate: "
                     ++ itoa (Z.of_nat (length cards)) ++ [newline]))
           (requestsOf (traceOf r))
      /\ resultOf r
         = DryRun (sourceBoardName h w g sourceBoardID)
             (Z.of_nat (length columns)) (Z.of_nat (length cards))
             (migrateBoardFrom g) (migrateBoardTo g)).
Proof.
  intros Hv Hdry. cbv zeta. split.
  - eapply Forall_impl.
    + apply AllCalls_run. by apply runMigrateBoard_dry_calls.
    + intros [r x] Hr. split; [done|]. by apply readOnly_not_mutating.
  - intros Haccess Hboard Hcolumns Hcards.
    destruct (runMigrateBoard_dry_trace h w g sourceBoardID Hv Hdry
                Haccess Hboard Hcolumns Hcards)
      as (p1 & p2 & p3 & p4 & p5 & Htrace & Hprints).
    rewrite Htrace.
    repeat match goal with
           | H : Forall _ (_ :: _) |- _ =>
               apply Forall_cons in H as [? H]
           end.
    destruct (printDryRunSummary_trace h
                (worldOf (cardsStage h w g sourceBoardID)) g
                (sourceBoardName h w g sourceBoardID)
                (resultOf (columnsStage h w g sourceBoardID)).1
                (resultOf (cardsStage h w g sourceBoardID)).1)
      as [rest Hsummary].
    split; [|split; [|split]].
    + rewrite !serverCalls_app.
      rewrite (serverCalls_prints h _ _
                 (printDryRunSummary_prints g _ _ _)).
      repeat match goal with
             | H : serverCalls _ = [] |- _ => rewrite H; clear H
             end.
      unfold serverCalls, accessStage, boardStage, columnsStage,
        cardsStage.
      by rewrite verifyAccountAccess_calls, getBoard_calls,
        getColumns_calls, getAllCards_calls.
    + unfold requestsOf in *. rewrite !map_app, Hsummary.
      rewrite <- countRealColumns_filter.
      rewrite !in_app_iff. do 9 right. left. cbn. tauto.
    + unfold requestsOf in *. rewrite !map_app, Hsummary.
      rewrite !in_app_iff. do 9 right. left. cbn. tauto.
    + rewrite runMigrateBoard_result by done.
      by rewrite Haccess, Hboard, Hcolumns, Hcards, Hdry.
Qed.

Lemma dry_run_only_reads_witness :
  let h := sampleServer sampleCards neverFails in
  let r := run h 0 (runMigrateBoard dryRunGlobals (lit "b7")) in
  Forall (fun x => readOnly x.1 = true /\ mutating x.1 = false) (traceOf r)
  /\ serverCalls (traceOf r) = discoveryCalls dryRunGlobals (lit "b7")
  /\ In (Stderr (lit "Columns to create: " ++ itoa 2 ++ [newline]))
       (requestsOf (traceOf r))
  /\ In (Stderr (lit "Cards to migrate: " ++ itoa 3 ++ [newline]))
       (requestsOf (traceOf r))
  /\ resultOf r = DryRun (lit "Sprint 7") 4 3 (lit "acme") (lit "beta").
Proof.
  pose proof (dry_run_only_reads (sampleServer sampleCards neverFails) 0
                dryRunGlobals (lit "b7") eq_refl eq_refl) as [Hreads Hrun].
  split; [exact Hreads|].
  apply Hrun; reflexivity.
Defined.

(** ** What ends a run *)

(** *** The loop over the columns *)

Lemma createColumnStep_records {W : Type} (h : W -> request -> W * reply)
    (w : W) (tgt board : str) (st : gmap str str * migrationStats)
    (col : json) :
  let st' := resultOf (run h w (createColumnStep tgt board st col)) in
  let pairs :=
    omap createdPair (omap (columnOutcome h tgt board) [(st, w, col)]) in
  st'.1 = recordPairs st.1 pairs.
Proof.
  cbv zeta. destruct st as [mapping stats].
  destruct col as [| | | | | |colMap];
    try (cbn [omap list_omap columnOutcome]; unfold createColumnStep;
         cbv beta iota; by rewrite run_ret).
  cbn [omap list_omap columnOutcome]. unfold createColumnStep.
  destruct (skippedAsPseudo colMap); [by rewrite run_ret|].
  run_norm.
  destruct (run h w (createColumn _ _ _ _)) as [[[id [err|]] w1] t1];
    unfold resultOf; cbn [fst snd]; by run_norm.
Qed.

Lemma createColumns_loop {W : Type} (h : W -> request -> W * reply)
    (tgt board : str) (columns : list json) :
  forall (w : W) (st : gmap str str * migrationStats),
  (resultOf (run h w (forEach columns (createColumnStep tgt board) st))).1
  = recordPairs st.1 (createdColumns h w tgt board columns st).
Proof.
  unfold createdColumns.
  induction columns as [|col columns IH]; intros w st; [done|].
  rewrite run_forEach_cons. cbn [turns].
  pose proof (createColumnStep_records h w tgt board st col) as Hstep.
  cbv zeta in Hstep.
  destruct (run h w (createColumnStep tgt board st col)) as [[st1 w1] t1].
  unfold resultOf, worldOf in *. cbn [fst snd] in *.
  specialize (IH w1 st1).
  destruct (run h w1 (forEach columns _ st1)) as [[st2 w2] t2].
  cbn [fst snd] in *.
  change (?x :: ?l) with ([x] ++ l) at 1.
  by rewrite !omap_app, recordPairs_app, IH, Hstep.
Qed.

Lemma recordPairs_lookup_None {K V : Type} `{Countable K}
    (pairs : list (K * V)) (k : K) :
  recordPairs ∅ pairs !! k = None <-> k ∉ pairs.*1.
Proof.
  induction pairs as [|[k1 v1] pairs IH] using rev_ind.
  - cbn. rewrite lookup_empty. split; [|done]. intros _. apply not_elem_of_nil.
  - rewrite recordPairs_app, fmap_app, not_elem_of_app. cbn.
    destruct (decide (k1 = k)) as [->|Hne].
    + rewrite lookup_insert_eq. split; [done|]. intros [_ Hk].
      exfalso. apply Hk. left.
    + rewrite lookup_insert_ne by done. rewrite IH.
      split; [|tauto]. intros Hk. split; [done|].
      intros Hin. apply list_elem_of_singleton in Hin. congruence.
Qed.

Lemma recordPairs_lookup_Some {K V : Type} `{Countable K}
    (pairs : list (K * V)) (k : K) (v : V) :
  recordPairs ∅ pairs !! k = Some v -> In (k, v) pairs.
Proof.
  induction pairs as [|[k1 v1] pairs IH] using rev_ind.
  - cbn. by rewrite lookup_empty.
  - rewrite recordPairs_app, in_app_iff. cbn.
    destruct (decide (k1 = k)) as [->|Hne].
    + rewrite lookup_insert_eq. intros [= ->]. right. by left.
    + rewrite lookup_insert_ne by done. auto.
Qed.

(** *** Cards of a column that was not created *)

(** Decides that a request is not a placement. *)
Ltac not_placement :=
  first
    [ reflexivity
    | unfold placement, hasSuffix, cardPath; rewrite ?rev_app_distr;
      lazy; reflexivity ].

Ltac no_placement :=
  repeat first
    [ apply AllCalls_Ret
    | apply AllCalls_eprint; not_placement
    | apply AllCalls_call; not_placement
    | apply AllCalls_bind
    | apply AllCalls_forEach
    | intros ?
    | match goal with
      | |- AllCalls _ (match ?x with _ => _ end) => destruct x
      end ].

Lemma migrateInlineAttachments_no_placement (g : globals)
    (src tgt html : str) :
  AllCalls (fun r => placement r = false)
    (migrateInlineAttachments g src tgt html).
Proof.
  unfold migrateInlineAttachments, inlineAttachmentStep. no_placement.
Qed.

Lemma cardDescription_no_placement (g : globals) (src tgt : str)
    (card : object) (stats : migrationStats) :
  AllCalls (fun r => placement r = false)
    (cardDescription g src tgt card stats).
Proof.
  unfold cardDescription, warnIfError.
  destruct (_ && _); [|constructor].
  apply AllCalls_bind; [apply migrateInlineAttachments_no_placement|].
  no_placement.
Qed.

Lemma migrateComments_no_placement (g : globals)
    (src tgt sourceNum targetNum : str) :
  AllCalls (fun r => placement r = false)
    (migrateComments g src tgt sourceNum targetNum).
Proof.
  unfold migrateComments. apply AllCalls_bind.
  { apply AllCalls_call. not_placement. }
  intros [resp|err]; [|constructor].
  destruct (Data resp); try constructor.
  apply AllCalls_bind; [|intros; constructor].
  apply AllCalls_forEach. intros created comment.
  unfold migrateCommentStep. destruct comment; try constructor.
  destruct (commentBody _) as [bodyContent bodyHTML].
  destruct (streq bodyContent []); [constructor|].
  apply AllCalls_bind.
  - destruct (_ && _); [|constructor].
    apply AllCalls_bind; [apply migrateInlineAttachments_no_placement|].
    no_placement.
  - intros body. no_placement.
Qed.

(** A card whose column has no entry in the column mapping is not placed,
    and nothing is printed about it. *)
Lemma migrateCard_no_placement (g : globals) (src tgt : str) (card : object)
    (board : str) (mapping : gmap str str) (stats : migrationStats) :
  mapping !! getCardColumnID card = None ->
  AllCalls (fun r => placement r = false)
    (migrateCard g src tgt card board mapping stats).
Proof.
  intros Hnone. unfold migrateCard.
  apply AllCalls_bind; [apply cardDescription_no_placement|].
  intros [description stats1].
  apply AllCalls_bind; [apply AllCalls_call; not_placement|].
  intros [resp|err]; [|constructor].
  apply AllCalls_bind; [unfold followCreated; no_placement|].
  intros followed. destruct (_ =? 0); [constructor|].
  apply AllCalls_bind; [|intros; constructor].
  unfold migrateCardSubSteps. rewrite Hnone.
  apply AllCalls_bind.
  { unfold applyTagStep, applyTag. no_placement. }
  intros stats2. apply AllCalls_bind; [no_placement|]. intros _.
  apply AllCalls_bind.
  { unfold closeCard, warnIfError. no_placement. }
  intros _. apply AllCalls_bind.
  { unfold markGolden, warnIfError. no_placement. }
  intros _. apply AllCalls_bind.
  { destruct (migrateBoardIncludeComments g); [|constructor].
    apply AllCalls_bind; [apply migrateComments_no_placement|].
    unfold warnIfError. no_placement. }
  intros stats3. apply AllCalls_bind.
  { unfold migrateSteps, migrateStepStep, warnIfError. no_placement. }
  intros stats4. unfold migrateCardImage. no_placement.
Qed.

(** C3. In a run that is not a dry run, the run ends with an error exactly
    when one of five stages fails: the access check, the fetch of the
    source board, of its columns, of its cards, or the creation of the
    target board; otherwise it ends with the migration result, whatever
    the replies to the later calls. The column mapping holds exactly the
    columns whose creation succeeded, so a column whose creation failed
    has no entry; and for a card whose column has no entry no placement
    request is made and no warning about a placement is printed. *)
Theorem only_five_stages_end_the_run {W : Type}
    (h : W -> request -> W * reply) (w : W) (g : globals)
    (sourceBoardID : str) :
  validInvocation g = true ->
  migrateBoardDryRun g = false ->
  let r := run h w (runMigrateBoard g sourceBoardID) in
  let board := (resultOf (createBoardStage h w g sourceBoardID)).1 in
  let mapping := (resultOf (createColumnsStage h w g sourceBoardID)).1 in
  ((exists err, resultOf r = ExitWithError err) <->
   stageFailed h w g sourceBoardID)
  /\ (~ stageFailed h w g sourceBoardID ->
      resultOf r = Migrated (resultOf (migrateCardsStage h w g
                                         sourceBoardID)))
  /\ (forall source,
        mapping !! source = None <->
        source ∉ (columnsCreatedInRun h w g sourceBoardID).*1)
  /\ (forall source target,
        mapping !! source = Some target ->
        In (source, target) (columnsCreatedInRun h w g sourceBoardID))
  /\ (forall card stats w',
        mapping !! getCardColumnID card = None ->
        Forall (fun x => placement x.1 = false)
          (traceOf (run h w' (migrateCard g (migrateBoardFrom g)
                                (migrateBoardTo g) card board mapping
                                stats)))).
Proof.
  intros Hv Hdry. cbv zeta.
  pose proof (runMigrateBoard_result h w g sourceBoardID Hv) as Hres.
  rewrite Hdry in Hres.
  assert ((resultOf (createColumnsStage h w g sourceBoardID)).1
          = recordPairs ∅ (columnsCreatedInRun h w g sourceBoardID))
    as Hmapping.
  { unfold createColumnsStage, createColumns, columnsCreatedInRun.
    by rewrite createColumns_loop. }
  unfold stageFailed. split; [|split; [|split; [|split]]].
  - rewrite Hres.
    destruct (resultOf (accessStage h w g)) as [e1|].
    { split; [intros _; by left | by eexists]. }
    destruct ((resultOf (boardStage h w g sourceBoardID)).2) as [e2|].
    { split; [intros _; right; by left | by eexists]. }
    destruct ((resultOf (columnsStage h w g sourceBoardID)).2) as [e3|].
    { split; [intros _; right; right; by left | by eexists]. }
    destruct ((resultOf (cardsStage h w g sourceBoardID)).2) as [e4|].
    { split; [intros _; do 3 right; by left | by eexists]. }
    destruct ((resultOf (createBoardStage h w g sourceBoardID)).2)
      as [e5|].
    { split; [intros _; do 4 right; done | by eexists]. }
    split; [by intros [err Herr]|]. intros [?|[?|[?|[?|?]]]]; done.
  - intros Hok. rewrite Hres.
    destruct (resultOf (accessStage h w g)) as [e1|].
    { exfalso. apply Hok. by left. }
    destruct ((resultOf (boardStage h w g sourceBoardID)).2) as [e2|].
    { exfalso. apply Hok. right. by left. }
    destruct ((resultOf (columnsStage h w g sourceBoardID)).2) as [e3|].
    { exfalso. apply Hok. right. right. by left. }
    destruct ((resultOf (cardsStage h w g sourceBoardID)).2) as [e4|].
    { exfalso. apply Hok. do 3 right. by left. }
    destruct ((resultOf (createBoardStage h w g sourceBoardID)).2)
      as [e5|]; [|done].
    exfalso. apply Hok. by do 4 right.
  - intros source. rewrite Hmapping. apply recordPairs_lookup_None.
  - intros source target. rewrite Hmapping. apply recordPairs_lookup_Some.
  - intros card stats w' Hnone.
    apply (AllCalls_run (fun r => placement r = false)).
    by apply migrateCard_no_placement.
Qed.

Lemma only_five_stages_end_the_run_witness :
  let h := sampleServer sampleCards backlogColumnFails in
  let g := plainGlobals in
  let r := run h 0 (runMigrateBoard g (lit "b7")) in
  let board := (resultOf (createBoardStage h 0 g (lit "b7"))).1 in
  let mapping := (resultOf (createColumnsStage h 0 g (lit "b7"))).1 in
  ((exists err, resultOf r = ExitWithError err) <->
   stageFailed h 0 g (lit "b7"))
  /\ (~ stageFailed h 0 g (lit "b7") ->
      resultOf r = Migrated (resultOf (migrateCardsStage h 0 g (lit "b7"))))
  /\ (forall source,
        mapping !! source = None <->
        source ∉ (columnsCreatedInRun h 0 g (lit "b7")).*1)
  /\ (forall source target,
        mapping !! source = Some target ->
        In (source, target) (columnsCreatedInRun h 0 g (lit "b7")))
  /\ (forall card stats w',
        mapping !! getCardColumnID card = None ->
        Forall (fun x => placement x.1 = false)
          (traceOf (run h w' (migrateCard g (migrateBoardFrom g)
                                (migrateBoardTo g) card board mapping
                                stats)))).
Proof.
  apply (only_five_stages_end_the_run
           (sampleServer sampleCards backlogColumnFails) 0 plainGlobals
           (lit "b7")); reflexivity.
Defined.

(** The run of the witness. The creation of "Backlog" is refused: the run
    ends with the migration result, one column and three cards created;
    only "In Progress" is in the column mapping; and the one placement
    request is that of the third card. *)
Example backlog_column_fails :
  let h := sampleServer sampleCards backlogColumnFails in
  let r := run h 0 (runMigrateBoard plainGlobals (lit "b7")) in
  columnsCreated (statsOf (resultOf r)) = 1
  /\ cardsCreated (statsOf (resultOf r)) = 3
  /\ columnsCreatedInRun h 0 plainGlobals (lit "b7")
     = [(lit "c-progress", lit "t-col-1")]
  /\ List.filter placement (requestsOf (traceOf r))
     = [Post (lit "beta") (lit "/cards/104/triage.json")
          (JObject [(lit "column_id", JString (lit "t-col-1"))])].
Proof. cbv zeta. by vm_compute. Qed.

(** Each of the five stages ends the run when it fails. *)
Example each_stage_ends_the_run :
  let ends (fails : request -> bool) :=
    match resultOf (run (sampleServer sampleCards fails) 0
                      (runMigrateBoard plainGlobals (lit "b7"))) with
    | ExitWithError _ => true
    | _ => false
    end in
  ends (fun r => match r with Get a _ => streq a [] | _ => false end)
  = true
  /\ ends (fun r => match r with
                    | Get _ p => hasSuffix p (lit "/b7.json")
                    | _ => false
                    end) = true
  /\ ends (fun r => match r with
                    | Get _ p => hasSuffix p (lit "/columns.json")
                    | _ => false
                    end) = true
  /\ ends (fun r => match r with
                    | GetWithPagination _ _ _ => true
                    | _ => false
                    end) = true
  /\ ends (fun r => match r with
                    | Post _ p _ => streq p (lit "/boards.json")
                    | _ => false
                    end) = true
  /\ ends (fun r => match r with
                    | Post _ p _ => negb (streq p (lit "/boards.json"))
                    | _ => false
                    end) = false.
Proof. cbv zeta. by vm_compute. Qed.

(** * Further properties *)

(** ** Walking a program *)

(** Proves [AllCalls P p] along the syntax of [p]; [tac] proves [P] of
    each request. *)
Ltac walk tac :=
  repeat first
    [ apply AllCalls_Ret
    | apply AllCalls_eprint; tac
    | apply AllCalls_call; tac
    | apply AllCalls_bind
    | apply AllCalls_forEach
    | apply AllCalls_forEachIndexed
    | intros ?
    | match goal with
      | |- AllCalls _ (match ?x with _ => _ end) => destruct x
      end ].

(** Unfolds the functions of the migration down to their calls. *)
Ltac unfold_migration :=
  unfold runMigrateBoard, verifyAccountAccess, getBoard, getColumns,
    getAllCards, printDryRunSummary, printMigrationSummary, whenFlag,
    createBoard, createColumns, createColumnStep, createColumn,
    migrateCards, migrateCardStep, migrateCard, cardDescription,
    migrateCardSubSteps, applyTagStep, applyTag, moveToColumn, closeCard,
    markGolden, migrateComments, migrateCommentStep, migrateSteps,
    migrateStepStep, migrateCardImage, migrateInlineAttachments,
    inlineAttachmentStep, followCreated, warnIfError.

(** ** The two accounts *)

Lemma runMigrateBoard_mutates_target (g : globals) (sourceBoardID : str) :
  AllCalls (fun r => mutating r = true ->
                     accountOf r = Some (migrateBoardTo g))
    (runMigrateBoard g sourceBoardID).
Proof. unfold_migration. walk ltac:(by intros). Qed.

(** X2. Every mutating call of a migration is addressed to the target
    account, and no call addressed to the source account is mutating:
    the source is only read. *)
Theorem migration_mutates_target_only {W : Type}
    (h : W -> request -> W * reply) (w : W) (g : globals)
    (sourceBoardID : str) :
  Forall (fun x =>
            (mutating x.1 = true ->
             accountOf x.1 = Some (migrateBoardTo g))
            /\ (accountOf x.1 = Some (migrateBoardFrom g) ->
                mutating x.1 = false))
    (traceOf (run h w (runMigrateBoard g sourceBoardID))).
Proof.
  destruct (validInvocation g) eqn:Hv.
  - apply validInvocation_true in Hv as (_ & _ & _ & Hne).
    eapply Forall_impl.
    + apply (AllCalls_run _ _ h w
               (runMigrateBoard_mutates_target g sourceBoardID)).
    + intros [r x] Hr. cbn [fst] in *. split; [done|].
      intros Hfrom. destruct (mutating r) eqn:Hmut; [|done].
      rewrite (Hr eq_refl) in Hfrom. injection Hfrom as Hfrom.
      rewrite Hfrom, streq_refl in Hne. done.
  - destruct (runMigrateBoard_invalid h w g sourceBoardID Hv) as [err ->].
    constructor.
Qed.

(** ** Temporary files *)

Lemma Leaves_bind {A B : Type} (p : Prog A) (f : A -> Prog B)
    (left left1 left2 : list str) :
  Leaves left p left1 -> (forall a, Leaves left1 (f a) left2) ->
  Leaves left (bind p f) left2.
Proof.
  intros Hp Hf. induction Hp as [a left | r k left left1 Hk IH]; simpl.
  - apply Hf.
  - constructor. intros x. by apply IH.
Qed.

Lemma Leaves_call (r : request) (left : list str) :
  Leaves left (call r) (fileStep r left).
Proof. constructor. intros x. constructor. Qed.

Lemma Leaves_eprint (text : str) (left : list str) :
  Leaves left (eprint text) left.
Proof.
  unfold eprint. eapply Leaves_bind; [apply Leaves_call|].
  intros _. constructor.
Qed.

Lemma Leaves_forEach {X S : Type} (xs : list X) (body : S -> X -> Prog S)
    (s : S) (left : list str) :
  (forall s x, Leaves left (body s x) left) ->
  Leaves left (forEach xs body s) left.
Proof.
  intros Hbody. revert s. induction xs as [|x xs IH]; intros s; simpl.
  - constructor.
  - eapply Leaves_bind; [apply Hbody|]. apply IH.
Qed.

Lemma Leaves_forEachIndexed {X S : Type} (i : Z) (xs : list X)
    (body : Z -> S -> X -> Prog S) (s : S) (left : list str) :
  (forall i s x, Leaves left (body i s x) left) ->
  Leaves left (forEachIndexed i xs body s) left.
Proof.
  intros Hbody. revert i s. induction xs as [|x xs IH]; intros i s; simpl.
  - constructor.
  - eapply Leaves_bind; [apply Hbody|]. apply IH.
Qed.

Lemma Leaves_run {W A : Type} (h : W -> request -> W * reply) (p : Prog A)
    (left left' : list str) :
  Leaves left p left' ->
  forall w,
    fold_left (fun left r => fileStep r left)
      (requestsOf (traceOf (run h w p))) left = left'.
Proof.
  induction 1 as [a left | r k left left' Hk IH]; intros w; [done|].
  assert (forall (x : reply) w1,
            fold_left (fun left r => fileStep r left)
              (requestsOf (traceOf (let '(a, w2, t) := run h w1 (k x) in
                                    (a, w2, (r, x) :: t)))) left
            = left') as Hstep.
  { intros x w1. specialize (IH x w1).
    by destruct (run h w1 (k x)) as [[a w2] t]. }
  destruct r; simpl; try (destruct (h w _) as [w1 x]); apply Hstep.
Qed.

Ltac tidy_files :=
  cbn [fileStep List.filter]; rewrite ?streq_refl; cbn [negb List.filter].

Ltac walk_files :=
  repeat first
    [ progress tidy_files
    | apply Leaves_Ret
    | apply Leaves_eprint
    | apply Leaves_call
    | eapply Leaves_bind
    | apply Leaves_forEach
    | apply Leaves_forEachIndexed
    | intros ?
    | match goal with
      | |- Leaves _ (match ?x with _ => _ end) _ => destruct x
      end ].

Lemma runMigrateBoard_leaves_nothing (g : globals) (sourceBoardID : str) :
  Leaves [] (runMigrateBoard g sourceBoardID) [].
Proof. unfold_migration. walk_files. Qed.

(** X4. Every temporary file the migration downloads is removed again,
    whatever its calls are answered: after a run of [runMigrateBoard], of
    [migrateCard], of [migrateCardImage] or of [migrateInlineAttachments]
    no downloaded file is left. *)
Theorem migration_removes_temp_files {W : Type}
    (h : W -> request -> W * reply) (w : W) (g : globals) :
  (forall sourceBoardID,
     tempFilesLeft (requestsOf (traceOf
       (run h w (runMigrateBoard g sourceBoardID)))) = [])
  /\ (forall src tgt card board mapping stats,
        tempFilesLeft (requestsOf (traceOf
          (run h w (migrateCard g src tgt card board mapping stats)))) = [])
  /\ (forall src tgt imageURL cardNum,
        tempFilesLeft (requestsOf (traceOf
          (run h w (migrateCardImage g src tgt imageURL cardNum)))) = [])
  /\ (forall src tgt html,
        tempFilesLeft (requestsOf (traceOf
          (run h w (migrateInlineAttachments g src tgt html)))) = []).
Proof.
  unfold tempFilesLeft. repeat split; intros; apply Leaves_run.
  - apply runMigrateBoard_leaves_nothing.
  - unfold_migration. walk_files.
  - unfold_migration. walk_files.
  - unfold_migration. walk_files.
Qed.

(** A run that downloads three files, with every upload refused: the
    three files are removed. *)
Example temp_files_of_a_failing_run :
  let r := run (sampleServer [richCard] everyUploadFails) 0
             (runMigrateBoard fullGlobals (lit "b7")) in
  List.filter (fun r => match r with
                        | DownloadFile _ _ _ | Remove _ => true
                        | _ => false
                        end) (requestsOf (traceOf r))
  = [ DownloadFile (lit "acme")
        (lit "/blobs/1/a.png?disposition=attachment")
        (lit "/tmp/fizzy-migrate-attachment-1-a.png");
      Remove (lit "/tmp/fizzy-migrate-attachment-1-a.png");
      DownloadFile (lit "acme") (lit "/blobs/9/header.jpg")
        (lit "/tmp/fizzy-migrate-image-103.jpg");
      Remove (lit "/tmp/fizzy-migrate-image-103.jpg") ].
Proof. cbv zeta. by vm_compute. Qed.

(** ** Before the first change *)

Lemma discovery_reads (g : globals) (src tgt id : str) :
  AllCalls (fun r => readOnly r = true) (verifyAccountAccess g src tgt)
  /\ AllCalls (fun r => readOnly r = true) (getBoard src id)
  /\ AllCalls (fun r => readOnly r = true) (getColumns src id)
  /\ AllCalls (fun r => readOnly r = true) (getAllCards src id).
Proof. repeat split; unfold_migration; walk ltac:(exact eq_refl). Qed.

(** Names the result, the outside and the trace of the next stage. *)
Ltac next_stage :=
  match goal with
  | |- context [run ?h ?w0 ?p] =>
      let r := fresh "r" in
      let E := fresh "E" in
      remember (run h w0 p) as r eqn:E in *; clear E;
      destruct r as [[access ?w] ?t];
      unfold resultOf, worldOf, traceOf in *; cbn [fst snd] in *
  end.

Ltac all_read_only :=
  repeat first
    [ assumption
    | apply Forall_nil_2
    | apply Forall_app_2
    | apply Forall_cons_2; [exact eq_refl|] ].

(** X3. When the access check or one of the three fetches fails, the run
    has made no call but reads and prints: nothing was created. *)
Theorem failed_discovery_changes_nothing {W : Type}
    (h : W -> request -> W * reply) (w : W) (g : globals)
    (sourceBoardID : str) :
  resultOf (accessStage h w g) <> None
  \/ (resultOf (boardStage h w g sourceBoardID)).2 <> None
  \/ (resultOf (columnsStage h w g sourceBoardID)).2 <> None
  \/ (resultOf (cardsStage h w g sourceBoardID)).2 <> None ->
  Forall (fun x => readOnly x.1 = true)
    (traceOf (run h w (runMigrateBoard g sourceBoardID))).
Proof.
  intros Hfailed. destruct (validInvocation g) eqn:Hv.
  2:{ destruct (runMigrateBoard_invalid h w g sourceBoardID Hv)
        as [err ->]. constructor. }
  apply validInvocation_true in Hv as (Hauth & Hfrom & Hto & Hne).
  destruct (discovery_reads g (migrateBoardFrom g) (migrateBoardTo g)
              sourceBoardID) as (R1 & R2 & R3 & R4).
  apply (AllCalls_run _ _ h w) in R1.
  apply (AllCalls_run _ _ h (worldOf (accessStage h w g))) in R2.
  apply (AllCalls_run _ _ h
           (worldOf (boardStage h w g sourceBoardID))) in R3.
  apply (AllCalls_run _ _ h
           (worldOf (columnsStage h w g sourceBoardID))) in R4.
  unfold cardsStage, columnsStage, boardStage, accessStage in *.
  unfold runMigrateBoard. rewrite Hauth, Hfrom, Hto, Hne. run_norm.
  next_stage. destruct access as [e1|]; run_norm; [all_read_only|].
  next_stage. destruct access as [sourceBoard [e2|]]; run_norm;
    [all_read_only|].
  next_stage. destruct access as [sourceColumns [e3|]]; run_norm;
    [all_read_only|].
  next_stage. destruct access as [sourceCards [e4|]]; run_norm;
    [all_read_only|].
  by destruct Hfailed as [?|[?|[?|?]]].
Qed.

Lemma failed_discovery_changes_nothing_witness :
  Forall (fun x => readOnly x.1 = true)
    (traceOf (run (sampleServer sampleCards columnsFetchFails) 0
                (runMigrateBoard plainGlobals (lit "b7")))).
Proof.
  apply (failed_discovery_changes_nothing
           (sampleServer sampleCards columnsFetchFails) 0 plainGlobals
           (lit "b7")).
  right. right. left. vm_compute. discriminate.
Defined.


(** ** Requests in order *)

Lemma Emits_bind {A B C : Type} (sel : request -> option C) (p : Prog A)
    (f : A -> Prog B) (l1 l2 : list C) :
  Emits sel p l1 -> (forall a, Emits sel (f a) l2) ->
  Emits sel (bind p f) (l1 ++ l2).
Proof.
  intros Hp Hf. induction Hp as [a | r k l Hk IH]; simpl; [apply Hf|].
  rewrite <- app_assoc. constructor. apply IH.
Qed.

Lemma Emits_eq {A C : Type} (sel : request -> option C) (p : Prog A)
    (l l' : list C) :
  Emits sel p l -> l = l' -> Emits sel p l'.
Proof. by intros H <-. Qed.

Lemma Emits_call {C : Type} (sel : request -> option C) (r : request) :
  Emits sel (call r) (option_list (sel r)).
Proof.
  eapply Emits_eq; [constructor; intros x; constructor|apply app_nil_r].
Qed.

Lemma Emits_eprint {C : Type} (sel : request -> option C) (text : str) :
  sel (Stderr text) = None -> Emits sel (eprint text) [].
Proof.
  intros Hsel. unfold eprint.
  eapply Emits_eq; [eapply Emits_bind; [apply Emits_call|]|].
  - intros _. constructor.
  - by rewrite Hsel.
Qed.

Lemma Emits_forEach {X S C : Type} (sel : request -> option C)
    (e : X -> list C) (xs : list X) (body : S -> X -> Prog S) (s : S) :
  (forall s x, Emits sel (body s x) (e x)) ->
  Emits sel (forEach xs body s) (concat (map e xs)).
Proof.
  intros Hbody. revert s. induction xs as [|x xs IH]; intros s; simpl.
  - constructor.
  - apply Emits_bind; auto.
Qed.

Lemma Emits_forEachIndexed {X S C : Type} (sel : request -> option C)
    (e : X -> list C) (i : Z) (xs : list X) (body : Z -> S -> X -> Prog S)
    (s : S) :
  (forall i s x, Emits sel (body i s x) (e x)) ->
  Emits sel (forEachIndexed i xs body s) (concat (map e xs)).
Proof.
  intros Hbody. revert i s. induction xs as [|x xs IH]; intros i s; simpl.
  - constructor.
  - apply Emits_bind; auto.
Qed.

(** A program none of whose requests is picked out. *)
Lemma Emits_none {A C : Type} (sel : request -> option C) (p : Prog A) :
  AllCalls (fun r => sel r = None) p -> Emits sel p [].
Proof.
  induction 1 as [a | r k Hr Hk IH]; [constructor|].
  eapply Emits_eq; [constructor; apply IH|]. by rewrite Hr.
Qed.

Lemma Emits_run {W A C : Type} (sel : request -> option C) (p : Prog A)
    (l : list C) (h : W -> request -> W * reply) :
  Emits sel p l ->
  forall w, omap sel (requestsOf (traceOf (run h w p))) = l.
Proof.
  induction 1 as [a | r k l Hk IH]; intros w; [done|].
  assert (forall (x : reply) w1,
            omap sel (requestsOf
                        (traceOf (let '(a, w2, t) := run h w1 (k x) in
                                  (a, w2, (r, x) :: t))))
            = option_list (sel r) ++ l) as Hstep.
  { intros x w1. specialize (IH x w1).
    destruct (run h w1 (k x)) as [[a w2] t].
    unfold traceOf, requestsOf in *. cbn [snd map fst omap list_omap] in *.
    rewrite <- IH. by destruct (sel r). }
  destruct r; simpl; try (destruct (h w _) as [w1 x]); apply Hstep.
Qed.

Lemma omap_concat_option_list {X C : Type} (e : X -> option C)
    (xs : list X) :
  concat (map (fun x => option_list (e x)) xs) = omap e xs.
Proof.
  induction xs as [|x xs IH]; [done|]. cbn. rewrite IH.
  by destruct (e x).
Qed.

(** X5. The column loop sends one creation request for each real column,
    in the order of the source columns and with the column's name and
    colour (the colour is left out when it is empty), whatever the
    requests are answered: a refused creation does not stop the later
    ones. *)
Theorem createColumns_requests {W : Type} (h : W -> request -> W * reply)
    (w : W) (tgt board : str) (columns : list json)
    (stats : migrationStats) :
  omap posts (requestsOf (traceOf
    (run h w (createColumns tgt board columns stats))))
  = omap (columnCreation tgt board) columns
  /\ length (omap (columnCreation tgt board) columns)
     = Z.to_nat (countRealColumns columns).
Proof.
  split.
  - apply Emits_run. unfold createColumns.
    rewrite <- omap_concat_option_list. apply Emits_forEach.
    intros [mapping s] col. unfold createColumnStep, columnCreation.
    destruct col as [| | | | | |colMap]; try constructor.
    destruct (skippedAsPseudo colMap); [constructor|]. cbv zeta.
    eapply Emits_eq.
    + eapply Emits_bind.
      * unfold createColumn. eapply Emits_bind; [apply Emits_call|].
        intros [resp|err].
        -- apply (Emits_bind posts _ _ [] []).
           ++ unfold followCreated. apply Emits_none.
              walk ltac:(exact eq_refl).
           ++ intros [data|]; [constructor|].
              destruct (Data resp); constructor.
        -- constructor.
      * intros [id [err|]]; [|constructor].
        apply (Emits_bind posts _ _ [] []).
        -- by apply Emits_eprint.
        -- intros _. constructor.
    + cbn [posts option_list app].
      by destruct (streq (getStringField colMap (lit "color")) []).
  - rewrite countRealColumns_filter, Nat2Z.id.
    induction columns as [|col columns IH]; [done|].
    cbn [omap list_omap List.filter].
    destruct col as [| | | | | |colMap]; cbn [columnCreation realColumn];
      try exact IH.
    destruct (skippedAsPseudo colMap); cbn [negb length]; [exact IH|].
    by rewrite IH.
Qed.

Lemma createdTitle_body (tgt board title description createdAt : str) :
  createdTitle (Post tgt (lit "/cards.json")
                  (cardRequestBody board title description createdAt))
  = Some title.
Proof.
  unfold cardRequestBody.
  by destruct (streq description []), (streq createdAt []).
Qed.

Lemma migrateCard_titles (g : globals) (src tgt : str) (card : object)
    (board : str) (mapping : gmap str str) (stats : migrationStats) :
  Emits createdTitle (migrateCard g src tgt card board mapping stats)
    [getStringField card (lit "title")].
Proof.
  unfold migrateCard.
  apply (Emits_bind createdTitle _ _ [] [_]).
  { apply Emits_none. unfold_migration. walk ltac:(exact eq_refl). }
  intros [description stats1].
  apply (Emits_bind createdTitle _ _ [_] []).
  { eapply Emits_eq; [apply Emits_call|]. by rewrite createdTitle_body. }
  intros [resp|err]; [|constructor].
  apply Emits_none. unfold_migration. walk ltac:(exact eq_refl).
Qed.

(** X7. The card loop sends one card-creation request for each source
    card, in the order in which the cards were fetched and with the
    card's title, whatever the requests are answered: a card that cannot
    be created does not stop the later ones. *)
Theorem migrateCards_requests {W : Type} (h : W -> request -> W * reply)
    (w : W) (g : globals) (src tgt board : str) (mapping : gmap str str)
    (cards : list json) (stats : migrationStats) :
  omap createdTitle (requestsOf (traceOf
    (run h w (migrateCards g src tgt board mapping cards stats))))
  = omap sourceTitle cards.
Proof.
  apply Emits_run. unfold migrateCards.
  rewrite <- omap_concat_option_list. apply Emits_forEachIndexed.
  intros i s card. unfold migrateCardStep, sourceTitle.
  destruct card as [| | | | | |cardMap]; try constructor.
  apply (Emits_bind createdTitle _ _ [] [_]).
  { by apply Emits_eprint. }
  intros _. apply (Emits_bind createdTitle _ _ [_] []).
  { apply migrateCard_titles. }
  intros [stats1 [n [err|]]]; [|constructor].
  apply (Emits_bind createdTitle _ _ [] []).
  - by apply Emits_eprint.
  - intros _. constructor.
Qed.


(** ** Counting *)

Lemma tally_cons (f : request -> reply -> Z) (x : request * reply)
    (t : trace) :
  tally f (x :: t) = f x.1 x.2 + tally f t.
Proof.
  unfold tally. cbn [fold_left].
  enough (forall n m, fold_left (fun n x => n + f x.1 x.2) t (n + m)
                      = n + fold_left (fun n x => n + f x.1 x.2) t m)
    as Hgen by (rewrite Z.add_comm, Hgen; f_equal).
  induction t as [|y t IH]; intros n m; cbn [fold_left]; [done|].
  by rewrite <- Z.add_assoc, IH.
Qed.

Lemma tally_app (f : request -> reply -> Z) (t1 t2 : trace) :
  tally f (t1 ++ t2) = tally f t1 + tally f t2.
Proof.
  induction t1 as [|x t1 IH]; [done|].
  rewrite <- app_comm_cons, !tally_cons, IH. lia.
Qed.

Lemma Tally_impl {A : Type} (f : request -> reply -> Z)
    (Q Q' : A -> Z -> Prop) (n : Z) (p : Prog A) :
  (forall a m, Q a m -> Q' a m) -> Tally f Q n p -> Tally f Q' n p.
Proof. intros HQ. induction 1; constructor; auto. Qed.

Lemma Tally_bind {A B : Type} (f : request -> reply -> Z)
    (Q : B -> Z -> Prop) (n : Z) (p : Prog A) (g : A -> Prog B) :
  Tally f (fun a m => Tally f Q m (g a)) n p -> Tally f Q n (bind p g).
Proof. induction 1; simpl; [done|]. constructor. auto. Qed.

Lemma Tally_call (f : request -> reply -> Z) (Q : reply -> Z -> Prop)
    (n : Z) (r : request) :
  (forall x, Q x (n + f r x)) -> Tally f Q n (call r).
Proof. intros HQ. constructor. intros x. constructor. apply HQ. Qed.

Lemma Tally_eprint (f : request -> reply -> Z) (Q : unit -> Z -> Prop)
    (n : Z) (text : str) :
  (forall x, f (Stderr text) x = 0) -> Q tt n -> Tally f Q n (eprint text).
Proof.
  intros Hf HQ. unfold eprint. apply Tally_bind, Tally_call.
  intros x. constructor. by rewrite Hf, Z.add_0_r.
Qed.

Lemma Tally_forEach {X S : Type} (f : request -> reply -> Z)
    (I : S -> Z -> Prop) (xs : list X) (body : S -> X -> Prog S) :
  (forall s x m, I s m -> Tally f I m (body s x)) ->
  forall s n, I s n -> Tally f I n (forEach xs body s).
Proof.
  intros Hbody. induction xs as [|x xs IH]; intros s n Hs; simpl.
  - by constructor.
  - apply Tally_bind. eapply Tally_impl; [|by apply Hbody].
    intros s' m. apply IH.
Qed.

Lemma Tally_run {W A : Type} (f : request -> reply -> Z)
    (Q : A -> Z -> Prop) (n : Z) (p : Prog A)
    (h : W -> request -> W * reply) :
  Tally f Q n p ->
  forall w, Q (resultOf (run h w p)) (n + tally f (traceOf (run h w p))).
Proof.
  induction 1 as [a n Ha | r k n Hk IH]; intros w.
  - unfold tally. cbn. by rewrite Z.add_0_r.
  - assert (forall (x : reply) w1,
              Q (resultOf (let '(a, w2, t) := run h w1 (k x) in
                           (a, w2, (r, x) :: t)))
                (n + tally f (traceOf (let '(a, w2, t) := run h w1 (k x) in
                                       (a, w2, (r, x) :: t))))) as Hstep.
    { intros x w1. specialize (IH x w1).
      destruct (run h w1 (k x)) as [[a w2] t].
      unfold resultOf, traceOf in *. cbn [fst snd] in *.
      by rewrite tally_cons, Z.add_assoc. }
    destruct r; simpl; try (destruct (h w _) as [w1 x]); apply Hstep.
Qed.

Lemma hasSuffix_app (s suffix : str) : hasSuffix (s ++ suffix) suffix = true.
Proof. unfold hasSuffix. rewrite rev_app_distr. apply hasPrefix_app. Qed.

Lemma okPost_cardPath (tgt num suffix : str) (body : json) (x : reply) :
  okPost suffix (Post tgt (cardPath num suffix) body) x
  = if isOk x then 1 else 0.
Proof.
  unfold okPost, cardPath. by rewrite app_assoc, hasSuffix_app.
Qed.

(** ** Steps and comments *)

(** X8. [migrateSteps] never returns an error. The number it returns is
    the number of step-creation requests that succeeded; and it sends one
    such request for each step of the source card that is an object with
    a content, in order, whatever the requests are answered. *)
Theorem migrateSteps_counts {W : Type} (h : W -> request -> W * reply)
    (w : W) (tgt : str) (card : object) (num : str) :
  let r := run h w (migrateSteps tgt card num) in
  (resultOf r).2 = None
  /\ (resultOf r).1 = tally (okPost (lit "/steps.json")) (traceOf r)
  /\ omap posts (requestsOf (traceOf r))
     = omap (stepCreation tgt num) (stepsOf card).
Proof.
  cbv zeta. split; [|split].
  - apply (Returns_run (fun r => r.2 = None)). unfold migrateSteps.
    destruct (index card (lit "steps")) as [| | | | |[|step steps]|];
      try by constructor.
    apply Returns_then. intros created. by constructor.
  - pose proof (Tally_run (okPost (lit "/steps.json"))
                  (fun r m => r.1 = m) 0 (migrateSteps tgt card num) h)
      as Hrun.
    rewrite <- (Z.add_0_l (tally _ _)). apply Hrun. clear Hrun.
    unfold migrateSteps.
    destruct (index card (lit "steps")) as [| | | | |[|step steps]|];
      try by constructor.
    apply Tally_bind.
    eapply Tally_impl;
      [|apply (Tally_forEach _ (fun created m => created = m)); [|done]].
    { intros created m ->. by constructor. }
    intros created step' m ->. unfold migrateStepStep.
    destruct step' as [| | | | | |stepMap]; try by constructor.
    destruct (streq _ []); [by constructor|].
    apply Tally_bind, Tally_call. intros x. rewrite okPost_cardPath.
    destruct x as [resp|err]; cbn [isOk].
    + constructor. lia.
    + apply Tally_bind, Tally_eprint; [done|]. constructor. lia.
  - apply Emits_run. unfold migrateSteps, stepsOf.
    destruct (index card (lit "steps")) as [| | | | |[|step steps]|];
      try by constructor.
    eapply Emits_eq; [eapply Emits_bind|apply app_nil_r].
    2:{ intros created. constructor. }
    rewrite <- omap_concat_option_list. apply Emits_forEach.
    intros created step'. unfold migrateStepStep, stepCreation.
    destruct step' as [| | | | | |stepMap]; try constructor.
    destruct (streq _ []); [constructor|]. cbv zeta.
    eapply Emits_eq.
    + eapply Emits_bind; [apply Emits_call|].
      intros [resp|err]; [constructor|].
      apply (Emits_bind posts _ _ [] []); [by apply Emits_eprint|].
      intros _. constructor.
    + cbn [posts option_list app]. unfold cardPath.
      by destruct (getBoolField stepMap (lit "completed")).
Qed.

(** A program whose calls add nothing to the count. *)
Lemma Tally_none {A : Type} (f : request -> reply -> Z)
    (Q : A -> Z -> Prop) (n : Z) (p : Prog A) :
  AllCalls (fun r => forall x, f r x = 0) p -> (forall a, Q a n) ->
  Tally f Q n p.
Proof.
  intros Hp HQ. induction Hp as [a | r k Hr Hk IH]; constructor; [done|].
  intros x. rewrite Hr, Z.add_0_r. apply IH.
Qed.

(** X9. [migrateComments] returns an error only when the listing of the
    source comments is refused, and then it has made no other call. The
    number it returns is the number of comment-creation requests that
    succeeded. *)
Theorem migrateComments_counts {W : Type} (h : W -> request -> W * reply)
    (w : W) (g : globals) (src tgt sourceNum targetNum : str) :
  let listing :=
    GetWithPagination src (cardPath sourceNum (lit "/comments.json")) true in
  let r := run h w (migrateComments g src tgt sourceNum targetNum) in
  match (h w listing).2 with
  | Failed err =>
      r = ((0, Some err), (h w listing).1, [(listing, Failed err)])
  | Ok _ => (resultOf r).2 = None
  end
  /\ (resultOf r).1 = tally (okPost (lit "/comments.json")) (traceOf r).
Proof.
  cbv zeta. split.
  - unfold migrateComments. run_norm.
    destruct (h w _) as [w1 [resp|err]]; cbn [fst snd]; [|by run_norm].
    destruct (Data resp); run_norm; try done.
    by destruct (run h w1 (forEach _ _ _)) as [[created w2] t2].
  - pose proof (Tally_run (okPost (lit "/comments.json"))
                  (fun r m => r.1 = m) 0
                  (migrateComments g src tgt sourceNum targetNum) h)
      as Hrun.
    rewrite <- (Z.add_0_l (tally _ _)). apply Hrun. clear Hrun.
    unfold migrateComments. apply Tally_bind, Tally_call.
    intros [resp|err]; cbn [okPost]; rewrite Z.add_0_r; [|by constructor].
    destruct (Data resp); try by constructor.
    apply Tally_bind.
    eapply Tally_impl;
      [|apply (Tally_forEach _ (fun created m => created = m)); [|done]].
    { intros created m ->. by constructor. }
    intros created comment m ->. unfold migrateCommentStep.
    destruct comment as [| | | | | |commentMap]; try by constructor.
    destruct (commentBody commentMap) as [bodyContent bodyHTML].
    destruct (streq bodyContent []); [by constructor|].
    apply Tally_bind. apply Tally_none.
    { destruct (_ && _); [|constructor]. unfold_migration.
      walk ltac:(by intros). }
    intros body. apply Tally_bind, Tally_call. intros x.
    rewrite okPost_cardPath. destruct x as [resp'|err]; cbn [isOk].
    + constructor. lia.
    + apply Tally_bind, Tally_eprint; [done|]. constructor. lia.
Qed.

(** ** Inline attachments *)

Lemma Tally_forEach_bound {X S : Type} (f : request -> reply -> Z)
    (b : X -> Z) (xs : list X) (body : S -> X -> Prog S) :
  (forall s x n, Tally f (fun _ m => n <= m <= n + b x) n (body s x)) ->
  forall s n,
    Tally f (fun _ m => n <= m <= n + foldr (fun x k => b x + k) 0 xs) n
      (forEach xs body s).
Proof.
  intros Hbody. induction xs as [|x xs IH]; intros s n; simpl.
  - constructor. lia.
  - apply Tally_bind. eapply Tally_impl; [|apply Hbody].
    intros s' m Hm. eapply Tally_impl; [|apply IH].
    intros s'' k Hk. cbn beta in *. lia.
Qed.

(** X10. [migrateInlineAttachments] never returns an error. It downloads
    at most once for each parsed reference that has a download link; the
    number it returns is at most the number of uploads that succeeded,
    which is at most the number of downloads; and without any parsed
    reference it returns the HTML as it is and makes no call. *)
Theorem migrateInlineAttachments_bounds {W : Type}
    (h : W -> request -> W * reply) (w : W) (g : globals)
    (src tgt html : str) :
  let r := run h w (migrateInlineAttachments g src tgt html) in
  (resultOf r).2 = None
  /\ 0 <= (resultOf r).1.2 <= tally okUpload (traceOf r)
  /\ tally okUpload (traceOf r) <= tally download (traceOf r)
  /\ tally download (traceOf r)
     <= Z.of_nat (length (List.filter hasDownloadURL (parseAttachments html)))
  /\ (parseAttachments html = [] -> r = ((html, 0, None), w, [])).
Proof.
  cbv zeta. split; [|split; [|split; [|split]]].
  - apply (Returns_run (fun r => r.2 = None)).
    unfold migrateInlineAttachments.
    destruct (parseAttachments html); [by constructor|].
    apply Returns_then. intros st. by constructor.
  - pose proof (Tally_run okUpload (fun r m => 0 <= r.1.2 <= m) 0
                  (migrateInlineAttachments g src tgt html) h) as Hrun.
    rewrite <- (Z.add_0_l (tally _ _)). apply Hrun. clear Hrun.
    unfold migrateInlineAttachments.
    destruct (parseAttachments html) as [|a atts]; [by constructor|].
    apply Tally_bind.
    eapply Tally_impl;
      [|apply (Tally_forEach _ (fun st m => 0 <= st.2 <= m)); [|done]].
    { intros st m Hm. by constructor. }
    intros [result count] att m Hm. cbn [snd] in Hm.
    unfold inlineAttachmentStep.
    destruct (streq (DownloadURL att) []); [by constructor|]. cbv zeta.
    apply Tally_bind, Tally_call. intros [dresp|err]; cbn [okUpload];
      rewrite Z.add_0_r.
    2:{ apply Tally_bind, Tally_call. intros ?. cbn [okUpload].
        apply Tally_bind, Tally_eprint; [done|]. constructor. cbn. lia. }
    apply Tally_bind, Tally_call. intros u.
    apply Tally_bind, Tally_call. intros ?. cbn [okUpload].
    destruct u as [uploadResp|err]; cbn [isOk].
    2:{ apply Tally_bind, Tally_eprint; [done|]. constructor. cbn. lia. }
    destruct (Data uploadResp);
      try (apply Tally_bind, Tally_eprint; [done|]; constructor; cbn; lia).
    destruct (streq _ []).
    { apply Tally_bind, Tally_eprint; [done|]. constructor. cbn. lia. }
    destruct (negb _); constructor; cbn; lia.
  - assert (forall t, tally (fun r x => download r x - okUpload r x) t
                      = tally download t - tally okUpload t) as Hdiff.
    { induction t as [|x t IH]; [done|]. rewrite !tally_cons, IH. lia. }
    enough (Tally (fun r x => download r x - okUpload r x)
              (fun _ m => 0 <= m) 0
              (migrateInlineAttachments g src tgt html)) as HT.
    { apply (Tally_run _ _ _ _ h) with (w := w) in HT. cbv beta in HT.
      rewrite Hdiff in HT. lia. }
    clear Hdiff.
    unfold migrateInlineAttachments.
    destruct (parseAttachments html) as [|a atts]; [by constructor|].
    apply Tally_bind.
    eapply Tally_impl;
      [|apply (Tally_forEach _ (fun st m => 0 <= m)); [|done]].
    { intros st m Hm. by constructor. }
    intros [result count] att m Hm. unfold inlineAttachmentStep.
    destruct (streq (DownloadURL att) []); [by constructor|]. cbv zeta.
    apply Tally_bind, Tally_call. intros d. cbn [download okUpload].
    destruct d as [dresp|err].
    2:{ apply Tally_bind, Tally_call. intros ?. cbn [download okUpload].
        apply Tally_bind, Tally_eprint; [done|]. constructor. lia. }
    apply Tally_bind, Tally_call. intros u.
    apply Tally_bind, Tally_call. intros ?. cbn [download okUpload].
    apply Tally_none; [|destruct (isOk u); lia].
    repeat match goal with
           | |- AllCalls _ (match ?x with _ => _ end) => destruct x
           end; walk ltac:(by intros).
  - enough (Tally download
              (fun _ m =>
                 0 <= m <= 0 + Z.of_nat (length (List.filter
                   hasDownloadURL (parseAttachments html)))) 0
              (migrateInlineAttachments g src tgt html)) as HT.
    { apply (Tally_run _ _ _ _ h) with (w := w) in HT. cbv beta in HT.
      lia. }
    unfold migrateInlineAttachments.
    destruct (parseAttachments html) as [|a atts]; [by constructor|].
    apply Tally_bind.
    eapply Tally_impl;
      [|apply (Tally_forEach_bound download
                 (fun a => if hasDownloadURL a then 1 else 0))].
    { intros st m Hm. constructor.
      enough (forall l, foldr (fun x k => (if hasDownloadURL x then 1 else 0)
                                          + k) 0 l
                        = Z.of_nat (length (List.filter hasDownloadURL l)))
        as Hlen by (rewrite Hlen in Hm; lia).
      induction l as [|x l IH]; [done|]. cbn [foldr List.filter].
      rewrite IH. destruct (hasDownloadURL x); cbn [length]; lia. }
    intros [result count] att n. unfold inlineAttachmentStep, hasDownloadURL.
    destruct (streq (DownloadURL att) []); cbn [negb];
      [constructor; lia|]. cbv zeta.
    apply Tally_bind, Tally_call. intros d. cbn [download].
    apply Tally_none; [|intros; lia].
    repeat match goal with
           | |- AllCalls _ (match ?x with _ => _ end) => destruct x
           end; walk ltac:(by intros).
  - intros Hnone. unfold migrateInlineAttachments. by rewrite Hnone.
Qed.


(** ** The statistics *)

Lemma Returns_forEachIndexed {X S : Type} (Q : S -> Prop) (i : Z)
    (xs : list X) (body : Z -> S -> X -> Prog S) (s : S) :
  (forall i s x, Q s -> Returns Q (body i s x)) -> Q s ->
  Returns Q (forEachIndexed i xs body s).
Proof.
  intros Hbody. revert i s. induction xs as [|x xs IH]; intros i s Hs; simpl.
  - by constructor.
  - apply Returns_bind with (R := Q); auto.
Qed.

(** [migrateCard] changes the statistics by the four counters of the
    per-card steps only. *)
Lemma migrateCard_preserves (P : migrationStats -> Prop) (g : globals)
    (src tgt : str) (card : object) (board : str) (mapping : gmap str str)
    (stats : migrationStats) :
  (forall s n, P s -> P (addTagsApplied s n)) ->
  (forall s n, P s -> P (addCommentsCreated s n)) ->
  (forall s n, P s -> P (addStepsCreated s n)) ->
  (forall s n, P s -> P (addImagesMigrated s n)) ->
  P stats ->
  Returns (fun r => P r.1) (migrateCard g src tgt card board mapping stats).
Proof.
  intros Htags Hcomments Hsteps Himages Hstats. unfold migrateCard.
  apply Returns_bind with (R := fun d => P d.2).
  { unfold cardDescription. destruct (_ && _); [|by constructor].
    apply Returns_then. intros [[migrated count] err].
    apply Returns_then. intros _.
    destruct (0 <? count); constructor; cbn [snd]; auto. }
  intros [description stats1] H1. cbn [snd] in H1.
  apply Returns_then. intros [resp|err]; [|by constructor].
  apply Returns_then. intros followed.
  destruct (_ =? 0); [by constructor|].
  apply Returns_bind with (R := P); [|intros; by constructor].
  unfold migrateCardSubSteps.
  apply Returns_bind with (R := P).
  { destruct (index card (lit "tags")); try by constructor.
    apply Returns_forEach; [|done]. intros s tag Hs.
    destruct tag; try by constructor. unfold applyTagStep.
    apply Returns_then. intros [err|].
    - apply Returns_then. intros _. by constructor.
    - constructor. auto. }
  intros s1 Hs1. do 3 (apply Returns_then; intros _).
  apply Returns_bind with (R := P).
  { destruct (migrateBoardIncludeComments g); [|by constructor].
    do 2 (apply Returns_then; intros ?). constructor. auto. }
  intros s2 Hs2.
  apply Returns_bind with (R := P).
  { destruct (migrateBoardIncludeSteps g); [|by constructor].
    do 2 (apply Returns_then; intros ?). constructor. auto. }
  intros s3 Hs3.
  destruct (migrateBoardIncludeImages g); [|by constructor].
  destruct (negb _); [|by constructor].
  apply Returns_then. intros [err|].
  - apply Returns_then. intros _. by constructor.
  - constructor. auto.
Qed.

Lemma migrateCards_keepsBoard (g : globals) (src tgt board : str)
    (mapping : gmap str str) (cards : list json) (stats : migrationStats) :
  Returns (keepsBoard stats)
    (migrateCards g src tgt board mapping cards stats).
Proof.
  unfold migrateCards. apply Returns_forEachIndexed; [|done].
  intros i s card Hs. unfold migrateCardStep.
  destruct card as [| | | | | |cardMap]; try by constructor.
  apply Returns_then. intros _.
  apply Returns_bind with (R := fun r => keepsBoard stats r.1).
  { apply migrateCard_preserves; try done;
      intros s' n Hs'; exact Hs'. }
  intros [s1 [n [err|]]] H1; cbn [fst] in H1.
  - apply Returns_then. intros _. by constructor.
  - constructor. exact H1.
Qed.

Lemma createColumnStep_counts {W : Type} (h : W -> request -> W * reply)
    (w : W) (tgt board : str) (st : gmap str str * migrationStats)
    (col : json) :
  let st' := resultOf (run h w (createColumnStep tgt board st col)) in
  let pairs :=
    omap createdPair (omap (columnOutcome h tgt board) [(st, w, col)]) in
  columnsCreated st'.2 = columnsCreated st.2 + Z.of_nat (length pairs)
  /\ boardCreated st'.2 = boardCreated st.2
  /\ targetBoardID st'.2 = targetBoardID st.2
  /\ targetBoardName st'.2 = targetBoardName st.2
  /\ (length pairs <= length (List.filter realColumn [col]))%nat.
Proof.
  cbv zeta. destruct st as [mapping stats].
  destruct col as [| | | | | |colMap];
    try (cbn [omap list_omap columnOutcome]; unfold createColumnStep;
         cbv beta iota; rewrite run_ret; unfold resultOf; cbn;
         repeat split; lia).
  cbn [omap list_omap columnOutcome List.filter realColumn].
  unfold createColumnStep.
  destruct (skippedAsPseudo colMap).
  { rewrite run_ret. unfold resultOf. cbn. repeat split; lia. }
  run_norm.
  destruct (run h w (createColumn _ _ _ _)) as [[[id [err|]] w1] t1];
    unfold resultOf; cbn [fst snd]; run_norm; cbn; repeat split; lia.
Qed.

Lemma createColumns_counts {W : Type} (h : W -> request -> W * reply)
    (tgt board : str) (columns : list json) :
  forall (w : W) (st : gmap str str * migrationStats),
  let st' := resultOf (run h w (forEach columns
                                  (createColumnStep tgt board) st)) in
  let pairs := createdColumns h w tgt board columns st in
  columnsCreated st'.2 = columnsCreated st.2 + Z.of_nat (length pairs)
  /\ boardCreated st'.2 = boardCreated st.2
  /\ targetBoardID st'.2 = targetBoardID st.2
  /\ targetBoardName st'.2 = targetBoardName st.2
  /\ (length pairs <= length (List.filter realColumn columns))%nat.
Proof.
  cbv zeta. unfold createdColumns.
  induction columns as [|col columns IH]; intros w st.
  { cbn. repeat split; lia. }
  rewrite run_forEach_cons. cbn [turns].
  pose proof (createColumnStep_counts h w tgt board st col) as Hstep.
  cbv zeta in Hstep.
  destruct (run h w (createColumnStep tgt board st col)) as [[st1 w1] t1].
  unfold resultOf, worldOf in *. cbn [fst snd] in *.
  specialize (IH w1 st1).
  destruct (run h w1 (forEach columns _ st1)) as [[st2 w2] t2].
  cbn [fst snd] in *.
  change (?x :: ?l) with ([x] ++ l) at 1 2 3.
  rewrite !omap_app, !length_app, List.filter_app, length_app.
  destruct Hstep as (H1 & H2 & H3 & H4 & H5).
  destruct IH as (I1 & I2 & I3 & I4 & I5).
  repeat split; try congruence; lia.
Qed.

Lemma sourceNumbers_length (cards : list json) :
  (length (sourceNumbers cards) <= length cards)%nat.
Proof.
  induction cards as [|c l IH]; [done|].
  destruct c; simpl in *; lia.
Qed.

(** X6. The statistics of a run that ends with the migration result say
    what happened to the board and its columns: the board is marked as
    created, with the identity [createBoard] returned and the name of the
    source board; the count of columns is the number of columns actually
    created, which is at most the number of real source columns (the
    number a dry run announces); and the count of cards is at most the
    number of fetched cards. *)
Theorem migration_statistics {W : Type} (h : W -> request -> W * reply)
    (w : W) (g : globals) (sourceBoardID : str) (stats : migrationStats) :
  resultOf (run h w (runMigrateBoard g sourceBoardID)) = Migrated stats ->
  boardCreated stats = true
  /\ targetBoardID stats = (resultOf (createBoardStage h w g sourceBoardID)).1
  /\ targetBoardName stats = sourceBoardName h w g sourceBoardID
  /\ columnsCreated stats
     = Z.of_nat (length (columnsCreatedInRun h w g sourceBoardID))
  /\ columnsCreated stats
     <= countRealColumns (resultOf (columnsStage h w g sourceBoardID)).1
  /\ 0 <= cardsCreated stats
     <= Z.of_nat (length (resultOf (cardsStage h w g sourceBoardID)).1).
Proof.
  intros Hres. apply runMigrateBoard_migrated in Hres. subst stats.
  pose proof (Returns_run _ _ h
                (worldOf (createColumnsStage h w g sourceBoardID))
                (migrateCards_keepsBoard g (migrateBoardFrom g)
                   (migrateBoardTo g)
                   (resultOf (createBoardStage h w g sourceBoardID)).1
                   (resultOf (createColumnsStage h w g sourceBoardID)).1
                   (resultOf (cardsStage h w g sourceBoardID)).1
                   (resultOf (createColumnsStage h w g sourceBoardID)).2))
    as (K1 & K2 & K3 & K4).
  fold (migrateCardsStage h w g sourceBoardID) in K1, K2, K3, K4.
  pose proof (createColumns_counts h (migrateBoardTo g)
                (resultOf (createBoardStage h w g sourceBoardID)).1
                (resultOf (columnsStage h w g sourceBoardID)).1
                (worldOf (createBoardStage h w g sourceBoardID))
                (∅, setBoard emptyStats
                      (resultOf (createBoardStage h w g sourceBoardID)).1
                      (sourceBoardName h w g sourceBoardID)))
    as (C1 & C2 & C3 & C4 & C5).
  cbv zeta in C1. fold (columnsCreatedInRun h w g sourceBoardID) in C1, C5.
  change (run h (worldOf (createBoardStage h w g sourceBoardID))
            (forEach _ _ _))
    with (createColumnsStage h w g sourceBoardID) in C1, C2, C3, C4.
  cbn [snd setBoard emptyStats boardCreated targetBoardID targetBoardName
       columnsCreated] in C1, C2, C3, C4.
  rewrite K1, K2, K3, K4, C1, C2, C3, C4, countRealColumns_filter.
  repeat split; try lia.
  - pose proof (Returns_run _ _ h
                  (worldOf (createBoardStage h w g sourceBoardID))
                  (createColumns_keeps (migrateBoardTo g)
                     (resultOf (createBoardStage h w g sourceBoardID)).1
                     (resultOf (columnsStage h w g sourceBoardID)).1
                     (setBoard emptyStats
                        (resultOf (createBoardStage h w g sourceBoardID)).1
                        (sourceBoardName h w g sourceBoardID))))
      as [_ Hzero].
    fold (createColumnsStage h w g sourceBoardID) in Hzero.
    unfold migrateCardsStage, migrateCards.
    match goal with
    | |- context [forEachIndexed 0 ?cards
                    (migrateCardStep ?g ?s ?t ?n ?b ?m) ?st] =>
        pose proof (migrateCards_loop h g s t n b m cards 0
                      (worldOf (createColumnsStage h w g sourceBoardID)) st)
          as [_ Hcount]
    end.
    cbv zeta in Hcount. rewrite Hcount, Hzero.
    cbn [setBoard emptyStats cardsCreated]. lia.
  - pose proof (Returns_run _ _ h
                  (worldOf (createBoardStage h w g sourceBoardID))
                  (createColumns_keeps (migrateBoardTo g)
                     (resultOf (createBoardStage h w g sourceBoardID)).1
                     (resultOf (columnsStage h w g sourceBoardID)).1
                     (setBoard emptyStats
                        (resultOf (createBoardStage h w g sourceBoardID)).1
                        (sourceBoardName h w g sourceBoardID))))
      as [_ Hzero].
    fold (createColumnsStage h w g sourceBoardID) in Hzero.
    unfold migrateCardsStage, migrateCards.
    match goal with
    | |- context [forEachIndexed 0 ?cards
                    (migrateCardStep ?g ?s ?t ?n ?b ?m) ?st] =>
        pose proof (migrateCards_loop h g s t n b m cards 0
                      (worldOf (createColumnsStage h w g sourceBoardID)) st)
          as [_ Hcount];
        pose proof (createdPairs_sublist h g s t n b m cards 0
                      (worldOf (createColumnsStage h w g sourceBoardID)) st)
          as Hsub
    end.
    cbv zeta in Hcount. rewrite Hcount, Hzero. cbn [setBoard emptyStats
      cardsCreated].
    apply sublist_length in Hsub. rewrite length_fmap in Hsub.
    pose proof (sourceNumbers_length
                  (resultOf (cardsStage h w g sourceBoardID)).1) as Hle.
    lia.
Qed.

Lemma migration_statistics_witness :
  let h := sampleServer sampleCards backlogColumnFails in
  let stats := statsOf (resultOf (run h 0 (runMigrateBoard plainGlobals
                                             (lit "b7")))) in
  boardCreated stats = true
  /\ targetBoardID stats
     = (resultOf (createBoardStage h 0 plainGlobals (lit "b7"))).1
  /\ targetBoardName stats = sourceBoardName h 0 plainGlobals (lit "b7")
  /\ columnsCreated stats
     = Z.of_nat (length (columnsCreatedInRun h 0 plainGlobals (lit "b7")))
  /\ columnsCreated stats
     <= countRealColumns
          (resultOf (columnsStage h 0 plainGlobals (lit "b7"))).1
  /\ 0 <= cardsCreated stats
     <= Z.of_nat (length (resultOf (cardsStage h 0 plainGlobals
                                      (lit "b7"))).1).
Proof.
  apply (migration_statistics
           (sampleServer sampleCards backlogColumnFails) 0 plainGlobals
           (lit "b7")).
  vm_compute. reflexivity.
Defined.

(** X11. The inline attachments of a card are counted as migrated images
    before the card is created: when the creation request is refused,
    [migrateCard] returns its error, makes no further call, and the
    statistics it leaves still count the attachments it uploaded for the
    description. *)
Theorem failed_creation_counts_images {W : Type}
    (h : W -> request -> W * reply) (w : W) (g : globals) (src tgt : str)
    (card : object) (board : str) (mapping : gmap str str)
    (stats : migrationStats) (err : error) :
  migrateBoardIncludeImages g = true ->
  getStringField card (lit "description_html") <> [] ->
  let ri := run h w (migrateInlineAttachments g src tgt
                       (getStringField card (lit "description_html"))) in
  let count := (resultOf ri).1.2 in
  let rd := run h w (cardDescription g src tgt card stats) in
  let creation :=
    Post tgt (lit "/cards.json")
      (cardRequestBody board (getStringField card (lit "title"))
         (resultOf rd).1 (getStringField card (lit "created_at"))) in
  (h (worldOf ri) creation).2 = Failed err ->
  let r := run h w (migrateCard g src tgt card board mapping stats) in
  resultOf r = (if 0 <? count then addImagesMigrated stats count else stats,
                (0, Some err))
  /\ traceOf r = traceOf ri ++ [(creation, Failed err)]
  /\ imagesMigrated (resultOf r).1 = imagesMigrated stats + count.
Proof.
  intros Himg Hhtml. cbv zeta.
  rewrite (run_cardDescription h w g src tgt card stats Himg Hhtml).
  pose proof (migrateInlineAttachments_nonempty h w g src tgt
                (getStringField card (lit "description_html")))
    as [Hcount _]. cbv zeta in Hcount.
  unfold migrateCard.
  rewrite run_bind,
    (run_cardDescription h w g src tgt card stats Himg Hhtml).
  destruct (run h w (migrateInlineAttachments g src tgt
                       (getStringField card (lit "description_html"))))
    as [[[[migrated count] e] wi] ti].
  unfold resultOf, worldOf, traceOf in *. cbn [fst snd] in *.
  intros Hfailed.
  destruct (0 <? count) eqn:Hpos; cbn [fst snd] in *;
    rewrite run_bind, run_call by done; cbn [fst snd];
    rewrite Hfailed, run_ret; cbn [fst snd]; rewrite app_nil_r;
    repeat split; cbn [addImagesMigrated imagesMigrated]; try done.
  apply Z.ltb_ge in Hpos. lia.
Qed.

Lemma failed_creation_counts_images_witness :
  let h := sampleServer [] cardCreationFails in
  let err := ExternalError (lit "503 Service Unavailable") in
  let ri := run h 0 (migrateInlineAttachments imagesGlobals (lit "acme")
                       (lit "beta")
                       (getStringField oneImageCard
                          (lit "description_html"))) in
  let count := (resultOf ri).1.2 in
  let rd := run h 0 (cardDescription imagesGlobals (lit "acme") (lit "beta")
                       oneImageCard emptyStats) in
  let creation :=
    Post (lit "beta") (lit "/cards.json")
      (cardRequestBody (lit "t-board")
         (getStringField oneImageCard (lit "title"))
         (resultOf rd).1 (getStringField oneImageCard (lit "created_at"))) in
  let r := run h 0 (migrateCard imagesGlobals (lit "acme") (lit "beta")
                      oneImageCard (lit "t-board") ∅ emptyStats) in
  resultOf r = (if 0 <? count then addImagesMigrated emptyStats count
                else emptyStats,
                (0, Some err))
  /\ traceOf r = traceOf ri ++ [(creation, Failed err)]
  /\ imagesMigrated (resultOf r).1 = imagesMigrated emptyStats + count.
Proof.
  apply (failed_creation_counts_images
           (sampleServer [] cardCreationFails) 0 imagesGlobals (lit "acme")
           (lit "beta") oneImageCard (lit "t-board") ∅ emptyStats
           (ExternalError (lit "503 Service Unavailable"))).
  - reflexivity.
  - vm_compute. discriminate.
  - vm_compute. reflexivity.
Defined.

(** The run of the witness: one image is counted, no card is created. *)
Example failed_creation_counts_one_image :
  let r := run (sampleServer [JObject oneImageCard] cardCreationFails) 0
             (runMigrateBoard imagesGlobals (lit "b7")) in
  imagesMigrated (statsOf (resultOf r)) = 1
  /\ cardsCreated (statsOf (resultOf r)) = 0.
Proof. cbv zeta. by vm_compute. Qed.

(** ** Before the run *)

(** X1. An invocation that fails one of the checks made before the run
    ends with that check's error and has made no call and printed
    nothing: without authentication the error of [requireAuth], then a
    missing [--from], a missing [--to], and equal accounts, in this
    order. An invocation that passes them starts with the access check. *)
Theorem runMigrateBoard_checks_first {W : Type}
    (h : W -> request -> W * reply) (w : W) (g : globals)
    (sourceBoardID : str) :
  let r := run h w (runMigrateBoard g sourceBoardID) in
  let invalid (msg : string) :=
    (ExitWithError (NewInvalidArgsError (lit msg)), w, []) in
  (forall err, requireAuth g = Some err -> r = (ExitWithError err, w, []))
  /\ (requireAuth g = None -> migrateBoardFrom g = [] ->
      r = invalid "--from flag is required")
  /\ (requireAuth g = None -> migrateBoardFrom g <> [] ->
      migrateBoardTo g = [] -> r = invalid "--to flag is required")
  /\ (requireAuth g = None -> migrateBoardFrom g <> [] ->
      migrateBoardFrom g = migrateBoardTo g ->
      r = invalid "--from and --to accounts must be different")
  /\ (validInvocation g = true ->
      exists rest,
        serverCalls (traceOf r)
        = Get [] (cfgAPIURL g ++ lit "/my/identity.json") :: rest).
Proof.
  cbv zeta. unfold runMigrateBoard. repeat split.
  - by intros err ->.
  - by intros -> ->.
  - intros -> Hfrom ->. apply streq_false in Hfrom. by rewrite Hfrom.
  - intros -> Hfrom Heq. rewrite <- Heq.
    apply streq_false in Hfrom as Hfrom'. rewrite Hfrom', streq_refl. done.
  - intros Hv. apply validInvocation_true in Hv as (-> & -> & -> & ->).
    run_norm.
    pose proof (verifyAccountAccess_calls h w g (migrateBoardFrom g)
                  (migrateBoardTo g)) as Hcalls.
    destruct (run h w (verifyAccountAccess _ _ _)) as [[access w1] t1].
    destruct (run h w1 _) as [[b w2] t2]. cbn [fst snd].
    unfold traceOf in *. cbn [snd] in *.
    rewrite serverCalls_app, serverCalls_print, serverCalls_app.
    change (serverCalls t1) with
      (List.filter (fun r => negb (isStderr r)) (requestsOf t1)).
    rewrite Hcalls. cbn. by eexists.
Qed.

(** ** The steps of one card *)

Ltac no_replication :=
  first
    [ exact eq_refl
    | unfold replication, hasSuffix, cardPath; rewrite ?rev_app_distr;
      lazy; reflexivity ].

Lemma replication_tagging (tgt num : str) (body : json) :
  replication (Post tgt (cardPath num (lit "/taggings.json")) body)
  = Some (Post tgt (cardPath num (lit "/taggings.json")) body).
Proof.
  unfold replication, cardPath. by rewrite app_assoc, hasSuffix_app.
Qed.

Lemma replication_triage (tgt num : str) (body : json) :
  replication (Post tgt (cardPath num (lit "/triage.json")) body)
  = Some (Post tgt (cardPath num (lit "/triage.json")) body).
Proof.
  unfold replication.
  assert (hasSuffix (cardPath num (lit "/triage.json"))
            (lit "/triage.json") = true) as ->.
  { unfold cardPath. by rewrite app_assoc, hasSuffix_app. }
  by rewrite orb_true_r.
Qed.

Lemma replication_closure (tgt num : str) (body : json) :
  replication (Post tgt (cardPath num (lit "/closure.json")) body)
  = Some (Post tgt (cardPath num (lit "/closure.json")) body).
Proof.
  unfold replication.
  assert (hasSuffix (cardPath num (lit "/closure.json"))
            (lit "/closure.json") = true) as ->.
  { unfold cardPath. by rewrite app_assoc, hasSuffix_app. }
  by rewrite orb_true_r.
Qed.

Lemma replication_goldness (tgt num : str) (body : json) :
  replication (Post tgt (cardPath num (lit "/goldness.json")) body)
  = Some (Post tgt (cardPath num (lit "/goldness.json")) body).
Proof.
  unfold replication.
  assert (hasSuffix (cardPath num (lit "/goldness.json"))
            (lit "/goldness.json") = true) as ->.
  { unfold cardPath. by rewrite app_assoc, hasSuffix_app. }
  by rewrite !orb_true_r.
Qed.

(** X24. Once a card is created, the requests that replicate its tags,
    its column and its state are sent in this order, whatever the
    requests are answered: one tagging for each tag that is a string, the
    placement when the source column has an entry in the column mapping,
    the closure when the card is closed, the goldness when it is golden.
    A request that fails holds back none of the later ones, and the
    migration of comments, steps and image sends none of these. *)
Theorem migrateCardSubSteps_replicates {W : Type}
    (h : W -> request -> W * reply) (w : W) (g : globals) (src tgt : str)
    (card : object) (mapping : gmap str str) (sourceNum newNum : Z)
    (stats : migrationStats) :
  omap replication (requestsOf (traceOf
    (run h w (migrateCardSubSteps g src tgt card mapping sourceNum newNum
                stats))))
  = replicationPlan tgt card mapping (itoa newNum).
Proof.
  apply Emits_run. unfold migrateCardSubSteps, replicationPlan, tagsOf.
  apply Emits_bind.
  { destruct (index card (lit "tags")) as [| | | | |tags|]; try constructor.
    rewrite <- omap_concat_option_list. apply Emits_forEach.
    intros s tag. unfold applyTagStep, taggingOf.
    destruct tag as [| | | |tagName| |]; try constructor.
    eapply Emits_eq.
    - eapply Emits_bind.
      + unfold applyTag. eapply Emits_bind; [apply Emits_call|].
        intros x. constructor.
      + intros [err|]; [|constructor].
        apply (Emits_bind replication _ _ [] []).
        * by apply Emits_eprint.
        * intros _. constructor.
    - rewrite replication_tagging. by rewrite !app_nil_r. }
  intros stats1. apply Emits_bind.
  { destruct (streq (getCardColumnID card) []); cbn [negb];
      [destruct (mapping !! getCardColumnID card); constructor|].
    destruct (mapping !! getCardColumnID card) as [targetColumnID|];
      [|constructor].
    eapply Emits_eq.
    - eapply Emits_bind.
      + unfold moveToColumn. eapply Emits_bind; [apply Emits_call|].
        intros x. constructor.
      + intros e. unfold warnIfError. destruct e; [|constructor].
        by apply Emits_eprint.
    - rewrite replication_triage. by rewrite !app_nil_r. }
  intros _. apply Emits_bind.
  { destruct (streq (getStringField card (lit "status")) (lit "closed"));
      [|constructor].
    eapply Emits_eq.
    - eapply Emits_bind.
      + unfold closeCard. eapply Emits_bind; [apply Emits_call|].
        intros x. constructor.
      + intros e. unfold warnIfError. destruct e; [|constructor].
        by apply Emits_eprint.
    - rewrite replication_closure. by rewrite !app_nil_r. }
  intros _.
  eapply Emits_eq; [eapply Emits_bind|apply app_nil_r].
  { destruct (getBoolField card (lit "golden")); [|constructor].
    eapply Emits_eq.
    - eapply Emits_bind.
      + unfold markGolden. eapply Emits_bind; [apply Emits_call|].
        intros x. constructor.
      + intros e. unfold warnIfError. destruct e; [|constructor].
        by apply Emits_eprint.
    - rewrite replication_goldness. by rewrite !app_nil_r. }
  intros _. apply Emits_none. unfold_migration. walk no_replication.
Qed.

(** ** The counters of tags, comments and steps *)

Lemma Tally_seq {A B : Type} (f : request -> reply -> Z)
    (I : A -> Z -> Prop) (Q : B -> Z -> Prop) (n : Z) (p : Prog A)
    (g : A -> Prog B) :
  Tally f I n p -> (forall a m, I a m -> Tally f Q m (g a)) ->
  Tally f Q n (bind p g).
Proof. intros Hp Hg. apply Tally_bind. by eapply Tally_impl. Qed.

(** A part of the program that adds nothing to the count. *)
Lemma Tally_quiet {A B : Type} (f : request -> reply -> Z)
    (R : A -> Prop) (Q : B -> Z -> Prop) (n : Z) (p : Prog A)
    (g : A -> Prog B) :
  AllCalls (fun r => forall x, f r x = 0) p -> Returns R p ->
  (forall a, R a -> Tally f Q n (g a)) -> Tally f Q n (bind p g).
Proof.
  intros Hp Hr Hg. apply Tally_bind.
  induction Hp as [a | r k Hzero Hk IH].
  - inversion Hr; subst. constructor. auto.
  - inversion Hr; subst. constructor. intros x.
    rewrite Hzero, Z.add_0_r. by apply IH.
Qed.

Lemma Tally_skip {A B : Type} (f : request -> reply -> Z)
    (Q : B -> Z -> Prop) (n : Z) (p : Prog A) (g : A -> Prog B) :
  AllCalls (fun r => forall x, f r x = 0) p ->
  (forall a, Tally f Q n (g a)) -> Tally f Q n (bind p g).
Proof.
  intros Hp Hg. apply (Tally_quiet f (fun _ => True)); [done| |auto].
  by apply Returns_any.
Qed.

Lemma Tally_forEachIndexed {X S : Type} (f : request -> reply -> Z)
    (I : S -> Z -> Prop) (xs : list X) (body : Z -> S -> X -> Prog S) :
  (forall i s x m, I s m -> Tally f I m (body i s x)) ->
  forall i s n, I s n -> Tally f I n (forEachIndexed i xs body s).
Proof.
  intros Hbody. induction xs as [|x xs IH]; intros i s n Hs; simpl.
  - by constructor.
  - eapply Tally_seq; [by apply Hbody|]. intros s' m. apply IH.
Qed.

(** A request that the counter [c] does not count. *)
Ltac not_counted :=
  intros;
  first
    [ reflexivity
    | match goal with c : counter |- _ => destruct c end;
      unfold okPost, counterSuffix, hasSuffix, cardPath;
      rewrite ?rev_app_distr; lazy; reflexivity ].

(** What a [POST] to a path of a card adds to the count. *)
Ltac count_post :=
  match goal with
  | |- context [okPost ?s (Post ?t ?p ?b) ?x] =>
      first
        [ rewrite (okPost_cardPath t _ s b x)
        | replace (okPost s (Post t p b) x) with 0
            by (unfold okPost, hasSuffix, cardPath; rewrite ?rev_app_distr;
                lazy; reflexivity) ]
  end.

Lemma migrateComments_tally (c : counter) (g : globals)
    (src tgt sourceNum targetNum : str) (n : Z) :
  Tally (okPost (counterSuffix c))
    (fun r m => m = n + match c with Comments => r.1 | _ => 0 end) n
    (migrateComments g src tgt sourceNum targetNum).
Proof.
  unfold migrateComments. apply Tally_bind, Tally_call.
  intros [resp|err]; cbn [okPost]; rewrite Z.add_0_r;
    [|constructor; destruct c; cbn; lia].
  destruct (Data resp); try (constructor; destruct c; cbn; lia).
  apply Tally_seq
    with (I := fun created m =>
                 m = n + match c with Comments => created | _ => 0 end).
  2:{ intros created m ->. by constructor. }
  apply Tally_forEach; [|destruct c; lia].
  intros created comment m ->. unfold migrateCommentStep.
  destruct comment as [| | | | | |commentMap]; try by constructor.
  destruct (commentBody commentMap) as [bodyContent bodyHTML].
  destruct (streq bodyContent []); [by constructor|].
  apply Tally_skip.
  { destruct (_ && _); [|constructor]. unfold_migration.
    walk ltac:(by intros). }
  intros body. apply Tally_bind, Tally_call. intros x.
  destruct c; cbn [counterSuffix]; count_post;
    destruct x as [resp'|err]; cbn [isOk];
    try (constructor; lia);
    (apply Tally_bind, Tally_eprint; [done|]; constructor; lia).
Qed.

Lemma migrateSteps_tally (c : counter) (tgt : str) (card : object)
    (num : str) (n : Z) :
  Tally (okPost (counterSuffix c))
    (fun r m => m = n + match c with Steps => r.1 | _ => 0 end) n
    (migrateSteps tgt card num).
Proof.
  unfold migrateSteps.
  destruct (index card (lit "steps")) as [| | | | |[|step steps]|];
    try (constructor; destruct c; cbn; lia).
  apply Tally_seq
    with (I := fun created m =>
                 m = n + match c with Steps => created | _ => 0 end).
  2:{ intros created m ->. by constructor. }
  apply Tally_forEach; [|destruct c; lia].
  intros created step' m ->. unfold migrateStepStep.
  destruct step' as [| | | | | |stepMap]; try by constructor.
  destruct (streq _ []); [by constructor|].
  apply Tally_bind, Tally_call. intros x.
  destruct c; cbn [counterSuffix]; count_post;
    destruct x as [resp'|err]; cbn [isOk];
    try (constructor; lia);
    (apply Tally_bind, Tally_eprint; [done|]; constructor; lia).
Qed.

Lemma migrateCardSubSteps_tally (c : counter) (g : globals)
    (src tgt : str) (card : object) (mapping : gmap str str)
    (sourceNum newNum : Z) (stats : migrationStats) :
  Tally (okPost (counterSuffix c)) (fun s m => counterOf c s = m)
    (counterOf c stats)
    (migrateCardSubSteps g src tgt card mapping sourceNum newNum stats).
Proof.
  unfold migrateCardSubSteps.
  apply Tally_seq with (I := fun s m => counterOf c s = m).
  { destruct (index card (lit "tags")); try by constructor.
    apply Tally_forEach; [|done]. intros s tag m <-.
    unfold applyTagStep. destruct tag; try by constructor.
    unfold applyTag. apply Tally_bind, Tally_bind, Tally_call.
    intros x. constructor.
    destruct c; cbn [counterSuffix]; count_post;
      destruct x as [resp|err]; cbn [isOk postError];
      try (constructor; cbn; lia);
      (apply Tally_bind, Tally_eprint; [done|]; constructor; cbn; lia). }
  intros s1 m <-.
  do 3 (apply Tally_skip; [unfold_migration; walk not_counted|]; intros _).
  apply Tally_seq with (I := fun s m => counterOf c s = m).
  { destruct (migrateBoardIncludeComments g); [|by constructor].
    eapply Tally_seq; [apply migrateComments_tally|].
    intros r m ->. apply Tally_skip; [unfold_migration; walk not_counted|].
    intros _. constructor. destruct c; cbn; lia. }
  intros s2 m <-.
  apply Tally_seq with (I := fun s m => counterOf c s = m).
  { destruct (migrateBoardIncludeSteps g); [|by constructor].
    eapply Tally_seq; [apply migrateSteps_tally|].
    intros r m ->. apply Tally_skip; [unfold_migration; walk not_counted|].
    intros _. constructor. destruct c; cbn; lia. }
  intros s3 m <-.
  destruct (migrateBoardIncludeImages g); [|by constructor].
  destruct (negb _); [|by constructor].
  apply Tally_skip; [unfold_migration; walk not_counted|].
  intros [err|].
  - apply Tally_skip; [walk not_counted|]. intros _. by constructor.
  - constructor. by destruct c.
Qed.

Lemma migrateCard_tally (c : counter) (g : globals) (src tgt : str)
    (card : object) (board : str) (mapping : gmap str str)
    (stats : migrationStats) :
  Tally (okPost (counterSuffix c)) (fun r m => counterOf c r.1 = m)
    (counterOf c stats) (migrateCard g src tgt card board mapping stats).
Proof.
  unfold migrateCard.
  apply (Tally_quiet _ (fun d => counterOf c d.2 = counterOf c stats)).
  { unfold_migration. walk not_counted. }
  { unfold cardDescription. destruct (_ && _); [|by constructor].
    apply Returns_then. intros [[migrated count] err].
    apply Returns_then. intros _.
    destruct (0 <? count); constructor; cbn [snd]; by destruct c. }
  intros [description stats1] H1. cbn [snd] in H1. rewrite <- H1.
  apply Tally_bind, Tally_call. intros x.
  replace (okPost (counterSuffix c) _ x) with 0 by not_counted.
  rewrite Z.add_0_r. destruct x as [resp|err]; [|by constructor].
  apply Tally_skip; [unfold_migration; walk not_counted|].
  intros followed. destruct (_ =? 0); [by constructor|].
  eapply Tally_seq; [apply migrateCardSubSteps_tally|].
  intros s m <-. by constructor.
Qed.

(** X25. The statistics of a completed migration count the requests that
    succeeded: the number of applied tags, of created comments and of
    created steps is the number of tagging, comment and step requests of
    the run that the target answered without an error. *)
Theorem migration_counters {W : Type} (h : W -> request -> W * reply)
    (w : W) (g : globals) (sourceBoardID : str) (stats : migrationStats)
    (c : counter) :
  let r := run h w (runMigrateBoard g sourceBoardID) in
  resultOf r = Migrated stats ->
  counterOf c stats = tally (okPost (counterSuffix c)) (traceOf r).
Proof.
  cbv zeta.
  enough (Tally (okPost (counterSuffix c))
            (fun o m => forall s, o = Migrated s -> counterOf c s = m) 0
            (runMigrateBoard g sourceBoardID)) as HT.
  { apply (Tally_run _ _ _ _ h) with (w := w) in HT. cbv beta in HT.
    rewrite Z.add_0_l in HT. auto. }
  unfold runMigrateBoard.
  destruct (requireAuth g); [by constructor|].
  repeat (destruct (streq _ _); [by constructor|]).
  apply Tally_skip; [walk not_counted|]. intros _.
  apply Tally_skip; [unfold_migration; walk not_counted|].
  intros [err|]; [by constructor|].
  apply Tally_skip; [walk not_counted|]. intros _.
  apply Tally_skip; [unfold_migration; walk not_counted|].
  intros [sourceBoard [err|]]; [by constructor|].
  do 2 (apply Tally_skip; [walk not_counted|]; intros _).
  apply Tally_skip; [unfold_migration; walk not_counted|].
  intros [sourceColumns [err|]]; [by constructor|].
  apply Tally_skip; [walk not_counted|]. intros _.
  apply Tally_skip; [unfold_migration; walk not_counted|].
  intros [sourceCards [err|]]; [by constructor|].
  apply Tally_skip; [walk not_counted|]. intros _.
  destruct (migrateBoardDryRun g).
  { apply Tally_skip; [unfold_migration; walk not_counted|]. intros _.
    by constructor. }
  apply Tally_skip; [walk not_counted|]. intros _.
  apply Tally_skip; [unfold_migration; walk not_counted|].
  intros [targetBoard [err|]]; [by constructor|].
  apply Tally_skip; [walk not_counted|]. intros _.
  apply (Tally_quiet _ (fun st => counterOf c st.2 = 0)).
  { unfold_migration. walk not_counted. }
  { unfold createColumns. apply Returns_forEach; [|by destruct c].
    intros [mapping s] col Hs. cbn [snd] in Hs. unfold createColumnStep.
    destruct col; try by constructor.
    destruct (skippedAsPseudo _); [by constructor|].
    apply Returns_then. intros [id [err|]].
    - apply Returns_then. intros _. by constructor.
    - constructor. cbn [snd]. by destruct c. }
  intros [columnMapping stats1] H1. cbn [snd] in H1.
  apply Tally_skip; [walk not_counted|]. intros _.
  apply Tally_seq with (I := fun s m => counterOf c s = m).
  { rewrite <- H1. unfold migrateCards.
    apply Tally_forEachIndexed; [|done].
    intros i s card m <-. unfold migrateCardStep.
    destruct card as [| | | | | |cardMap]; try by constructor.
    apply Tally_skip; [walk not_counted|]. intros _.
    eapply Tally_seq; [apply migrateCard_tally|].
    intros [s1 [num [err|]]] m <-; cbn [fst].
    - apply Tally_skip; [walk not_counted|]. intros _. by constructor.
    - constructor. by destruct c. }
  intros s m <-.
  apply Tally_skip; [unfold_migration; walk not_counted|]. intros _.
  constructor. by intros ? [= ->].
Qed.

Lemma migration_counters_witness :
  let r := run (sampleServer [taggedCard] uiTagFails) 0
             (runMigrateBoard fullGlobals (lit "b7")) in
  counterOf Tags (statsOf (resultOf r))
  = tally (okPost (counterSuffix Tags)) (traceOf r).
Proof.
  apply (migration_counters (sampleServer [taggedCard] uiTagFails) 0
           fullGlobals (lit "b7")).
  vm_compute. reflexivity.
Defined.

(** The run of the witness: two taggings are sent and one is counted. *)
Example migration_counters_of_a_tagged_card :
  let r := run (sampleServer [taggedCard] uiTagFails) 0
             (runMigrateBoard fullGlobals (lit "b7")) in
  omap replication (requestsOf (traceOf r))
  = [Post (lit "beta") (lit "/cards/103/taggings.json")
       (JObject [(lit "tag_title", JString (lit "bug"))]);
     Post (lit "beta") (lit "/cards/103/taggings.json")
       (JObject [(lit "tag_title", JString (lit "ui"))]);
     Post (lit "beta") (lit "/cards/103/closure.json") JNull]
  /\ tagsApplied (statsOf (resultOf r)) = 1
  /\ stepsCreated (statsOf (resultOf r)) = 1
  /\ commentsCreated (statsOf (resultOf r)) = 0.
Proof. cbv zeta. by vm_compute. Qed.

(** ** The model against the repository's tests and the example run *)

Example getCardColumnID_direct :
  getCardColumnID [(lit "column_id", JString (lit "col-123"))]
  = lit "col-123".
Proof. reflexivity. Qed.

Example getCardColumnID_nested :
  getCardColumnID
    [(lit "column", JObject [(lit "id", JString (lit "col-456"))])]
  = lit "col-456".
Proof. reflexivity. Qed.

Example getCardColumnID_none : getCardColumnID [] = [].
Proof. reflexivity. Qed.

Example getCardColumnID_prefers_direct :
  getCardColumnID
    [(lit "column_id", JString (lit "col-123"));
     (lit "column", JObject [(lit "id", JString (lit "col-456"))])]
  = lit "col-123".
Proof. reflexivity. Qed.

Example countRealColumns_counts_real :
  countRealColumns
    [ JObject [(lit "id", JString (lit "1"));
               (lit "name", JString (lit "Backlog"));
               (lit "kind", JString (lit "real"))];
      JObject [(lit "id", JString (lit "2"));
               (lit "name", JString (lit "In Progress"));
               (lit "kind", JString (lit "real"))];
      JObject [(lit "id", JString (lit "3"));
               (lit "name", JString (lit "Not Now"));
               (lit "kind", JString (lit "pseudo"));
               (lit "pseudo", JBool true)];
      JObject [(lit "id", JString (lit "4"));
               (lit "name", JString (lit "Done"));
               (lit "pseudo", JBool true)] ]
  = 2.
Proof. reflexivity. Qed.

Example countRealColumns_without_kind :
  countRealColumns
    [JObject [(lit "id", JString (lit "1"));
              (lit "name", JString (lit "Column"))]]
  = 1.
Proof. reflexivity. Qed.

Example getIntField_float_and_int :
  getIntField [(lit "key", JFloat 42 1)] (lit "key") = 42
  /\ getIntField [(lit "key", JInt 42)] (lit "key") = 42
  /\ getIntField [] (lit "missing") = 0.
Proof. repeat split. Qed.

Example migrateInlineAttachments_no_attachments :
  resultOf (run (sampleServer [] neverFails) 0
              (migrateInlineAttachments imagesGlobals (lit "acme")
                 (lit "beta") (lit "<p>Hello world</p>")))
  = (lit "<p>Hello world</p>", 0, None).
Proof. vm_compute. reflexivity. Qed.

(** Both references migrated: each old sgid gives way to the sgid of its
    upload, and nothing else moves. *)
Example migrateInlineAttachments_two_migrated :
  resultOf (run (sampleServer [] neverFails) 0
              (migrateInlineAttachments imagesGlobals (lit "acme")
                 (lit "beta") twoImages))
  = (markup "<p>Before</p><action-text-attachment sgid='attachable-1' content-type='image/png' filename='a.png'><a href='/blobs/1/a.png?disposition=attachment'>a.png</a></action-text-attachment><p>between</p><action-text-attachment sgid='attachable-2' content-type='image/png' filename='b.png'><a href='/blobs/2/b.png?disposition=attachment'>b.png</a></action-text-attachment><p>After</p>",
     2, None).
Proof. vm_compute. reflexivity. Qed.

(** The run of the specification's example: board "Sprint 7" with two real
    columns among four and three cards. Two columns and three cards are
    created, the first card is tagged, placed and closed, the second marked
    golden, the third placed in the column that stands for "In Progress". *)
Example runMigrateBoard_sprint7 :
  let r := run (sampleServer sampleCards neverFails) 0
             (runMigrateBoard plainGlobals (lit "b7")) in
  serverCalls (traceOf r)
  = [ Get [] (lit "https://fizzy.example/my/identity.json");
      Get (lit "acme") (lit "/boards/b7.json");
      Get (lit "acme") (lit "/boards/b7/columns.json");
      GetWithPagination (lit "acme") (lit "/cards.json?board_ids[]=b7") true;
      Post (lit "beta") (lit "/boards.json")
        (JObject [(lit "board",
                   JObject [(lit "name", JString (lit "Sprint 7"))])]);
      Post (lit "beta") (lit "/boards/t-board/columns.json")
        (JObject [(lit "column",
                   JObject [(lit "name", JString (lit "Backlog"));
                            (lit "color", JString (lit "blue"))])]);
      Post (lit "beta") (lit "/boards/t-board/columns.json")
        (JObject [(lit "column",
                   JObject [(lit "name", JString (lit "In Progress"))])]);
      Post (lit "beta") (lit "/cards.json")
        (JObject [(lit "board_id", JString (lit "t-board"));
                  (lit "card",
                   JObject [(lit "title", JString (lit "Write the report"));
                            (lit "description",
                             JString (lit "Quarterly"))])]);
      Post (lit "beta") (lit "/cards/103/taggings.json")
        (JObject [(lit "tag_title", JString (lit "ops"))]);
      Post (lit "beta") (lit "/cards/103/triage.json")
        (JObject [(lit "column_id", JString (lit "t-col-1"))]);
      Post (lit "beta") (lit "/cards/103/closure.json") JNull;
      Post (lit "beta") (lit "/cards.json")
        (JObject [(lit "board_id", JString (lit "t-board"));
                  (lit "card",
                   JObject [(lit "title",
                             JString (lit "Call the vendor"))])]);
      Post (lit "beta") (lit "/cards/104/goldness.json") JNull;
      Post (lit "beta") (lit "/cards.json")
        (JObject [(lit "board_id", JString (lit "t-board"));
                  (lit "card",
                   JObject [(lit "title", JString (lit "Ship it"))])]);
      Post (lit "beta") (lit "/cards/105/triage.json")
        (JObject [(lit "column_id", JString (lit "t-col-2"))]) ]
  /\ resultOf r
     = Migrated
         {| boardCreated := true;
            targetBoardID := lit "t-board";
            targetBoardName := lit "Sprint 7";
            columnsCreated := 2;
            cardsCreated := 3;
            tagsApplied := 1;
            commentsCreated := 0;
            stepsCreated := 0;
            imagesMigrated := 0;
            cardMapping := {[ 11 := 103; 12 := 104; 13 := 105 ]} |}.
Proof. vm_compute. split; reflexivity. Qed.


(** ** The parser on any input *)

Lemma kept_setIndex (a : Attachment) (v : Z) : kept (setIndex a v) = kept a.
Proof. done. Qed.

Lemma reindexFrom_kept (i : nat) (l : list Attachment) :
  Forall (fun a => kept a = true) l ->
  Forall (fun a => kept a = true) (reindexFrom i l).
Proof.
  revert i. induction l as [|a l IH]; intros i Hl; simpl; [done|].
  apply Forall_cons in Hl as [Ha Hl]. constructor; auto.
Qed.

(** What the attachment pattern matches starts with the opening tag and
    ends with the closing tag. *)
Lemma attachmentRegex_shape (s s1 : str) (c : captures) :
  matchAt attachmentRegex s = Some (c, s1) ->
  exists mid, s = openTag ++ mid ++ closeTag ++ s1.
Proof.
  intros H. apply matchAt_sound in H.
  unfold attachmentRegex, Plus in H. invert_Matches.
  match goal with
  | |- exists mid, openTag ++ ?w :: ?ws ++ ?b :: ?attrs ++ lit ">"
                   ++ ?content ++ closeTag ++ s1 = _ =>
      exists (w :: ws ++ b :: attrs ++ lit ">" ++ content)
  end.
  same_bracketing.
Qed.

Lemma findAll_occurs (html : str) (c : captures) :
  In c (findAllStringSubmatch attachmentRegex html 0) ->
  occursIn openTag html /\ occursIn closeTag html.
Proof.
  intros Hin. apply findAll_sound in Hin as (pre & s0 & s1 & -> & Hm).
  apply attachmentRegex_shape in Hm as [mid ->]. split.
  - by exists pre, (mid ++ closeTag ++ s1).
  - exists (pre ++ openTag ++ mid), s1. by same_bracketing.
Qed.

Lemma parseAttachments_length (html : str) :
  (length (parseAttachments html)
   <= length (findAllStringSubmatch attachmentRegex html 0))%nat.
Proof.
  rewrite parseAttachments_eq, reindexFrom_length.
  etrans; [apply List.filter_length_le|].
  generalize 0%nat at 1.
  induction (findAllStringSubmatch attachmentRegex html 0) as [|m ms IH];
    intros i; simpl; [done|].
  specialize (IH (S i)). lia.
Qed.

(** X12. Whatever the text, the entries [parseAttachments] returns are
    numbered from one in the order of the list, each has a file name or a
    download link, and the sgid of each stands in the text between two
    quotes unless it is empty. *)
Theorem parseAttachments_invariants (html : str) :
  (forall i a,
     parseAttachments html !! i = Some a -> Index a = Z.of_nat i + 1)
  /\ Forall (fun a => Filename a <> [] \/ DownloadURL a <> [])
       (parseAttachments html)
  /\ Forall (fun a =>
               SGID a = []
               \/ occursIn (dquote :: SGID a ++ [dquote]) html)
       (parseAttachments html).
Proof.
  split; [|split].
  - intros i a. rewrite parseAttachments_eq, reindexFrom_lookup.
    destruct (_ !! i) as [b|]; [|done]. by intros [= <-].
  - eapply Forall_impl.
    + rewrite parseAttachments_eq. apply reindexFrom_kept.
      apply Forall_forall. intros a Ha. apply list_elem_of_In in Ha.
      by apply List.filter_In in Ha as [_ Ha].
    + intros a. unfold kept, dropped. intros Ha.
      apply negb_true_iff, andb_false_iff in Ha as [Ha|Ha];
        apply streq_false in Ha; auto.
  - apply Forall_forall. intros a Ha. apply list_elem_of_In in Ha.
    by destruct (located_sgidIn _ _ a (parseAttachments_located html) Ha).
Qed.

(** X13. A text without the opening tag of an attachment element, or
    without its closing tag, has no attachment; so has the empty text. *)
Theorem parseAttachments_without_element (html : str) :
  (contains html openTag = false -> parseAttachments html = [])
  /\ (contains html closeTag = false -> parseAttachments html = [])
  /\ parseAttachments [] = [].
Proof.
  assert (parseAttachments html <> [] ->
          occursIn openTag html /\ occursIn closeTag html) as Hocc.
  { intros Hne. pose proof (parseAttachments_length html) as Hlen.
    destruct (findAllStringSubmatch attachmentRegex html 0) as [|c ms] eqn:E.
    - destruct (parseAttachments html); [done|simpl in Hlen; lia].
    - apply (findAll_occurs html c). rewrite E. by left. }
  split; [|split; [|done]].
  - intros Hno. destruct (parseAttachments html) eqn:E; [done|].
    destruct Hocc as [Hopen _]; [done|].
    apply contains_occursIn in Hopen. congruence.
  - intros Hno. destruct (parseAttachments html) eqn:E; [done|].
    destruct Hocc as [_ Hclose]; [done|].
    apply contains_occursIn in Hclose. congruence.
Qed.


(** ** Pseudo columns by name *)

(** X14. A name [parsePseudoColumnID] recognises stands for one of the
    three pseudo columns of the board, and both the [ID] and the [Kind] of
    that column are names of it: parsing them gives the column back. *)
Theorem parsePseudoColumnID_canonical (id : str) (c : pseudoColumn) :
  parsePseudoColumnID id = Some c ->
  In c pseudoColumnsInBoardOrder
  /\ parsePseudoColumnID (ID c) = Some c
  /\ parsePseudoColumnID (Kind c) = Some c.
Proof.
  intros H. unfold parsePseudoColumnID in H. cbv zeta in H.
  repeat match type of H with
         | context [if ?b then _ else _] => destruct b
         end; try discriminate; injection H as <-;
    (split; [unfold pseudoColumnsInBoardOrder, In; auto 6|]);
    split; reflexivity.
Qed.

Lemma parsePseudoColumnID_canonical_witness :
  In pseudoColumnMaybe pseudoColumnsInBoardOrder
  /\ parsePseudoColumnID (ID pseudoColumnMaybe) = Some pseudoColumnMaybe
  /\ parsePseudoColumnID (Kind pseudoColumnMaybe) = Some pseudoColumnMaybe.
Proof.
  apply (parsePseudoColumnID_canonical (lit "  Not-Now ")).
  reflexivity.
Defined.

Lemma asciiSpace_lowerChar (a : ascii) :
  asciiSpace (lowerChar a) = asciiSpace a.
Proof.
  destruct a as [[] [] [] [] [] [] [] []]; reflexivity.
Qed.

Lemma lowerChar_idempotent (a : ascii) :
  lowerChar (lowerChar a) = lowerChar a.
Proof.
  destruct a as [[] [] [] [] [] [] [] []]; reflexivity.
Qed.

Lemma trimLeft_toLower (s : str) :
  trimLeft (map lowerChar s) = map lowerChar (trimLeft s).
Proof.
  induction s as [|a s IH]; [done|]. cbn [map trimLeft].
  rewrite asciiSpace_lowerChar. by destruct (asciiSpace a).
Qed.

Lemma trimSpace_toLower (s : str) :
  trimSpace (toLower s) = toLower (trimSpace s).
Proof.
  unfold trimSpace, toLower.
  by rewrite trimLeft_toLower, <- map_rev, trimLeft_toLower, map_rev.
Qed.

Lemma toLower_idempotent (s : str) : toLower (toLower s) = toLower s.
Proof.
  unfold toLower. rewrite map_map. apply map_ext.
  intros a. apply lowerChar_idempotent.
Qed.

Lemma trimLeft_idempotent (s : str) : trimLeft (trimLeft s) = trimLeft s.
Proof.
  induction s as [|a s IH]; [done|]. cbn [trimLeft].
  destruct (asciiSpace a) eqn:E; [done|]. cbn [trimLeft]. by rewrite E.
Qed.

(** Trimming on the left leaves the end of the text as it is. *)
Lemma trimLeft_rev_trimLeft (s : str) :
  trimLeft (rev (trimLeft (rev (trimLeft s))))
  = rev (trimLeft (rev (trimLeft s))).
Proof.
  assert (forall t, trimLeft t = t ->
            trimLeft (rev (trimLeft (rev t))) = rev (trimLeft (rev t)))
    as Hgen.
  { intros t Ht. destruct t as [|a t]; [done|].
    cbn [trimLeft] in Ht. destruct (asciiSpace a) eqn:Ha.
    { exfalso. assert (length (trimLeft t) <= length t)%nat as Hlen.
      { clear. induction t as [|b t IH]; [done|]. cbn [trimLeft].
        destruct (asciiSpace b); simpl in *; lia. }
      rewrite Ht in Hlen. simpl in Hlen. lia. }
    cbn [rev].
    assert (forall u, exists v, trimLeft (u ++ [a]) = v ++ [a]) as Hend.
    { induction u as [|b u [v IH]]; cbn [app trimLeft].
      - rewrite Ha. by exists [].
      - destruct (asciiSpace b); [by exists v|]. by exists (b :: u). }
    destruct (Hend (rev t)) as [v ->].
    rewrite rev_app_distr. cbn [rev app trimLeft]. by rewrite Ha. }
  apply Hgen, trimLeft_idempotent.
Qed.

Lemma trimSpace_idempotent (s : str) : trimSpace (trimSpace s) = trimSpace s.
Proof.
  unfold trimSpace.
  rewrite trimLeft_rev_trimLeft, rev_involutive.
  apply trimLeft_rev_trimLeft.
Qed.

(** X15. The spelling of a pseudo column is read without regard to case
    and to white space around it: lower-casing the name, trimming it, or
    putting white space before or after it does not change what
    [parsePseudoColumnID] returns for a name of ASCII characters. *)
Theorem parsePseudoColumnID_spelling (id : str) :
  isASCII id = true ->
  parsePseudoColumnID (toLower id) = parsePseudoColumnID id
  /\ parsePseudoColumnID (trimSpace id) = parsePseudoColumnID id
  /\ (forall before after,
        forallb asciiSpace before = true ->
        forallb asciiSpace after = true ->
        parsePseudoColumnID (before ++ id ++ after) = parsePseudoColumnID id).
Proof.
  intros _. unfold parsePseudoColumnID. cbv zeta. split; [|split].
  - by rewrite trimSpace_toLower, toLower_idempotent.
  - by rewrite trimSpace_idempotent.
  - intros before after Hb Ha.
    enough (trimSpace (before ++ id ++ after) = trimSpace id) as -> by done.
    assert (forall sp s, forallb asciiSpace sp = true ->
              trimLeft (sp ++ s) = trimLeft s) as Hleft.
    { induction sp as [|a sp IH]; intros s Hsp; [done|].
      cbn [forallb] in Hsp. apply andb_prop in Hsp as [Ha' Hsp].
      cbn [app trimLeft]. rewrite Ha'. by apply IH. }
    unfold trimSpace. rewrite Hleft by done.
    assert (forall s,
              trimLeft (s ++ after) = trimLeft s ++ after
              \/ (trimLeft s = [] /\
                  trimLeft (s ++ after) = trimLeft after)) as Hshape.
    { induction s as [|a s IH]; cbn [app trimLeft]; [by right|].
      destruct (asciiSpace a); [exact IH|by left]. }
    assert (forall sp, forallb asciiSpace sp = true ->
              forallb asciiSpace (rev sp) = true) as Hrev.
    { intros sp Hsp. apply forallb_forall. intros a Hin.
      apply in_rev in Hin. by eapply forallb_forall in Hsp. }
    assert (forall sp, forallb asciiSpace sp = true -> trimLeft sp = [])
      as Hall.
    { intros sp Hsp. rewrite <- (app_nil_r sp). by rewrite Hleft. }
    destruct (Hshape id) as [H1|[H1 H2]].
    + rewrite H1, rev_app_distr, Hleft by by apply Hrev. done.
    + by rewrite H2, H1, (Hall after).
Qed.

Lemma parsePseudoColumnID_spelling_witness :
  let id := lit "Not_Now" in
  parsePseudoColumnID (toLower id) = parsePseudoColumnID id
  /\ parsePseudoColumnID (trimSpace id) = parsePseudoColumnID id
  /\ (forall before after,
        forallb asciiSpace before = true ->
        forallb asciiSpace after = true ->
        parsePseudoColumnID (before ++ id ++ after) = parsePseudoColumnID id).
Proof.
  apply (parsePseudoColumnID_spelling (lit "Not_Now")). reflexivity.
Defined.

Example parsePseudoColumnID_examples :
  parsePseudoColumnID (lit "  TRIAGE ") = Some pseudoColumnNotYet
  /\ parsePseudoColumnID (lit "Maybe?") = Some pseudoColumnMaybe
  /\ parsePseudoColumnID (lit "close") = Some pseudoColumnDone
  /\ parsePseudoColumnID (lit "backlog") = None
  /\ parsePseudoColumnID [] = None.
Proof. by vm_compute. Qed.

(** X16. The objects that stand for pseudo columns are never taken for
    real columns by the migration: each is skipped by the column loop,
    and the lanes that [column list] puts around the columns of a board
    change neither the number of columns to create nor the creation
    requests. *)
Theorem pseudo_columns_are_skipped (c notNow : pseudoColumn)
    (data : list json) (tgt board : str) :
  realColumn (pseudoColumnObject c) = false
  /\ countRealColumns (columnListCols notNow data) = countRealColumns data
  /\ omap (columnCreation tgt board) (columnListCols notNow data)
     = omap (columnCreation tgt board) data.
Proof.
  assert (forall p, skippedAsPseudo
                      [(lit "id", JString (ID p));
                       (lit "name", JString (Name p));
                       (lit "kind", JString (Kind p));
                       (lit "pseudo", JBool true)] = true) as Hskip.
  { intros p. unfold skippedAsPseudo.
    change (index _ (lit "kind")) with (JString (Kind p)).
    change (index _ (lit "pseudo")) with (JBool true).
    apply orb_true_r. }
  assert (forall p, realColumn (pseudoColumnObject p) = false) as Hreal.
  { intros p. unfold realColumn, pseudoColumnObject. by rewrite Hskip. }
  assert (forall p, columnCreation tgt board (pseudoColumnObject p) = None)
    as Hnone.
  { intros p. unfold columnCreation, pseudoColumnObject. by rewrite Hskip. }
  split; [done|split].
  - rewrite !countRealColumns_filter. unfold columnListCols.
    cbn [app List.filter]. rewrite !Hreal, List.filter_app.
    cbn [List.filter]. by rewrite Hreal, app_nil_r.
  - unfold columnListCols. cbn [app omap list_omap]. rewrite !Hnone.
    change (list_omap ?f ?l) with (omap f l). rewrite omap_app.
    cbn [omap list_omap]. by rewrite Hnone, app_nil_r.
Qed.


(** ** Output paths *)

Lemma untilSeparator_no_separator (s : str) :
  ~ In "/"%char (untilSeparator s).
Proof.
  induction s as [|a s IH]; [by intros []|]. cbn [untilSeparator].
  unfold isPathSeparator. case_bool_decide as Ha; [by intros []|].
  intros [H|H]; [congruence|done].
Qed.

Lemma filepathBase_cases (path : str) :
  filepathBase path <> []
  /\ (filepathBase path = lit "/" \/ ~ In "/"%char (filepathBase path)).
Proof.
  unfold filepathBase. destruct (streq path []).
  { split; [done|]. right. vm_compute. intros [H|[]]. discriminate. }
  destruct (streq (rev _) []) eqn:E.
  { split; [done|by left]. }
  apply streq_false in E. split; [done|]. right.
  rewrite <- in_rev. apply untilSeparator_no_separator.
Qed.

(** X17. Without an output flag a download is saved under the last
    element of the attachment's file name: the path is never empty and
    holds no separator, unless the file name consists of separators only,
    for which it is ["/"]. The index and the number of files do not
    enter. *)
Theorem buildOutputPath_default (originalFilename : str) (index total : Z) :
  let path := buildOutputPath [] originalFilename index total in
  path = filepathBase originalFilename
  /\ path <> []
  /\ (path = lit "/" \/ ~ In "/"%char path).
Proof.
  cbv zeta. unfold buildOutputPath.
  change (streq [] []) with true. cbv iota.
  split; [done|]. apply filepathBase_cases.
Qed.

Example buildOutputPath_default_examples :
  buildOutputPath [] (lit "../../etc/passwd") 1 1 = lit "passwd"
  /\ buildOutputPath [] (lit "shots/a.png/") 2 3 = lit "a.png"
  /\ buildOutputPath [] [] 1 1 = lit "."
  /\ buildOutputPath [] (lit "///") 1 1 = lit "/"
  /\ buildOutputPath [] (lit "..") 1 1 = lit "..".
Proof. by vm_compute. Qed.

Lemma extFrom_shape (r acc : str) :
  extFrom r acc = [] \/ exists e, extFrom r acc = "."%char :: e.
Proof.
  revert acc. induction r as [|a r IH]; intros acc; cbn [extFrom];
    [by left|].
  destruct (isPathSeparator a); [by left|].
  case_bool_decide as Ha; [|apply IH]. right. subst a. by eexists.
Qed.

Lemma pretty_N_go_chars (P : ascii -> Prop) :
  (forall d, P (pretty_N_char d)) ->
  forall x s,
    Forall P (list_ascii_of_string s) ->
    Forall P (list_ascii_of_string (pretty_N_go x s)).
Proof.
  intros Hdigit x. induction (N.lt_wf_0 x) as [x _ IH]. intros s Hs.
  destruct (decide (x = 0)%N) as [->|Hx]; [by rewrite pretty_N_go_0|].
  rewrite pretty_N_go_step by lia. apply IH.
  - apply N.div_lt; lia.
  - cbn [list_ascii_of_string]. by constructor.
Qed.

Lemma itoa_no_dot (n : Z) : ~ In "."%char (itoa n).
Proof.
  assert (forall d, pretty_N_char d <> "."%char) as Hdigit.
  { intros d. unfold pretty_N_char. by repeat case_match. }
  assert (forall p, Forall (fun a => a <> "."%char)
                      (list_ascii_of_string (pretty (N.pos p)))) as Hpos.
  { intros p. unfold pretty, pretty_N. case_decide; [done|].
    by apply pretty_N_go_chars. }
  unfold itoa, lit, pretty, pretty_Z. intros Hin.
  destruct n as [|p|p].
  - vm_compute in Hin. by destruct Hin as [H|[]].
  - specialize (Hpos p). rewrite Forall_forall in Hpos.
    apply (Hpos "."%char); [|done]. by apply list_elem_of_In.
  - cbn [list_ascii_of_string String.append] in Hin.
    destruct Hin as [H|Hin]; [discriminate|].
    specialize (Hpos p). rewrite Forall_forall in Hpos.
    apply (Hpos "."%char); [|done]. by apply list_elem_of_In.
Qed.

Lemma itoa_inj (n m : Z) : itoa n = itoa m -> n = m.
Proof.
  unfold itoa, lit. intros H. apply (inj pretty).
  rewrite <- (string_of_list_ascii_of_string (pretty n)),
    <- (string_of_list_ascii_of_string (pretty m)). by rewrite H.
Qed.

(** Two texts without a dot, each followed by nothing or by a dot and
    more: equal wholes have equal fronts. *)
Lemma front_before_dot (l1 l2 e1 e2 : str) :
  ~ In "."%char l1 -> ~ In "."%char l2 ->
  (e1 = [] \/ exists e, e1 = "."%char :: e) ->
  (e2 = [] \/ exists e, e2 = "."%char :: e) ->
  l1 ++ e1 = l2 ++ e2 -> l1 = l2.
Proof.
  revert l2. induction l1 as [|a l1 IH]; intros l2 H1 H2 He1 He2 Heq.
  - destruct l2 as [|b l2]; [done|]. exfalso. cbn [app] in Heq.
    destruct He1 as [->|[e ->]]; [done|]. injection Heq as <- _.
    apply H2. by left.
  - destruct l2 as [|b l2].
    + exfalso. cbn [app] in Heq.
      destruct He2 as [->|[e ->]]; [done|]. injection Heq as -> _.
      apply H1. by left.
    + cbn [app] in Heq. injection Heq as -> Heq. f_equal.
      apply IH; try done.
      * intros Hin. apply H1. by right.
      * intros Hin. apply H2. by right.
Qed.

(** X18. With an output flag and several files to download, the paths of
    two files with different indices are different, whatever their file
    names: no download overwrites another. *)
Theorem buildOutputPath_prefix_distinct (outputFlag name1 name2 : str)
    (i j total : Z) :
  outputFlag <> [] -> total <> 1 -> i <> j ->
  streq (buildOutputPath outputFlag name1 i total)
        (buildOutputPath outputFlag name2 j total) = false.
Proof.
  intros Hflag Htotal Hij. apply streq_false. unfold buildOutputPath.
  apply streq_false in Hflag. apply Z.eqb_neq in Htotal.
  rewrite Hflag, Htotal. intros Heq.
  rewrite !(app_assoc (trimSuffix _ _)) in Heq.
  apply app_inv_head in Heq.
  apply front_before_dot in Heq; try apply itoa_no_dot;
    try apply extFrom_shape.
  by apply itoa_inj in Heq.
Qed.

Lemma buildOutputPath_prefix_distinct_witness :
  streq (buildOutputPath (lit "shot.png") (lit "a/first.png") 1 2)
        (buildOutputPath (lit "shot.png") (lit "second.jpeg") 2 2) = false.
Proof.
  apply (buildOutputPath_prefix_distinct (lit "shot.png")
           (lit "a/first.png") (lit "second.jpeg") 1 2 2).
  - vm_compute. discriminate.
  - lia.
  - lia.
Defined.

(** With one file the flag is the path; with several it is a prefix, the
    extension of the file name is kept. *)
Example buildOutputPath_flag_examples :
  buildOutputPath (lit "shot.png") (lit "a/first.jpeg") 1 1 = lit "shot.png"
  /\ buildOutputPath (lit "shot.png") (lit "a/first.jpeg") 1 2
     = lit "shot_1.jpeg"
  /\ buildOutputPath (lit "out/shot") (lit "notes") 2 2 = lit "out/shot_2"
  /\ buildOutputPath (lit "v1.2/shot") (lit "x.tar.gz") 3 4
     = lit "v1.2/shot_3.gz"
  /\ buildOutputPath (lit "v1.2") (lit "x.tar.gz") 3 4 = lit "v1_3.gz".
Proof. by vm_compute. Qed.


(** ** Attachments of comments *)

Lemma appendCommentAttachment_fold (id : str) (atts : list Attachment) :
  forall (acc : list CommentAttachment) (n : Z),
  exists new,
    fold_left (appendCommentAttachment id) atts (acc, n)
    = (acc ++ new, n + Z.of_nat (length new))
    /\ (forall i ca, new !! i = Some ca ->
                     Index (embedded ca) = n + Z.of_nat i)
    /\ map (fun ca => (CommentID ca, unnumbered (embedded ca))) new
       = map (fun a => (id, unnumbered a)) atts.
Proof.
  induction atts as [|a atts IH]; intros acc n.
  - exists []. cbn. rewrite app_nil_r, Z.add_0_r. repeat split.
    intros i ca. by rewrite lookup_nil.
  - cbn [fold_left appendCommentAttachment].
    destruct (IH (acc ++ [{| embedded := setIndex a n; CommentID := id |}])
                (n + 1)) as (new & Hfold & Hidx & Hmap).
    exists ({| embedded := setIndex a n; CommentID := id |} :: new).
    rewrite Hfold, <- app_assoc. cbn [app length map]. repeat split.
    + f_equal. lia.
    + intros [|i] ca; cbn.
      * intros [= <-]. cbn. lia.
      * intros Hca. rewrite (Hidx i ca Hca). lia.
    + by rewrite Hmap.
Qed.

Lemma extractCommentStep_fold (comments : list json) :
  forall (acc : list CommentAttachment) (n : Z),
  exists new,
    fold_left extractCommentStep comments (acc, n)
    = (acc ++ new, n + Z.of_nat (length new))
    /\ (forall i ca, new !! i = Some ca ->
                     Index (embedded ca) = n + Z.of_nat i)
    /\ map (fun ca => (CommentID ca, unnumbered (embedded ca))) new
       = flat_map (fun c => map (fun a => (commentIDOf c, unnumbered a))
                              (parseAttachments (commentHTML c)))
           comments.
Proof.
  induction comments as [|c comments IH]; intros acc n.
  - exists []. cbn. rewrite app_nil_r, Z.add_0_r. repeat split.
    intros i ca. by rewrite lookup_nil.
  - cbn [fold_left flat_map].
    assert (exists new1,
              extractCommentStep (acc, n) c
              = (acc ++ new1, n + Z.of_nat (length new1))
              /\ (forall i ca, new1 !! i = Some ca ->
                               Index (embedded ca) = n + Z.of_nat i)
              /\ map (fun ca => (CommentID ca, unnumbered (embedded ca)))
                   new1
                 = map (fun a => (commentIDOf c, unnumbered a))
                     (parseAttachments (commentHTML c))) as Hstep.
    { assert (exists new1 : list CommentAttachment,
                (acc, n) = (acc ++ new1, n + Z.of_nat (length new1))
                /\ (forall i ca, new1 !! i = Some ca ->
                                 Index (embedded ca) = n + Z.of_nat i)
                /\ map (fun ca => (CommentID ca, unnumbered (embedded ca)))
                     new1 = []) as Hnone.
      { exists []. cbn. rewrite app_nil_r, Z.add_0_r. repeat split.
        intros i ca. by rewrite lookup_nil. }
      unfold extractCommentStep, commentHTML, commentIDOf.
      destruct c as [| | | | | |comment]; try exact Hnone.
      destruct (index comment (lit "body")) as [| | | | | |bodyObj];
        try exact Hnone.
      destruct (streq _ []) eqn:E.
      { apply streq_true in E. rewrite E, parseAttachments_nil.
        exact Hnone. }
      apply appendCommentAttachment_fold. }
    destruct Hstep as (new1 & -> & Hidx1 & Hmap1).
    destruct (IH (acc ++ new1) (n + Z.of_nat (length new1)))
      as (new2 & Hfold & Hidx2 & Hmap2).
    exists (new1 ++ new2). rewrite Hfold, <- app_assoc.
    rewrite length_app, map_app, Hmap1, Hmap2. repeat split.
    + f_equal. lia.
    + intros i ca Hca. apply lookup_app_Some in Hca as [Hca|[Hle Hca]].
      * by apply Hidx1.
      * rewrite (Hidx2 _ _ Hca). lia.
Qed.

(** X19. [extractCommentAttachments] returns the attachments of the
    comments' HTML bodies in the order of the comments, each with the
    identity of its comment, and numbers them from one across all
    comments; a comment that is no object or has no HTML body adds
    nothing. *)
Theorem extractCommentAttachments_numbered (comments : list json) :
  let result := extractCommentAttachments comments in
  (forall i ca, result !! i = Some ca ->
                Index (embedded ca) = Z.of_nat i + 1)
  /\ map (fun ca => (CommentID ca, unnumbered (embedded ca))) result
     = flat_map (fun c => map (fun a => (commentIDOf c, unnumbered a))
                            (parseAttachments (commentHTML c)))
         comments.
Proof.
  cbv zeta. unfold extractCommentAttachments.
  destruct (extractCommentStep_fold comments [] 1)
    as (new & -> & Hidx & Hmap).
  cbn [fst app]. split; [|done].
  intros i ca Hca. rewrite (Hidx i ca Hca). lia.
Qed.


(** ** The attachment commands *)

Lemma parseAttachments_numbered (html : str) :
  numberedFrom 1 (parseAttachments html).
Proof.
  intros i a. rewrite parseAttachments_eq, reindexFrom_lookup.
  destruct (_ !! i) as [b|]; [|done]. intros [= <-]. cbn. lia.
Qed.

Lemma appendReindexed_fold (cas : list CommentAttachment) :
  forall atts,
    numberedFrom 1 atts ->
    exists more,
      fold_left appendReindexed cas atts = atts ++ more
      /\ numberedFrom 1 (atts ++ more)
      /\ map unnumbered more = map (fun ca => unnumbered (embedded ca)) cas.
Proof.
  induction cas as [|ca cas IH]; intros atts Hatts.
  - exists []. by rewrite app_nil_r.
  - cbn [fold_left]. unfold appendReindexed at 2.
    destruct (IH (atts ++ [setIndex (embedded ca)
                             (Z.of_nat (length atts) + 1)]))
      as (more & Hfold & Hnum & Hmap).
    { intros i a Ha. apply lookup_app_Some in Ha as [Ha|[Hle Ha]].
      - by apply Hatts.
      - destruct (i - length atts)%nat as [|k] eqn:E; [|done].
        injection Ha as <-. cbn. lia. }
    exists (setIndex (embedded ca) (Z.of_nat (length atts) + 1) :: more).
    rewrite Hfold, <- app_assoc in *. cbn [app map] in *.
    repeat split; try done. by rewrite Hmap.
Qed.

(** What the first part of both commands returns: the attachments of the
    card, numbered from one, those of the description first. *)
Lemma collectCardAttachments_returns (g : attachmentsGlobals)
    (includeComments : bool) (cardNumber : str) :
  Returns (fun r => match r with
                    | inr atts => numberedFrom 1 atts
                    | inl _ => True
                    end)
    (collectCardAttachments g includeComments cardNumber).
Proof.
  unfold collectCardAttachments.
  apply Returns_then. intros [resp|err]; [|by constructor].
  destruct (Data resp) as [| | | | | |cardData]; try by constructor.
  pose proof (parseAttachments_numbered
                match index cardData (lit "description_html") with
                | JString v => v
                | _ => []
                end) as Hnum.
  destruct includeComments; [|by constructor].
  apply Returns_then. intros [commentsResp|err]; [|by constructor].
  destruct (Data commentsResp) as [| | | | |comments|]; try by constructor.
  constructor.
  destruct (appendReindexed_fold (extractCommentAttachments comments) _ Hnum)
    as (more & -> & Hmore & _).
  exact Hmore.
Qed.

(** X20. The attachments [card attachments show] lists are numbered from
    one in the order of the list. Once the card is fetched the command
    succeeds, whatever the listing of the comments is answered: the
    attachments of the description come first, and without
    [--include-comments] there are no others. *)
Theorem attachmentsShowRun_listing {W : Type}
    (h : W -> request -> W * reply) (w : W) (g : attachmentsGlobals)
    (cardNumber : str) :
  let r := run h w (attachmentsShowRun g cardNumber) in
  (forall atts, resultOf r = ShowSuccess atts -> numberedFrom 1 atts)
  /\ (forall resp cardData,
        requireAuthAndAccount g = None ->
        (h w (cardRequest g cardNumber)).2 = Ok resp ->
        Data resp = JObject cardData ->
        exists more,
          resultOf r
          = ShowSuccess
              (parseAttachments
                 (getStringField cardData (lit "description_html"))
               ++ more)
          /\ (attachmentsShowIncludeComments g = false -> more = [])).
Proof.
  cbv zeta. split.
  - intros atts.
    apply (Returns_run
             (fun o => o = ShowSuccess atts -> numberedFrom 1 atts)).
    unfold attachmentsShowRun.
    destruct (requireAuthAndAccount g); [by constructor|].
    eapply Returns_bind; [apply collectCardAttachments_returns|].
    intros [err|atts'] Hnum; constructor; [done|].
    intros [= <-]. exact Hnum.
  - intros resp cardData Hauth Hcard Hdata.
    unfold attachmentsShowRun, collectCardAttachments, cardRequest in *.
    rewrite Hauth. run_norm. rewrite Hcard, Hdata. cbv iota beta.
    fold (getStringField cardData (lit "description_html")).
    destruct (attachmentsShowIncludeComments g).
    + run_norm.
      match goal with
      | |- context [h ?w1 ?req] =>
          destruct (h w1 req) as [w2 [commentsResp|err]]
      end; cbn [fst snd]; run_norm.
      2:{ exists []. rewrite !app_nil_r. by split. }
      destruct (Data commentsResp) as [| | | | |comments|]; run_norm;
        try (exists []; rewrite !app_nil_r; by split).
      destruct (appendReindexed_fold (extractCommentAttachments comments)
                  _ (parseAttachments_numbered
                       (getStringField cardData (lit "description_html"))))
        as (more & -> & _ & _).
      exists more. by split.
    + run_norm. exists []. rewrite !app_nil_r. by split.
Qed.

Lemma downloadFiles_run {W : Type} (h : W -> request -> W * reply)
    (g : attachmentsGlobals) (total : Z) (atts : list Attachment) :
  forall (i : Z) (results : list downloadedFile) (w : W),
  let r := run h w (downloadFiles g total i atts results) in
  let plan := downloadPlan g total i atts in
  requestsOf (traceOf r) `prefix_of` map fst plan
  /\ (forall files,
        resultOf r = inr files ->
        files = results ++ map snd plan
        /\ requestsOf (traceOf r) = map fst plan
        /\ Forall (fun x => isOk x.2 = true) (traceOf r))
  /\ (forall e,
        resultOf r = inl e ->
        exists t req err,
          traceOf r = t ++ [(req, Failed err)] /\ e = PlainError err
          /\ Forall (fun x => isOk x.2 = true) t).
Proof.
  cbv zeta. induction atts as [|a atts IH]; intros i results w.
  - cbn. split; [done|split].
    + intros files [= <-]. by rewrite app_nil_r.
    + by intros e [=].
  - cbn [downloadFiles downloadPlan map fst snd]. run_norm.
    destruct (h w _) as [w1 [resp|err]]; cbn [fst snd].
    + specialize (IH (i + 1)
                    (results
                     ++ [{| fileFilename := Filename a;
                            fileSavedTo :=
                              buildOutputPath (attachmentDownloadOutput g)
                                (Filename a) (i + 1) total;
                            fileFilesize := Filesize a |}]) w1).
      destruct (run h w1 (downloadFiles _ _ _ _ _)) as [[res w2] t2].
      unfold resultOf, traceOf, requestsOf in *. cbn [fst snd app map] in *.
      destruct IH as (Hpre & Hok & Hfail). split; [|split].
      * by apply prefix_cons.
      * intros files H. destruct (Hok files H) as (-> & -> & Hall).
        rewrite <- app_assoc. repeat split; try done. by constructor.
      * intros e He. destruct (Hfail e He) as (t & req & err & -> & -> & Ht).
        exists ((DownloadFile (clientAccount g) (DownloadURL a)
                   (buildOutputPath (attachmentDownloadOutput g)
                      (Filename a) (i + 1) total), Ok resp) :: t), req, err.
        split; [done|]. split; [done|]. by constructor.
    + run_norm. unfold resultOf, traceOf, requestsOf. cbn [fst snd app map].
      split; [|split].
      * apply prefix_cons, prefix_nil.
      * by intros files [=].
      * intros e [= <-]. by exists [], (DownloadFile (clientAccount g)
          (DownloadURL a) (buildOutputPath (attachmentDownloadOutput g)
                             (Filename a) (i + 1) total)), err.
Qed.

Lemma downloadPlan_length (g : attachmentsGlobals) (total i : Z)
    (atts : list Attachment) :
  length (downloadPlan g total i atts) = length atts.
Proof.
  revert i. induction atts as [|a atts IH]; intros i; cbn; [done|].
  by rewrite IH.
Qed.

(** X22. [card attachments download] without an index downloads the
    listed attachments in order, each to the path [buildOutputPath] gives
    for its file name and position, and stops at the first download that
    fails, ending with its error; the files downloaded before stay. When
    all succeed the payload counts and names every attachment. *)
Theorem attachmentsDownloadRun_all {W : Type}
    (h : W -> request -> W * reply) (w : W) (g : attachmentsGlobals)
    (cardNumber : str) (atts : list Attachment) :
  requireAuthAndAccount g = None ->
  resultOf (run h w (collectCardAttachments g
                       (attachmentsDownloadIncludeComments g) cardNumber))
  = inr atts ->
  atts <> [] ->
  let rc := run h w (collectCardAttachments g
                       (attachmentsDownloadIncludeComments g) cardNumber) in
  let r := run h w (attachmentsDownloadRun g cardNumber None) in
  let plan := downloadPlan g (Z.of_nat (length atts)) 0 atts in
  exists downloads,
    traceOf r = traceOf rc ++ downloads
    /\ requestsOf downloads `prefix_of` map fst plan
    /\ (forall n files,
          resultOf r = DownloadSuccess n files ->
          n = Z.of_nat (length atts) /\ files = map snd plan
          /\ requestsOf downloads = map fst plan)
    /\ (forall e,
          resultOf r = ExitWith e ->
          exists t req err,
            downloads = t ++ [(req, Failed err)] /\ e = PlainError err
            /\ Forall (fun x => isOk x.2 = true) t)
    /\ (forall shown, resultOf r <> ShowSuccess shown).
Proof.
  intros Hauth Hcollect Hne. cbv zeta. unfold attachmentsDownloadRun.
  rewrite Hauth, run_bind.
  destruct (run h w (collectCardAttachments _ _ _)) as [[c w1] t1].
  unfold resultOf, traceOf in *. cbn [fst snd] in *. subst c.
  assert ((length atts =? 0)%nat = false) as -> by by destruct atts.
  cbv iota beta zeta. rewrite run_bind.
  pose proof (downloadFiles_run h g (Z.of_nat (length atts)) atts 0 [] w1)
    as (Hpre & Hok & Hfail). cbv zeta in Hok, Hfail.
  destruct (run h w1 (downloadFiles _ _ _ _ _)) as [[f w2] t2].
  unfold resultOf, traceOf in *. cbn [fst snd] in *.
  exists t2. destruct f as [e|files]; cbv beta iota; rewrite run_ret;
    cbn [fst snd]; rewrite app_nil_r; repeat split; try done.
  - intros e' [= <-]. by apply Hfail.
  - injection H as <- <-. destruct (Hok files eq_refl) as (-> & Hreq & _).
    cbn [app]. by rewrite length_map, downloadPlan_length.
  - injection H as <- <-. by destruct (Hok files eq_refl) as (-> & _ & _).
  - injection H as <- <-. by destruct (Hok files eq_refl) as (_ & -> & _).
Qed.

Lemma attachmentsDownloadRun_all_witness :
  let h := cardServer secondDownloadFails in
  let g := withPrefix in
  let atts := [imageA; imageB] in
  let rc := run h 0 (collectCardAttachments g
                       (attachmentsDownloadIncludeComments g) (lit "42")) in
  let r := run h 0 (attachmentsDownloadRun g (lit "42") None) in
  let plan := downloadPlan g (Z.of_nat (length atts)) 0 atts in
  exists downloads,
    traceOf r = traceOf rc ++ downloads
    /\ requestsOf downloads `prefix_of` map fst plan
    /\ (forall n files,
          resultOf r = DownloadSuccess n files ->
          n = Z.of_nat (length atts) /\ files = map snd plan
          /\ requestsOf downloads = map fst plan)
    /\ (forall e,
          resultOf r = ExitWith e ->
          exists t req err,
            downloads = t ++ [(req, Failed err)] /\ e = PlainError err
            /\ Forall (fun x => isOk x.2 = true) t)
    /\ (forall shown, resultOf r <> ShowSuccess shown).
Proof.
  apply (attachmentsDownloadRun_all (cardServer secondDownloadFails) 0
           withPrefix (lit "42") [imageA; imageB]).
  - reflexivity.
  - vm_compute. reflexivity.
  - discriminate.
Defined.

(** The run of the witness and the same run with every download
    answered: two files under the prefix of the flag. *)
Example attachmentsDownloadRun_examples :
  resultOf (run (cardServer secondDownloadFails) 0
              (attachmentsDownloadRun withPrefix (lit "42") None))
  = ExitWith (PlainError (ExternalError (lit "503 Service Unavailable")))
  /\ resultOf (run (cardServer neverFails) 0
                 (attachmentsDownloadRun withPrefix (lit "42") None))
     = DownloadSuccess 2
         [ {| fileFilename := lit "a.png"; fileSavedTo := lit "shot_1.png";
              fileFilesize := 0 |};
           {| fileFilename := lit "b.png"; fileSavedTo := lit "shot_2.png";
              fileFilesize := 0 |} ].
Proof. by vm_compute. Qed.

(** X21. [card attachments download] with an index in range downloads one
    file: the attachment the listing shows under that index, to the path
    of the output flag or, without the flag, to the last element of its
    file name. The command ends with the payload of that one file, or
    with the error of the download. *)
Theorem attachmentsDownloadRun_by_index {W : Type}
    (h : W -> request -> W * reply) (w : W) (g : attachmentsGlobals)
    (cardNumber arg : str) (atts : list Attachment) (k : Z) :
  requireAuthAndAccount g = None ->
  resultOf (run h w (collectCardAttachments g
                       (attachmentsDownloadIncludeComments g) cardNumber))
  = inr atts ->
  parseInt arg = Some k ->
  1 <= k <= Z.of_nat (length atts) ->
  let rc := run h w (collectCardAttachments g
                       (attachmentsDownloadIncludeComments g) cardNumber) in
  let r := run h w (attachmentsDownloadRun g cardNumber (Some arg)) in
  exists a reply,
    atts !! Z.to_nat (k - 1) = Some a
    /\ Index a = k
    /\ let path :=
         if streq (attachmentDownloadOutput g) []
         then filepathBase (Filename a)
         else attachmentDownloadOutput g in
       traceOf r
       = traceOf rc
         ++ [(DownloadFile (clientAccount g) (DownloadURL a) path, reply)]
       /\ resultOf r
          = match reply with
            | Ok _ =>
                DownloadSuccess 1
                  [{| fileFilename := Filename a; fileSavedTo := path;
                      fileFilesize := Filesize a |}]
            | Failed err => ExitWith (PlainError err)
            end.
Proof.
  intros Hauth Hcollect Harg Hk. cbv zeta.
  pose proof (Returns_run _ _ h w
                (collectCardAttachments_returns g
                   (attachmentsDownloadIncludeComments g) cardNumber))
    as Hnum.
  unfold attachmentsDownloadRun. rewrite Hauth, run_bind.
  destruct (run h w (collectCardAttachments _ _ _)) as [[c w1] t1].
  unfold resultOf, traceOf in *. cbn [fst snd] in *. subst c.
  assert ((length atts =? 0)%nat = false) as ->.
  { apply Nat.eqb_neq. lia. }
  rewrite Harg.
  assert ((k <? 1) || (Z.of_nat (length atts) <? k) = false) as ->.
  { apply orb_false_iff. split; apply Z.ltb_ge; lia. }
  destruct (lookup_lt_is_Some_2 atts (Z.to_nat (k - 1))) as [a Ha]; [lia|].
  rewrite Ha. cbv iota beta zeta.
  cbn [downloadFiles length]. run_norm.
  exists a, (h w1 (DownloadFile (clientAccount g) (DownloadURL a)
                 (buildOutputPath (attachmentDownloadOutput g) (Filename a)
                    (0 + 1) (Z.of_nat 1)))).2.
  split; [done|]. split.
  { rewrite (Hnum _ _ Ha). lia. }
  assert (buildOutputPath (attachmentDownloadOutput g) (Filename a) (0 + 1)
            (Z.of_nat 1)
          = if streq (attachmentDownloadOutput g) []
            then filepathBase (Filename a)
            else attachmentDownloadOutput g) as ->.
  { unfold buildOutputPath. by destruct (streq _ []). }
  destruct (h w1 _) as [w2 [resp|err]]; cbn [fst snd]; run_norm;
    by rewrite ?app_nil_r.
Qed.

Lemma attachmentsDownloadRun_by_index_witness :
  let h := cardServer neverFails in
  let g := withComments in
  let rc := run h 0 (collectCardAttachments g
                       (attachmentsDownloadIncludeComments g) (lit "42")) in
  let r := run h 0 (attachmentsDownloadRun g (lit "42")
                      (Some (lit "3"))) in
  exists a reply,
    [imageA; imageB; setIndex imageA 3] !! Z.to_nat (3 - 1) = Some a
    /\ Index a = 3
    /\ let path :=
         if streq (attachmentDownloadOutput g) []
         then filepathBase (Filename a)
         else attachmentDownloadOutput g in
       traceOf r
       = traceOf rc
         ++ [(DownloadFile (clientAccount g) (DownloadURL a) path, reply)]
       /\ resultOf r
          = match reply with
            | Ok _ =>
                DownloadSuccess 1
                  [{| fileFilename := Filename a; fileSavedTo := path;
                      fileFilesize := Filesize a |}]
            | Failed err => ExitWith (PlainError err)
            end.
Proof.
  apply (attachmentsDownloadRun_by_index (cardServer neverFails) 0
           withComments (lit "42") (lit "3")
           [imageA; imageB; setIndex imageA 3] 3).
  - reflexivity.
  - vm_compute. reflexivity.
  - reflexivity.
  - simpl. lia.
Defined.

(** X23. [card attachments download] downloads nothing and ends with an
    error when the card has no attachment, when the index is not a
    number, and when it is out of range; the error says which. *)
Theorem attachmentsDownloadRun_refusals {W : Type}
    (h : W -> request -> W * reply) (w : W) (g : attachmentsGlobals)
    (cardNumber : str) (indexArg : option str) (atts : list Attachment) :
  requireAuthAndAccount g = None ->
  resultOf (run h w (collectCardAttachments g
                       (attachmentsDownloadIncludeComments g) cardNumber))
  = inr atts ->
  let rc := run h w (collectCardAttachments g
                       (attachmentsDownloadIncludeComments g) cardNumber) in
  let r := run h w (attachmentsDownloadRun g cardNumber indexArg) in
  let refused (err : commandError) :=
    resultOf r = ExitWith err /\ traceOf r = traceOf rc in
  (atts = [] ->
   refused (NewNotFoundError (lit "No attachments found on this card")))
  /\ (forall arg,
        atts <> [] -> indexArg = Some arg -> parseInt arg = None ->
        refused (PlainError (NewInvalidArgsError
                   (lit "attachment index must be a number"))))
  /\ (forall arg k,
        atts <> [] -> indexArg = Some arg -> parseInt arg = Some k ->
        k < 1 \/ Z.of_nat (length atts) < k ->
        refused (PlainError (NewInvalidArgsError
                   (lit "attachment index must be between 1 and "
                    ++ itoa (Z.of_nat (length atts)))))).
Proof.
  intros Hauth Hcollect. cbv zeta. unfold attachmentsDownloadRun.
  rewrite Hauth, run_bind.
  destruct (run h w (collectCardAttachments _ _ _)) as [[c w1] t1].
  unfold resultOf, traceOf in *. cbn [fst snd] in *. subst c.
  split; [|split].
  - intros ->. cbn [length Nat.eqb]. run_norm. by rewrite app_nil_r.
  - intros arg Hne -> Harg.
    assert ((length atts =? 0)%nat = false) as -> by by destruct atts.
    rewrite Harg. run_norm. by rewrite app_nil_r.
  - intros arg k Hne -> Harg Hk.
    assert ((length atts =? 0)%nat = false) as -> by by destruct atts.
    rewrite Harg.
    assert ((k <? 1) || (Z.of_nat (length atts) <? k) = true) as ->.
    { apply orb_true_iff. destruct Hk; [left|right]; by apply Z.ltb_lt. }
    run_norm. by rewrite app_nil_r.
Qed.

Lemma attachmentsDownloadRun_refusals_witness :
  let h := cardServer commentsListingFails in
  let g := withComments in
  let atts := [imageA; imageB] in
  let rc := run h 0 (collectCardAttachments g
                       (attachmentsDownloadIncludeComments g) (lit "42")) in
  let r := run h 0 (attachmentsDownloadRun g (lit "42")
                      (Some (lit "3"))) in
  let refused (err : commandError) :=
    resultOf r = ExitWith err /\ traceOf r = traceOf rc in
  (atts = [] ->
   refused (NewNotFoundError (lit "No attachments found on this card")))
  /\ (forall arg,
        atts <> [] -> Some (lit "3") = Some arg -> parseInt arg = None ->
        refused (PlainError (NewInvalidArgsError
                   (lit "attachment index must be a number"))))
  /\ (forall arg k,
        atts <> [] -> Some (lit "3") = Some arg -> parseInt arg = Some k ->
        k < 1 \/ Z.of_nat (length atts) < k ->
        refused (PlainError (NewInvalidArgsError
                   (lit "attachment index must be between 1 and "
                    ++ itoa (Z.of_nat (length atts)))))).
Proof.
  apply (attachmentsDownloadRun_refusals (cardServer commentsListingFails) 0
           withComments (lit "42") (Some (lit "3")) [imageA; imageB]).
  - reflexivity.
  - vm_compute. reflexivity.
Defined.

(** Index 3 is in range with the comments listed and out of range when
    their listing is refused. *)
Example attachmentsDownloadRun_index_examples :
  resultOf (run (cardServer commentsListingFails) 0
              (attachmentsDownloadRun withComments (lit "42")
                 (Some (lit "3"))))
  = ExitWith (PlainError (NewInvalidArgsError
                (lit "attachment index must be between 1 and 2")))
  /\ resultOf (run (cardServer neverFails) 0
                 (attachmentsDownloadRun withComments (lit "42")
                    (Some (lit "3"))))
     = DownloadSuccess 1
         [{| fileFilename := lit "a.png"; fileSavedTo := lit "a.png";
             fileFilesize := 0 |}]
  /\ resultOf (run (cardServer neverFails) 0
                 (attachmentsDownloadRun withComments (lit "42")
                    (Some (lit "three"))))
     = ExitWith (PlainError (NewInvalidArgsError
                   (lit "attachment index must be a number"))).
Proof. by vm_compute. Qed.
